(** * A tagged paragraph block for a block-based editor

    Shallow embedding of the [Paragraph] tool class: its constructor,
    [drawView], [render], [merge], [validate], [onPaste], [onKeyUp],
    [_toggleTag] and the [data] getter and setter, over a model of the
    part of the browser platform the class talks to (strings, arrays,
    [Set], the DOM of three [DIV] elements and the markup they hold).

    Conventions.  A JavaScript string is a sequence of code units
    restricted to U+0000..U+00FF (a Rocq [string]); a property that may be
    absent ([undefined]) is an [option]; an operation of the class is a
    computation in the monad [M] of state and exceptions over the [World]
    (the document's elements and the [this] object). *)

From Stdlib Require Import String Ascii List Bool Arith ZArith Lia.
Import ListNotations.

#[local] Set Warnings "-register-all".

Local Open Scope string_scope.
Local Open Scope list_scope.

(* ================================================================== *)
(** ** JavaScript strings and arrays *)
(* ================================================================== *)

Module JS.

(** Code unit of a character. *)
Definition charCode (c : ascii) : nat := nat_of_ascii c.

(** [s + c] for a single character. *)
Fixpoint snoc (s : string) (c : ascii) : string :=
  match s with
  | EmptyString => String c EmptyString
  | String a s' => String a (snoc s' c)
  end.

(** ECMAScript WhiteSpace and LineTerminator code points below U+0100:
    TAB, LF, VT, FF, CR, SPACE and NBSP. *)
Definition isWhiteSpace (c : ascii) : bool :=
  let n := charCode c in
  ((n =? 9) || (n =? 10) || (n =? 11) || (n =? 12) || (n =? 13)
   || (n =? 32) || (n =? 160))%nat.

(** [String.prototype.trimStart]. *)
Fixpoint trimStart (s : string) : string :=
  match s with
  | EmptyString => EmptyString
  | String c s' => if isWhiteSpace c then trimStart s' else s
  end.

(** [String.prototype.trimEnd]: a white-space character is dropped when
    everything after it has been dropped. *)
Fixpoint trimEnd (s : string) : string :=
  match s with
  | EmptyString => EmptyString
  | String c s' =>
      match trimEnd s' with
      | EmptyString => if isWhiteSpace c then EmptyString
                       else String c EmptyString
      | r => String c r
      end
  end.

(** [String.prototype.trim]. *)
Definition trim (s : string) : string := trimEnd (trimStart s).

(** [Array.prototype.includes] on an array of strings. *)
Fixpoint includes (l : list string) (x : string) : bool :=
  match l with
  | [] => false
  | y :: l' => if String.eqb y x then true else includes l' x
  end.

(** [Array.prototype.indexOf]: index of the first occurrence, [-1] when
    there is none. *)
Fixpoint indexOf_from (i : Z) (l : list string) (x : string) : Z :=
  match l with
  | [] => (-1)%Z
  | y :: l' => if String.eqb y x then i else indexOf_from (i + 1)%Z l' x
  end.

Definition indexOf (l : list string) (x : string) : Z := indexOf_from 0%Z l x.

(** Removal of the element at position [n]. *)
Fixpoint remove_at {A} (n : nat) (l : list A) : list A :=
  match l, n with
  | [], _ => []
  | _ :: l', O => l'
  | y :: l', S n' => y :: remove_at n' l'
  end.

(** [array.splice(start, 1)] as the class uses it: a negative [start]
    counts from the end of the array (clamped at 0), a [start] past the
    end removes nothing. *)
Definition splice1 {A} (l : list A) (start : Z) : list A :=
  let len := Z.of_nat (length l) in
  let actual := if (start <? 0)%Z then Z.max (len + start) 0 else Z.min start len in
  remove_at (Z.to_nat actual) l.

(** [array.push(x)]. *)
Definition push {A} (l : list A) (x : A) : list A := l ++ [x].

(** [array.join('')]. *)
Fixpoint join (l : list string) : string :=
  match l with
  | [] => EmptyString
  | s :: l' => s ++ join l'
  end.

(** A [Set] of strings, kept as the list of its members in insertion
    order; [Set.prototype.add] appends a value that is not a member. *)
Definition Set_add (s : list string) (x : string) : list string :=
  if includes s x then s else s ++ [x].

(** [new Set(iterable)]. *)
Definition new_Set (l : list string) : list string := fold_left Set_add l [].

(** [string + value] where the value may be [undefined]. *)
Definition plus (s : string) (v : option string) : string :=
  match v with
  | Some t => s ++ t
  | None => s ++ "undefined"
  end.

(** [value || ''] for a string-or-undefined value: the empty string is
    falsy as well. *)
Definition or_empty (v : option string) : string :=
  match v with
  | Some EmptyString => EmptyString
  | Some s => s
  | None => EmptyString
  end.

(** [value || []] for an array-or-undefined value (an array is truthy). *)
Definition or_nil {A} (v : option (list A)) : list A :=
  match v with
  | Some l => l
  | None => []
  end.

End JS.

(* ================================================================== *)
(** ** The platform: markup and the DOM *)
(* ================================================================== *)

(** The class reads and writes its view through [innerHTML],
    [textContent] and [querySelectorAll].  The model follows the HTML
    Standard: the tokenizer (data, tags, attributes, comments, DOCTYPE),
    the tree construction for a fragment parsed in a [div] and the
    fragment serialisation algorithm.  Not modelled: character references
    other than [&amp;], [&lt;], [&gt;], [&quot;] and [&nbsp;], the
    replacement of U+0000 by U+FFFD, and the per-element rules of tree
    construction (implied end tags, formatting elements, tables, raw-text
    elements, foreign content): every element but a void one is opened by
    its start tag and closed by its end tag.  The statements below that
    depend on how markup is parsed are about markup inside the modelled
    part: literal text, the five references, [<br>] and the [span]
    elements of the tag strip. *)

Module DOM.

Import JS.

(** *** Trees *)

Inductive node : Type :=
| Text (data : string)
| Comment (data : string)
| Element (name : string) (attrs : list (string * string)) (children : list node).

(** *** Characters *)

Definition is_chr (c d : ascii) : bool := Ascii.eqb c d.

(** U+0022 QUOTATION MARK. *)
Definition quotation_mark : ascii :=
  Ascii false true false false false true false false.

(** TAB, LF, FF, CR, SPACE. *)
Definition isAsciiWhitespace (c : ascii) : bool :=
  is_chr c "009" || is_chr c "010" || is_chr c "012" || is_chr c "013"
  || is_chr c " ".

Definition isUpper (c : ascii) : bool :=
  ((65 <=? charCode c) && (charCode c <=? 90))%nat.
Definition isLower (c : ascii) : bool :=
  ((97 <=? charCode c) && (charCode c <=? 122))%nat.
Definition isAlpha (c : ascii) : bool := isUpper c || isLower c.
Definition isDigit (c : ascii) : bool :=
  ((48 <=? charCode c) && (charCode c <=? 57))%nat.
Definition isAlnum (c : ascii) : bool := isAlpha c || isDigit c.

Definition toLower (c : ascii) : ascii :=
  if isUpper c then ascii_of_nat (charCode c + 32) else c.

Fixpoint lower (s : string) : string :=
  match s with
  | EmptyString => EmptyString
  | String c s' => String (toLower c) (lower s')
  end.

(** *** Tokens *)

Inductive token : Type :=
| TChar (c : ascii)
| TStartTag (name : string) (attrs : list (string * string)) (selfClosing : bool)
| TEndTag (name : string)
| TComment (data : string).

(** A tag token under construction. *)
Record tag : Type := mkTag {
  t_end : bool;
  t_name : string;
  t_attrs : list (string * string);
  t_self : bool
}.

Definition emit_tag (t : tag) : token :=
  if t_end t then TEndTag (t_name t)
  else TStartTag (t_name t) (t_attrs t) (t_self t).

Fixpoint has_attr (attrs : list (string * string)) (n : string) : bool :=
  match attrs with
  | [] => false
  | (k, _) :: r => if String.eqb k n then true else has_attr r n
  end.

(** An attribute is added when its name is complete; a second attribute
    of the same name is dropped with its value. *)
Definition commit (t : tag) (an av : string) : tag :=
  if has_attr (t_attrs t) an then t
  else mkTag (t_end t) (t_name t) (t_attrs t ++ [(an, av)]) (t_self t).

(** Where a character reference returns to. *)
Inductive quote : Type := DQ | SQ | UQ.

Inductive refctx : Type :=
| InData
| InAttr (t : tag) (an av : string) (q : quote).

(** Tokenizer states, each with the token it is building. *)
Inductive tstate : Type :=
| Data
| TagOpen
| EndTagOpen
| TagName (t : tag)
| BeforeAttrName (t : tag)
| AttrName (t : tag) (an : string)
| AfterAttrName (t : tag) (an : string)
| BeforeAttrValue (t : tag) (an : string)
| AttrValue (q : quote) (t : tag) (an av : string)
| AfterAttrValueQuoted (t : tag)
| SelfClosingStartTag (t : tag)
| BogusComment (data : string)
| MarkupDeclarationOpen (seen : string)
| Doctype
| CommentStart
| CommentStartDash
| CommentSt (data : string)
| CommentEndDash (data : string)
| CommentEnd (data : string)
| CommentEndBang (data : string)
| CharacterReference (ctx : refctx) (seen : string).

(** *** Character references *)

Definition named_reference (n : string) : option ascii :=
  if String.eqb n "amp" then Some "&"%char
  else if String.eqb n "lt" then Some "<"%char
  else if String.eqb n "gt" then Some ">"%char
  else if String.eqb n "quot" then Some quotation_mark
  else if String.eqb n "nbsp" then Some (ascii_of_nat 160)
  else None.

Definition reference_prefix (n : string) : bool :=
  String.prefix n "amp" || String.prefix n "lt" || String.prefix n "gt"
  || String.prefix n "quot" || String.prefix n "nbsp".

Fixpoint chars (s : string) : list token :=
  match s with
  | EmptyString => []
  | String c s' => TChar c :: chars s'
  end.

(** Output of a character reference: characters in data, an extension
    of the attribute value in a tag. *)
Definition flush (ctx : refctx) (s : string) : list token * tstate :=
  match ctx with
  | InData => (chars s, Data)
  | InAttr t an av q => ([], AttrValue q t an (av ++ s))
  end.

(** *** The tokenizer, one character at a time

    A state that hands its character on to another state ("reconsume")
    calls that state's step. *)

Definition data_step (c : ascii) : list token * tstate :=
  if is_chr c "&" then ([], CharacterReference InData "")
  else if is_chr c "<" then ([], TagOpen)
  else ([TChar c], Data).

Definition bogus_step (d : string) (c : ascii) : list token * tstate :=
  if is_chr c ">" then ([TComment d], Data)
  else ([], BogusComment (snoc d c)).

Definition comment_step (d : string) (c : ascii) : list token * tstate :=
  if is_chr c "-" then ([], CommentEndDash d)
  else ([], CommentSt (snoc d c)).

Definition comment_start_step (c : ascii) : list token * tstate :=
  if is_chr c "-" then ([], CommentStartDash)
  else if is_chr c ">" then ([TComment ""], Data)
  else comment_step "" c.

Definition comment_start_dash_step (c : ascii) : list token * tstate :=
  if is_chr c "-" then ([], CommentEnd "")
  else if is_chr c ">" then ([TComment ""], Data)
  else comment_step "-" c.

Definition comment_end_dash_step (d : string) (c : ascii) : list token * tstate :=
  if is_chr c "-" then ([], CommentEnd d)
  else comment_step (snoc d "-") c.

Definition comment_end_step (d : string) (c : ascii) : list token * tstate :=
  if is_chr c ">" then ([TComment d], Data)
  else if is_chr c "!" then ([], CommentEndBang d)
  else if is_chr c "-" then ([], CommentEnd (snoc d "-"))
  else comment_step (d ++ "--") c.

Definition comment_end_bang_step (d : string) (c : ascii) : list token * tstate :=
  if is_chr c "-" then ([], CommentEndDash (d ++ "--!"))
  else if is_chr c ">" then ([TComment d], Data)
  else comment_step (d ++ "--!") c.

(** After [<!]: two dashes open a comment, the word DOCTYPE a DOCTYPE,
    anything else is a bogus comment that starts with what was seen. *)
Definition markup_declaration_step (seen : string) (c : ascii)
  : list token * tstate :=
  let s := snoc seen c in
  if String.eqb s "--" then ([], CommentStart)
  else if String.eqb (lower s) "doctype" then ([], Doctype)
  else if String.prefix s "--" || String.prefix (lower s) "doctype"
       then ([], MarkupDeclarationOpen s)
  else bogus_step seen c.

Definition doctype_step (c : ascii) : list token * tstate :=
  if is_chr c ">" then ([], Data) else ([], Doctype).

Definition new_tag (isEnd : bool) : tag := mkTag isEnd "" [] false.

Definition tag_name_step (t : tag) (c : ascii) : list token * tstate :=
  if isAsciiWhitespace c then ([], BeforeAttrName t)
  else if is_chr c "/" then ([], SelfClosingStartTag t)
  else if is_chr c ">" then ([emit_tag t], Data)
  else ([], TagName (mkTag (t_end t) (snoc (t_name t) (toLower c))
                           (t_attrs t) (t_self t))).

Definition attr_name_append (t : tag) (an : string) (c : ascii)
  : list token * tstate :=
  ([], AttrName t (snoc an (toLower c))).

Definition after_attr_name_step (t : tag) (an : string) (c : ascii)
  : list token * tstate :=
  if isAsciiWhitespace c then ([], AfterAttrName t an)
  else if is_chr c "/" then ([], SelfClosingStartTag (commit t an ""))
  else if is_chr c "=" then ([], BeforeAttrValue t an)
  else if is_chr c ">" then ([emit_tag (commit t an "")], Data)
  else attr_name_append (commit t an "") "" c.

Definition attr_name_step (t : tag) (an : string) (c : ascii)
  : list token * tstate :=
  if isAsciiWhitespace c || is_chr c "/" || is_chr c ">"
  then after_attr_name_step t an c
  else if is_chr c "=" then ([], BeforeAttrValue t an)
  else attr_name_append t an c.

Definition before_attr_name_step (t : tag) (c : ascii) : list token * tstate :=
  if isAsciiWhitespace c then ([], BeforeAttrName t)
  else if is_chr c "/" then ([], SelfClosingStartTag t)
  else if is_chr c ">" then ([emit_tag t], Data)
  else if is_chr c "=" then ([], AttrName t "=")
  else attr_name_append t "" c.

Definition attr_value_step (q : quote) (t : tag) (an av : string) (c : ascii)
  : list token * tstate :=
  if is_chr c "&" then ([], CharacterReference (InAttr t an av q) "")
  else
    match q with
    | DQ => if is_chr c quotation_mark then ([], AfterAttrValueQuoted (commit t an av))
            else ([], AttrValue DQ t an (snoc av c))
    | SQ => if is_chr c "'" then ([], AfterAttrValueQuoted (commit t an av))
            else ([], AttrValue SQ t an (snoc av c))
    | UQ => if isAsciiWhitespace c then ([], BeforeAttrName (commit t an av))
            else if is_chr c ">" then ([emit_tag (commit t an av)], Data)
            else ([], AttrValue UQ t an (snoc av c))
    end.

Definition before_attr_value_step (t : tag) (an : string) (c : ascii)
  : list token * tstate :=
  if isAsciiWhitespace c then ([], BeforeAttrValue t an)
  else if is_chr c quotation_mark then ([], AttrValue DQ t an "")
  else if is_chr c "'" then ([], AttrValue SQ t an "")
  else if is_chr c ">" then ([emit_tag (commit t an "")], Data)
  else attr_value_step UQ t an "" c.

Definition after_attr_value_quoted_step (t : tag) (c : ascii)
  : list token * tstate :=
  before_attr_name_step t c.

Definition self_closing_step (t : tag) (c : ascii) : list token * tstate :=
  if is_chr c ">"
  then ([emit_tag (mkTag (t_end t) (t_name t) (t_attrs t) true)], Data)
  else before_attr_name_step t c.

Definition tag_open_step (c : ascii) : list token * tstate :=
  if is_chr c "!" then ([], MarkupDeclarationOpen "")
  else if is_chr c "/" then ([], EndTagOpen)
  else if isAlpha c then tag_name_step (new_tag false) c
  else if is_chr c "?" then bogus_step "" c
  else let (o, st) := data_step c in (TChar "<" :: o, st).

Definition end_tag_open_step (c : ascii) : list token * tstate :=
  if isAlpha c then tag_name_step (new_tag true) c
  else if is_chr c ">" then ([], Data)
  else bogus_step "" c.

(** The return state takes the character that ended a reference. *)
Definition resume (ctx : refctx) (s : string) (c : ascii) : list token * tstate :=
  match ctx with
  | InData => let (o, st) := data_step c in (chars s ++ o, st)
  | InAttr t an av q => attr_value_step q t an (av ++ s) c
  end.

Definition in_attribute (ctx : refctx) : bool :=
  match ctx with InData => false | InAttr _ _ _ _ => true end.

Definition character_reference_step (ctx : refctx) (seen : string) (c : ascii)
  : list token * tstate :=
  match named_reference seen with
  | Some d =>
      if is_chr c ";" then flush ctx (String d "")
      else if in_attribute ctx && (is_chr c "=" || isAlnum c)
           then resume ctx (String "&" seen) c
      else resume ctx (String d "") c
  | None =>
      if isAlnum c && reference_prefix (snoc seen c)
      then ([], CharacterReference ctx (snoc seen c))
      else resume ctx (String "&" seen) c
  end.

Definition step (st : tstate) (c : ascii) : list token * tstate :=
  match st with
  | Data => data_step c
  | TagOpen => tag_open_step c
  | EndTagOpen => end_tag_open_step c
  | TagName t => tag_name_step t c
  | BeforeAttrName t => before_attr_name_step t c
  | AttrName t an => attr_name_step t an c
  | AfterAttrName t an => after_attr_name_step t an c
  | BeforeAttrValue t an => before_attr_value_step t an c
  | AttrValue q t an av => attr_value_step q t an av c
  | AfterAttrValueQuoted t => after_attr_value_quoted_step t c
  | SelfClosingStartTag t => self_closing_step t c
  | BogusComment d => bogus_step d c
  | MarkupDeclarationOpen seen => markup_declaration_step seen c
  | Doctype => doctype_step c
  | CommentStart => comment_start_step c
  | CommentStartDash => comment_start_dash_step c
  | CommentSt d => comment_step d c
  | CommentEndDash d => comment_end_dash_step d c
  | CommentEnd d => comment_end_step d c
  | CommentEndBang d => comment_end_bang_step d c
  | CharacterReference ctx seen => character_reference_step ctx seen c
  end.

(** End of input: an unfinished tag is dropped, an unfinished comment
    is emitted. *)
Definition eof (st : tstate) : list token :=
  match st with
  | TagOpen => [TChar "<"]
  | EndTagOpen => [TChar "<"; TChar "/"]
  | BogusComment d | MarkupDeclarationOpen d => [TComment d]
  | CommentStart | CommentStartDash => [TComment ""]
  | CommentSt d | CommentEndDash d | CommentEnd d | CommentEndBang d =>
      [TComment d]
  | CharacterReference InData seen =>
      match named_reference seen with
      | Some d => [TChar d]
      | None => chars (String "&" seen)
      end
  | _ => []
  end.

Fixpoint run (st : tstate) (s : string) : list token :=
  match s with
  | EmptyString => eof st
  | String c s' => let (o, st') := step st c in o ++ run st' s'
  end.

(** Input stream preprocessing: CR LF and CR become LF. *)
Fixpoint normalizeNewlines (s : string) : string :=
  match s with
  | EmptyString => EmptyString
  | String c s' =>
      if is_chr c "013" then
        String "010"
          match s' with
          | EmptyString => EmptyString
          | String d s'' =>
              if is_chr d "010" then normalizeNewlines s''
              else normalizeNewlines s'
          end
      else String c (normalizeNewlines s')
  end.

Definition tokenize (s : string) : list token := run Data (normalizeNewlines s).

(** *** Tree construction (fragment case, context element [div]) *)

(** An open element with the children it has so far. *)
Record frame : Type := mkFrame {
  f_name : string;
  f_attrs : list (string * string);
  f_children : list node
}.

(** The stack of open elements, innermost first, and the children of
    the context element. *)
Definition builder : Type := (list frame * list node)%type.

Definition add_child (f : frame) (n : node) : frame :=
  mkFrame (f_name f) (f_attrs f) (f_children f ++ [n]).

(** Insertion at the current node. *)
Definition attach (n : node) (b : builder) : builder :=
  match b with
  | ([], root) => ([], root ++ [n])
  | (f :: r, root) => (add_child f n :: r, root)
  end.

(** A character joins the text node that ends the current node's
    children, or starts a new one. *)
Fixpoint append_char (c : ascii) (l : list node) : list node :=
  match l with
  | [] => [Text (String c "")]
  | [Text d] => [Text (snoc d c)]
  | n :: r => n :: append_char c r
  end.

Definition insert_char (c : ascii) (b : builder) : builder :=
  if is_chr c "000" then b
  else
    match b with
    | ([], root) => ([], append_char c root)
    | (f :: r, root) =>
        (mkFrame (f_name f) (f_attrs f) (append_char c (f_children f)) :: r, root)
    end.

Definition voidInBody : list string :=
  ["area"; "br"; "embed"; "img"; "keygen"; "wbr"; "input"; "param";
   "source"; "track"; "hr"; "base"; "basefont"; "bgsound"; "link"; "meta"].

Definition ignoredInBody : list string :=
  ["caption"; "col"; "colgroup"; "frame"; "frameset"; "head"; "tbody";
   "td"; "tfoot"; "th"; "thead"; "tr"; "html"; "body"].

Definition is_open (name : string) (stack : list frame) : bool :=
  includes (map f_name stack) name.

(** Elements are popped up to and including the innermost one called
    [name]; each popped element becomes a child of the one below. *)
Fixpoint close_until (name : string) (carry : list node)
    (stack : list frame) (root : list node) : builder :=
  match stack with
  | [] => ([], root ++ carry)
  | f :: r =>
      let e := Element (f_name f) (f_attrs f) (f_children f ++ carry) in
      if String.eqb (f_name f) name then attach e (r, root)
      else close_until name [e] r root
  end.

Definition start_tag (name : string) (attrs : list (string * string))
    (b : builder) : builder :=
  if includes ignoredInBody name then b
  else if includes voidInBody name then attach (Element name attrs []) b
  else (mkFrame name attrs [] :: fst b, snd b).

Definition end_tag (name : string) (b : builder) : builder :=
  if String.eqb name "br" then attach (Element "br" [] []) b
  else if is_open name (fst b) then close_until name [] (fst b) (snd b)
  else if String.eqb name "p" then attach (Element "p" [] []) b
  else b.

Definition process (b : builder) (t : token) : builder :=
  match t with
  | TChar c => insert_char c b
  | TComment d => attach (Comment d) b
  | TStartTag name attrs _ => start_tag name attrs b
  | TEndTag name => end_tag name b
  end.

(** At the end of input every open element is closed. *)
Fixpoint close_all (carry : list node) (stack : list frame) (root : list node)
  : list node :=
  match stack with
  | [] => root ++ carry
  | f :: r =>
      close_all [Element (f_name f) (f_attrs f) (f_children f ++ carry)] r root
  end.

Definition build (ts : list token) : list node :=
  let b := fold_left process ts ([], []) in
  close_all [] (fst b) (snd b).

(** The children that [element.innerHTML = s] gives the element. *)
Definition parseFragment (s : string) : list node := build (tokenize s).

(** *** Serialisation *)

Definition voidElements : list string :=
  ["area"; "base"; "basefont"; "bgsound"; "br"; "col"; "embed"; "frame";
   "hr"; "img"; "input"; "keygen"; "link"; "meta"; "param"; "source";
   "track"; "wbr"].

Definition rawTextElements : list string :=
  ["style"; "script"; "xmp"; "iframe"; "noembed"; "noframes"; "plaintext";
   "noscript"].

Fixpoint escape (attributeMode : bool) (s : string) : string :=
  match s with
  | EmptyString => EmptyString
  | String c s' =>
      (if is_chr c "&" then "&amp;"
       else if (charCode c =? 160)%nat then "&nbsp;"
       else if is_chr c "<" then "&lt;"
       else if is_chr c ">" then "&gt;"
       else if attributeMode && is_chr c quotation_mark then "&quot;"
       else String c "") ++ escape attributeMode s'
  end.

Definition serializeAttr (a : string * string) : string :=
  " " ++ fst a ++ "=" ++ String quotation_mark (escape true (snd a))
  ++ String quotation_mark "".

Fixpoint serialize (raw : bool) (n : node) : string :=
  match n with
  | Text d => if raw then d else escape false d
  | Comment d => "<!--" ++ d ++ "-->"
  | Element name attrs children =>
      "<" ++ name ++ join (map serializeAttr attrs) ++ ">"
      ++ (if includes voidElements name then ""
          else join (map (serialize (includes rawTextElements name)) children)
               ++ "</" ++ name ++ ">")
  end.

(** [innerHTML] of an element with the given name and children. *)
Definition serializeChildren (name : string) (children : list node) : string :=
  join (map (serialize (includes rawTextElements name)) children).

(** An element of a tree, as a selector returns it. *)
Record element : Type := mkEl {
  el_name : string;
  el_attrs : list (string * string);
  el_children : list node
}.

(** [element.innerHTML]. *)
Definition innerHTML (e : element) : string :=
  serializeChildren (el_name e) (el_children e).

(** [node.innerHTML] of any node of a tree: only an element has the
    property, of another node it is [undefined]. *)
Definition node_innerHTML (n : node) : option string :=
  match n with
  | Element name attrs children => Some (innerHTML (mkEl name attrs children))
  | _ => None
  end.

(** [node.textContent]: the text of the descendants, in tree order. *)
Fixpoint textContent (n : node) : string :=
  match n with
  | Text d => d
  | Comment _ => EmptyString
  | Element _ _ children => join (map textContent children)
  end.

(** *** Class selectors *)

Fixpoint get_attr (attrs : list (string * string)) (n : string) : option string :=
  match attrs with
  | [] => None
  | (k, v) :: r => if String.eqb k n then Some v else get_attr r n
  end.

(** The white-space separated tokens of an attribute value. *)
Fixpoint split_tokens (cur : string) (s : string) : list string :=
  match s with
  | EmptyString => match cur with EmptyString => [] | _ => [cur] end
  | String c r =>
      if isAsciiWhitespace c
      then match cur with
           | EmptyString => split_tokens "" r
           | _ => cur :: split_tokens "" r
           end
      else split_tokens (snoc cur c) r
  end.

Definition hasClass (cls : string) (attrs : list (string * string)) : bool :=
  match get_attr attrs "class" with
  | Some v => includes (split_tokens "" v) cls
  | None => false
  end.

(** The node and its descendants that are elements of class [cls], in
    tree order. *)
Fixpoint selectClass (cls : string) (n : node) : list element :=
  match n with
  | Element name attrs children =>
      (if hasClass cls attrs then [mkEl name attrs children] else [])
      ++ flat_map (selectClass cls) children
  | _ => []
  end.

(** [element.querySelectorAll('.cls')] over the element's children. *)
Definition querySelectorAll (cls : string) (children : list node)
  : list element :=
  flat_map (selectClass cls) children.

End DOM.

(* ================================================================== *)
(** ** Exceptions and stateful computations *)
(* ================================================================== *)

Inductive exn : Type :=
| TypeError               (* a member of [undefined] is read, or it is spread *)
| SyntaxError             (* an empty class token *)
| InvalidCharacterError.  (* a class token with white space *)

Inductive result (A : Type) : Type :=
| Ok (a : A)
| Throw (e : exn).

Arguments Ok {A} a.
Arguments Throw {A} e.

(** A computation over a state [S] that returns a value or throws. *)
Definition M (S A : Type) : Type := S -> result (A * S).

Definition ret {S A} (a : A) : M S A := fun s => Ok (a, s).

Definition bind {S A B} (c : M S A) (k : A -> M S B) : M S B :=
  fun s => match c s with
           | Ok (a, s') => k a s'
           | Throw e => Throw e
           end.

Definition throw {S A} (e : exn) : M S A := fun _ => Throw e.

Definition gets {S A} (f : S -> A) : M S A := fun s => Ok (f s, s).

Definition modify {S} (f : S -> S) : M S unit := fun s => Ok (tt, f s).

(** Reading a member of a value that may be [undefined]. *)
Definition the {S A} (v : option A) : M S A :=
  match v with
  | Some a => ret a
  | None => throw TypeError
  end.

Declare Scope js_scope.
Delimit Scope js_scope with js.
Notation "x <- c ;; k" := (bind c (fun x => k))
  (at level 61, c at next level, right associativity) : js_scope.
Notation "c ;; k" := (bind c (fun _ => k))
  (at level 61, right associativity) : js_scope.

(* ================================================================== *)
(** ** The document: elements with identity *)
(* ================================================================== *)

(** The class keeps references to three [DIV] elements.  An element is a
    cell of the document, named by its handle; in this program an element
    receives either markup through [innerHTML] (the text region and the
    tag strip) or elements through [appendChild] (the wrapper), so the two
    kinds of children are kept in two fields. *)

Module Doc.

Import JS DOM.

Definition handle : Type := nat.

Record HTMLElement : Type := mkElement {
  tagName : string;
  classList : list string;
  contentEditable : option bool;          (* [None]: inherit *)
  dataset_placeholder : option string;
  listeners : list string;                (* event types with a handler *)
  childNodes : list node;                 (* children parsed from markup *)
  childElements : list handle             (* children appended by handle *)
}.

Definition Document : Type := list HTMLElement.

Definition detached : HTMLElement := mkElement "DIV" [] None None [] [] [].

Definition lookup (doc : Document) (h : handle) : HTMLElement :=
  nth h doc detached.

Fixpoint update (doc : Document) (h : handle) (f : HTMLElement -> HTMLElement)
  : Document :=
  match doc, h with
  | [], _ => []
  | e :: r, O => f e :: r
  | e :: r, S h' => e :: update r h' f
  end.

(** [document.createElement(name)]: a fresh element, distinct from
    every element made before. *)
Definition createElement (name : string) (doc : Document) : handle * Document :=
  (length doc, doc ++ [mkElement name [] None None [] [] []]).

(** A class token must be non-empty and free of white space. *)
Fixpoint has_whitespace (s : string) : bool :=
  match s with
  | EmptyString => false
  | String c r => isAsciiWhitespace c || has_whitespace r
  end.

Definition set_classList (l : list string) (e : HTMLElement) : HTMLElement :=
  mkElement (tagName e) l (contentEditable e) (dataset_placeholder e)
            (listeners e) (childNodes e) (childElements e).

(** [element.classList.add(t1, ..., tn)]. *)
Fixpoint check_tokens (ts : list string) : option exn :=
  match ts with
  | [] => None
  | t :: r =>
      match t with
      | EmptyString => Some SyntaxError
      | _ => if has_whitespace t then Some InvalidCharacterError
             else check_tokens r
      end
  end.

Definition classList_add (ts : list string) (e : HTMLElement) : result HTMLElement :=
  match check_tokens ts with
  | Some x => Throw x
  | None => Ok (set_classList (fold_left Set_add ts (classList e)) e)
  end.

Definition set_contentEditable (b : bool) (e : HTMLElement) : HTMLElement :=
  mkElement (tagName e) (classList e) (Some b) (dataset_placeholder e)
            (listeners e) (childNodes e) (childElements e).

Definition set_placeholder (s : string) (e : HTMLElement) : HTMLElement :=
  mkElement (tagName e) (classList e) (contentEditable e) (Some s)
            (listeners e) (childNodes e) (childElements e).

Definition addEventListener (type : string) (e : HTMLElement) : HTMLElement :=
  mkElement (tagName e) (classList e) (contentEditable e) (dataset_placeholder e)
            (listeners e ++ [type]) (childNodes e) (childElements e).

Definition appendChild (child : handle) (e : HTMLElement) : HTMLElement :=
  mkElement (tagName e) (classList e) (contentEditable e) (dataset_placeholder e)
            (listeners e) (childNodes e) (childElements e ++ [child]).

(** [element.innerHTML = s]: every child is replaced by the parsed
    markup. *)
Definition set_innerHTML (s : string) (e : HTMLElement) : HTMLElement :=
  mkElement (tagName e) (classList e) (contentEditable e) (dataset_placeholder e)
            (listeners e) (parseFragment s) [].

(** [element.innerHTML]. *)
Definition get_innerHTML (e : HTMLElement) : string :=
  serializeChildren (lower (tagName e)) (childNodes e).

(** [element.textContent]. *)
Definition get_textContent (e : HTMLElement) : string :=
  join (map textContent (childNodes e)).

(** [element.classList.toggle(token)]: a present token is removed, an
    absent one is added; [toggle(token, force)] adds it when [force] is
    true and removes it when it is false. *)
Definition remove_token (t : string) (l : list string) : list string :=
  filter (fun x => negb (String.eqb x t)) l.

Definition classList_toggle (t : string) (e : HTMLElement) : result HTMLElement :=
  match check_tokens [t] with
  | Some x => Throw x
  | None =>
      Ok (set_classList
            (if includes (classList e) t then remove_token t (classList e)
             else classList e ++ [t]) e)
  end.

Definition classList_toggle_force (t : string) (force : bool) (e : HTMLElement)
  : result HTMLElement :=
  match check_tokens [t] with
  | Some x => Throw x
  | None =>
      Ok (set_classList
            (if force then Set_add (classList e) t
             else remove_token t (classList e)) e)
  end.

(** *** Selectors over the document

    What a selector finds is an element of the document or an element
    parsed from markup. *)
Inductive found : Type :=
| FoundCell (h : handle)
| FoundNode (e : element).

(** [element.querySelectorAll('.cls')]: the descendants of class [cls] in
    tree order (the element itself is not among them).  The depth of the
    search is bounded by the number of elements of the document. *)
Fixpoint select_cells (fuel : nat) (doc : Document) (cls : string) (h : handle)
  : list found :=
  match fuel with
  | O => []
  | S f =>
      let e := lookup doc h in
      map FoundNode (querySelectorAll cls (childNodes e))
      ++ flat_map
           (fun c =>
              (if includes (classList (lookup doc c)) cls then [FoundCell c] else [])
              ++ select_cells f doc cls c)
           (childElements e)
  end.

(** [element.querySelector('.cls')]: the first of them, or [null]. *)
Definition querySelector (doc : Document) (cls : string) (h : handle)
  : option found :=
  hd_error (select_cells (length doc) doc cls h).

Definition found_querySelectorAll (doc : Document) (cls : string) (x : found)
  : list found :=
  match x with
  | FoundCell h => select_cells (length doc) doc cls h
  | FoundNode e => map FoundNode (querySelectorAll cls (el_children e))
  end.

Definition found_querySelector (doc : Document) (cls : string) (x : found)
  : option found :=
  hd_error (found_querySelectorAll doc cls x).

Definition found_innerHTML (doc : Document) (x : found) : string :=
  match x with
  | FoundCell h => get_innerHTML (lookup doc h)
  | FoundNode e => innerHTML e
  end.

End Doc.

(* ================================================================== *)
(** ** The Paragraph tool *)
(* ================================================================== *)

Module Tool.

Import JS DOM Doc.
Local Open Scope js_scope.

(** [ParagraphData]: a property that is absent is [None]. *)
Record ParagraphData : Type := mkData {
  text : option string;
  tags : option (list string)
}.

Record ParagraphConfig : Type := mkConfig {
  placeholder : option string;
  preserveBlank : option bool
}.

(** What the class uses of the editor's API. *)
Record API : Type := mkAPI {
  styles_block : string;
  i18n_t : string -> string
}.

Record Params : Type := mkParams {
  data : ParagraphData;
  config : ParagraphConfig;
  api : API;
  readOnly : bool
}.

Record Paragraph : Type := mkParagraph {
  this_api : API;
  this_readOnly : bool;
  _CSS_block : string;
  _CSS_wrapper : string;
  onKeyUp_bound : bool;
  _placeholder : string;
  _data : ParagraphData;
  _textElement : handle;
  _containerElement : handle;
  _tagsElement : handle;
  _preserveBlank : bool
}.

(** The state the methods run in. *)
Record World : Type := mkWorld {
  document : Document;
  this : Paragraph
}.

Record KeyboardEvent : Type := mkKey { code : string }.

(** [event.detail.data] is the pasted node. *)
Record PasteEvent : Type := mkPaste { detail_data : node }.

Definition DEFAULT_PLACEHOLDER : string := "".

Definition set__data (d : ParagraphData) (w : World) : World :=
  let p := this w in
  mkWorld (document w)
    (mkParagraph (this_api p) (this_readOnly p) (_CSS_block p) (_CSS_wrapper p)
       (onKeyUp_bound p) (_placeholder p) d (_textElement p)
       (_containerElement p) (_tagsElement p) (_preserveBlank p)).

Definition on_element (h : handle) (f : HTMLElement -> HTMLElement) (w : World)
  : World :=
  mkWorld (update (document w) h f) (this w).

(** The three elements [drawView] returns. *)
Record View : Type := mkView {
  textElement : handle;
  container : handle;
  tagsElement : handle
}.

Definition create (name : string) : M Document handle :=
  fun doc => Ok (createElement name doc).

Definition on_doc (h : handle) (f : HTMLElement -> HTMLElement) : M Document unit :=
  modify (fun doc => update doc h f).

Definition add_classes (h : handle) (ts : list string) : M Document unit :=
  fun doc =>
    match classList_add ts (lookup doc h) with
    | Ok e => Ok (tt, update doc h (fun _ => e))
    | Throw x => Throw x
    end.

(** [drawView()], given the fields of [this] it reads. *)
Definition drawView (a : API) (wrapper block : string) (ro : bool)
    (ph : string) : M Document View :=
  textElement <- create "DIV" ;;
  add_classes textElement [wrapper; block] ;;
  on_doc textElement (set_contentEditable false) ;;
  on_doc textElement (set_placeholder (i18n_t a ph)) ;;
  (if negb ro
   then on_doc textElement (set_contentEditable true) ;;
        on_doc textElement (addEventListener "keyup")
   else ret tt) ;;
  tagsElement <- create "DIV" ;;
  add_classes tagsElement ["ce-tags"] ;;
  container <- create "DIV" ;;
  on_doc container (appendChild textElement) ;;
  on_doc container (appendChild tagsElement) ;;
  ret (mkView textElement container tagsElement).

(** [render()]. *)
Definition render : M World handle := gets (fun w => _containerElement (this w)).

(** The markup of one tag. *)
Definition tag_markup (tag : string) : string :=
  "<span class='ce-tag tag-" ++ tag ++ "'>" ++ tag ++ "</span>".

(** [get data()]. *)
Definition get_data : M World ParagraphData :=
  fun w =>
    let p := this w in
    let t := get_innerHTML (lookup (document w) (_textElement p)) in
    let ts := map innerHTML
                (querySelectorAll "ce-tag"
                   (childNodes (lookup (document w) (_tagsElement p)))) in
    let d := mkData (Some t) (Some ts) in
    Ok (d, set__data d w).

(** [set data(data)]. *)
Definition set_data (d : option ParagraphData) : M World unit :=
  fun w =>
    let d' := match d with Some x => x | None => mkData None None end in
    let w1 := set__data d' w in
    let w2 := on_element (_textElement (this w1))
                (set_innerHTML (or_empty (text d'))) w1 in
    let w3 := on_element (_tagsElement (this w2))
                (set_innerHTML (join (map tag_markup (or_nil (tags d'))))) w2 in
    Ok (tt, w3).

(** [new Paragraph({data, config, api, readOnly})]. *)
Definition constructor (ps : Params) (doc : Document) : result World :=
  let a := api ps in
  let ro := readOnly ps in
  let ph := match placeholder (config ps) with
            | Some EmptyString | None => DEFAULT_PLACEHOLDER
            | Some s => s
            end in
  match drawView a "ce-paragraph" (styles_block a) ro ph doc with
  | Throw x => Throw x
  | Ok (v, doc') =>
      let pb := match preserveBlank (config ps) with
                | Some b => b
                | None => false
                end in
      let p := mkParagraph a ro (styles_block a) "ce-paragraph" (negb ro) ph
                 (mkData None None) (textElement v) (container v)
                 (tagsElement v) pb in
      match set_data (Some (mkData (Some (or_empty (text (data ps))))
                                   (Some (or_nil (tags (data ps))))))
                     (mkWorld doc' p) with
      | Ok (_, w) => Ok w
      | Throw x => Throw x
      end
  end.

(** [onKeyUp(e)]. *)
Definition onKeyUp (e : KeyboardEvent) : M World unit :=
  if negb (String.eqb (code e) "Backspace") && negb (String.eqb (code e) "Delete")
  then ret tt
  else
    fun w =>
      let h := _textElement (this w) in
      if String.eqb (get_textContent (lookup (document w) h)) ""
      then Ok (tt, on_element h (set_innerHTML "") w)
      else Ok (tt, w).

(** [merge(data)].  The record that the getter returns has both its
    fields. *)
Definition merge (d : ParagraphData) : M World unit :=
  cur <- get_data ;;
  t <- the (text cur) ;;
  let newText := plus t (text d) in
  cur' <- get_data ;;
  mine <- the (tags cur') ;;
  theirs <- the (tags d) ;;
  let newData := mkData (Some newText) (Some (new_Set (mine ++ theirs))) in
  set_data (Some newData).

(** [validate(savedData)]. *)
Definition validate (savedData : ParagraphData) : M World bool :=
  t <- the (text savedData) ;;
  pb <- gets (fun w => _preserveBlank (this w)) ;;
  if String.eqb (trim t) "" && negb pb then ret false else ret true.

(** [onPaste(event)]. *)
Definition onPaste (event : PasteEvent) : M World unit :=
  cur <- get_data ;;
  let d := mkData (node_innerHTML (detail_data event))
                  (Some (or_nil (tags cur))) in
  set_data (Some d).

(** [_toggleTag(tag)].  The record [data] is the object [this._data]
    that the getter returns; the setter stores it again.  The message
    that the second branch writes to the console is left out. *)
Definition _toggleTag (tag : string) : M World unit :=
  cur <- get_data ;;
  ts <- the (tags cur) ;;
  if includes ts tag
  then
    d <- get_data ;;
    dts <- the (tags d) ;;
    let dts' := splice1 dts (indexOf dts tag) in
    set_data (Some (mkData (text d) (Some dts')))
  else
    d <- get_data ;;
    dts <- the (tags d) ;;
    set_data (Some (mkData (text d) (Some (push dts tag)))).

(** *** The block driven by its host

    What the host and the user can do to a mounted block: the calls of
    the block's interface, a key released in the text region, and an
    edit of the text region's content by the user. *)

Inductive call : Type :=
| SetData (d : option ParagraphData)
| GetData
| Render
| Merge (d : ParagraphData)
| Validate (d : ParagraphData)
| Paste (e : PasteEvent)
| Toggle (tag : string)
| KeyUp (e : KeyboardEvent)
| Edit (content : list node).

Definition set_childNodes (ns : list node) (e : HTMLElement) : HTMLElement :=
  mkElement (tagName e) (classList e) (contentEditable e) (dataset_placeholder e)
            (listeners e) ns (childElements e).

Definition perform (c : call) : M World unit :=
  match c with
  | SetData d => set_data d
  | GetData => get_data ;; ret tt
  | Render => render ;; ret tt
  | Merge d => merge d
  | Validate d => validate d ;; ret tt
  | Paste e => onPaste e
  | Toggle tag => _toggleTag tag
  | KeyUp e => onKeyUp e
  | Edit ns =>
      modify (fun w => on_element (_textElement (this w)) (set_childNodes ns) w)
  end.

Fixpoint perform_all (cs : list call) : M World unit :=
  match cs with
  | [] => ret tt
  | c :: r => perform c ;; perform_all r
  end.

(** [n] calls of [render()] in a row, with what each returned. *)
Fixpoint render_times (n : nat) : M World (list handle) :=
  match n with
  | O => ret []
  | S n' => h <- render ;; r <- render_times n' ;; ret (h :: r)
  end.

(** *** The rest of the class *)

(** A computation on the document, run in the block's state. *)
Definition in_document {A} (c : M Document A) : M World A :=
  fun w =>
    match c (document w) with
    | Ok (a, doc') => Ok (a, mkWorld doc' (this w))
    | Throw x => Throw x
    end.

Definition toggle_class (h : handle) (t : string) : M Document unit :=
  fun doc =>
    match classList_toggle t (lookup doc h) with
    | Ok e => Ok (tt, update doc h (fun _ => e))
    | Throw x => Throw x
    end.

Definition toggle_class_force (h : handle) (t : string) (force : bool)
  : M Document unit :=
  fun doc =>
    match classList_toggle_force t force (lookup doc h) with
    | Ok e => Ok (tt, update doc h (fun _ => e))
    | Throw x => Throw x
    end.

(** [save(toolsContent)]: reading a member of [null] throws. *)
Definition save (toolsContent : handle) : M World ParagraphData :=
  fun w =>
    let doc := document w in
    match querySelector doc "ce-paragraph" toolsContent with
    | None => Throw TypeError
    | Some p =>
        match querySelector doc "ce-tags" toolsContent with
        | None => Throw TypeError
        | Some t =>
            Ok (mkData (Some (found_innerHTML doc p))
                       (Some (map (found_innerHTML doc)
                                  (found_querySelectorAll doc "ce-tag" t))),
                w)
        end
    end.

(** The names of the [settings] of [renderSettings()]. *)
Definition settings : list string := ["feature"; "persona"; "irrelevant"].

Definition active : string := "cdx-settings-button--active".

(** The click listener of the button of [name]. *)
Definition settings_click (button : handle) (name : string) : M World unit :=
  _toggleTag name ;;
  in_document (toggle_class button active).

(** One turn of [settings.forEach]. *)
Definition settings_button (wrapper : handle) (name : string) : M World unit :=
  button <- in_document (create "div") ;;
  d <- get_data ;;
  ts <- the (tags d) ;;
  in_document (toggle_class_force button active (includes ts name)) ;;
  in_document (on_doc button (set_innerHTML name)) ;;
  in_document (on_doc wrapper (appendChild button)) ;;
  in_document (on_doc button (addEventListener "click")).

Fixpoint forEach {S A} (l : list A) (f : A -> M S unit) : M S unit :=
  match l with
  | [] => ret tt
  | x :: r => f x ;; forEach r f
  end.

(** [renderSettings()]. *)
Definition renderSettings : M World handle :=
  wrapper <- in_document (create "div") ;;
  forEach settings (settings_button wrapper) ;;
  ret wrapper.

(** Clicks on buttons of the settings panel, one after the other. *)
Definition clicks (cs : list (handle * string)) : M World unit :=
  forEach cs (fun c => settings_click (fst c) (snd c)).

End Tool.

(* ================================================================== *)
(** ** The page that hosts the editor *)
(* ================================================================== *)

(** The [onChange] handler of [run] and its [saving] flag.  A call of
    [editor.save()] makes a promise, named by a number; the handler of
    [then] runs when the promise is fulfilled and does not run when it is
    rejected.  The element of the page that shows the output is taken to
    exist. *)

Module Index.

Record Page : Type := mkPage {
  saving : option nat;          (* [null], or the promise of the last save *)
  pending : list nat;           (* the promises not settled yet *)
  saves : nat;                  (* calls of [editor.save()] so far *)
  innerText : option string     (* what the output element shows *)
}.

Inductive event (Output : Type) : Type :=
| Change                              (* the editor calls [onChange] *)
| Fulfilled (p : nat) (output : Output)
| Rejected (p : nat).

Arguments Change {Output}.
Arguments Fulfilled {Output}.
Arguments Rejected {Output}.

Definition start : Page := mkPage None [] 0 None.

Definition is_pending (p : nat) (l : list nat) : bool := existsb (Nat.eqb p) l.

Definition settle (p : nat) (l : list nat) : list nat :=
  filter (fun q => negb (Nat.eqb p q)) l.

(** [onChange]. *)
Definition onChange (s : Page) : Page :=
  match saving s with
  | None => mkPage (Some (saves s)) (pending s ++ [saves s]) (S (saves s)) (innerText s)
  | Some _ => s
  end.

(** One turn of the event loop; [stringify] is [JSON.stringify] with
    its indentation. *)
Definition dispatch {Output} (stringify : Output -> string) (s : Page)
    (e : event Output) : Page :=
  match e with
  | Change => onChange s
  | Fulfilled p output =>
      if is_pending p (pending s)
      then mkPage None (settle p (pending s)) (saves s) (Some (stringify output))
      else s
  | Rejected p =>
      if is_pending p (pending s)
      then mkPage (saving s) (settle p (pending s)) (saves s) (innerText s)
      else s
  end.

Definition run {Output} (stringify : Output -> string) (es : list (event Output))
    (s : Page) : Page :=
  fold_left (dispatch stringify) es s.

End Index.

(* ================================================================== *)
(** ** Vocabulary of the properties *)
(* ================================================================== *)

Module Spec.

Import JS DOM Doc Tool.

(** A character that markup leaves alone: it is parsed as itself in
    character data and serialised as itself. *)
Definition literal (c : ascii) : bool :=
  negb (is_chr c "&") && negb (is_chr c "<") && negb (is_chr c ">")
  && negb (is_chr c "000") && negb (is_chr c "013")
  && negb (charCode c =? 160)%nat.

(** A character of a tag identifier: literal, and not the quote that
    delimits the [class] attribute in [tag_markup]. *)
Definition ident_char (c : ascii) : bool :=
  literal c && negb (is_chr c "'").

Fixpoint all_chars (p : ascii -> bool) (s : string) : bool :=
  match s with
  | EmptyString => true
  | String c r => p c && all_chars p r
  end.

Definition identifier (s : string) : Prop := all_chars ident_char s = true.

(** Text as the sanitizer rule [{ br: true }] leaves it, in the form
    the DOM serialises it: literal characters, the references [&amp;],
    [&lt;], [&gt;] and [&nbsp;], and [<br>] line breaks. *)
Fixpoint sanitized (s : string) : bool :=
  match s with
  | EmptyString => true
  | String c r =>
      if literal c then sanitized r
      else
        match r with
        | String c1 (String c2 (String c3 r3)) =>
            if is_chr c "<" then
              is_chr c1 "b" && is_chr c2 "r" && is_chr c3 ">" && sanitized r3
            else if is_chr c "&" then
              if (is_chr c1 "l" || is_chr c1 "g") && is_chr c2 "t" && is_chr c3 ";"
              then sanitized r3
              else
                match r3 with
                | String c4 r4 =>
                    if is_chr c1 "a" && is_chr c2 "m" && is_chr c3 "p"
                       && is_chr c4 ";"
                    then sanitized r4
                    else
                      match r4 with
                      | String c5 r5 =>
                          is_chr c1 "n" && is_chr c2 "b" && is_chr c3 "s"
                          && is_chr c4 "p" && is_chr c5 ";" && sanitized r5
                      | EmptyString => false
                      end
                | EmptyString => false
                end
            else false
        | _ => false
        end
  end.

(** The pieces of markup in sanitized text. *)
Definition pieces : list string := ["<br>"; "&amp;"; "&lt;"; "&gt;"; "&nbsp;"].

(** The list with only the first occurrence of each string: a string is
    dropped when it occurs among the [earlier] ones. *)
Fixpoint keep_first_after (earlier l : list string) : list string :=
  match l with
  | [] => []
  | x :: r =>
      if includes earlier x then keep_first_after (earlier ++ [x]) r
      else x :: keep_first_after (earlier ++ [x]) r
  end.

Definition keep_first (l : list string) : list string := keep_first_after [] l.

(** The same list by positions: the element at position [i] stays when
    it does not occur at a position before [i]. *)
Definition first_occurrences (l : list string) : list string :=
  map snd
    (filter (fun p => negb (includes (firstn (fst p) l) (snd p)))
            (combine (seq 0 (length l)) l)).

(** The strings of [l] that do not occur in [mine]. *)
Definition novel (mine l : list string) : list string :=
  filter (fun x => negb (includes mine x)) l.

(** The list without the first occurrence of [x]. *)
Fixpoint remove_first (x : string) (l : list string) : list string :=
  match l with
  | [] => []
  | y :: r => if String.eqb y x then r else y :: remove_first x r
  end.

(** The tags after a toggle. *)
Definition toggled (ts : list string) (t : string) : list string :=
  if includes ts t then remove_first t ts else ts ++ [t].

(** The children of a node that holds the text [s]. *)
Definition text_nodes (s : string) : list node :=
  match s with
  | EmptyString => []
  | _ => [Text s]
  end.

(** The element of the tag strip that shows the identifier [t]. *)
Definition tag_node (t : string) : node :=
  Element "span" [("class", ("ce-tag tag-" ++ t)%string)] (text_nodes t).

(** The same element, as a selector returns it. *)
Definition tag_element (t : string) : element :=
  mkEl "span" [("class", ("ce-tag tag-" ++ t)%string)] (text_nodes t).

(** The tokens of one tag's markup. *)
Definition tag_tokens (t : string) : list token :=
  TStartTag "span" [("class", ("ce-tag tag-" ++ t)%string)] false
  :: chars t ++ [TEndTag "span"].

(** No carriage return, nothing to normalise. *)
Definition no_cr (c : ascii) : bool := negb (is_chr c "013").

Definition text_of (w : World) : HTMLElement :=
  lookup (document w) (_textElement (this w)).

Definition strip_of (w : World) : HTMLElement :=
  lookup (document w) (_tagsElement (this w)).

(** The state the setter leaves. *)
Definition written (w : World) (d : ParagraphData) : World :=
  on_element (_tagsElement (this w))
    (set_innerHTML (join (map tag_markup (or_nil (tags d)))))
    (on_element (_textElement (this w))
       (set_innerHTML (or_empty (text d)))
       (set__data d w)).

(** The block's references are to two distinct [DIV]s of the document. *)
Definition mounted (w : World) : Prop :=
  _textElement (this w) < length (document w)
  /\ _tagsElement (this w) < length (document w)
  /\ _textElement (this w) <> _tagsElement (this w)
  /\ tagName (text_of w) = "DIV".

(** The tag strip shows the identifiers [ts], one element each. *)
Definition shows (w : World) (ts : list string) : Prop :=
  childNodes (strip_of w) = map tag_node ts.

(** What [this.data] reads. *)
Definition read_text (w : World) : string := get_innerHTML (text_of w).

Definition read_tags (w : World) : list string :=
  map innerHTML (querySelectorAll "ce-tag" (childNodes (strip_of w))).

(** A class token that [classList.add] accepts. *)
Definition valid_token (s : string) : bool :=
  negb (String.eqb s "") && negb (has_whitespace s).

(** The elements [drawView] makes in a document of [n] elements. *)
Definition text_div (a : API) (wrapper block : string) (ro : bool) (ph : string)
  : HTMLElement :=
  mkElement "DIV" (fold_left Set_add [wrapper; block] []) (Some (negb ro))
            (Some (i18n_t a ph)) (if ro then [] else ["keyup"]) [] [].

Definition tags_div : HTMLElement :=
  mkElement "DIV" ["ce-tags"] None None [] [] [].

Definition container_div (n : nat) : HTMLElement :=
  mkElement "DIV" [] None None [] [] [n; n + 1].

(** The documented defaults. *)
Definition text_or_default (v : option string) : string :=
  match v with Some s => s | None => "" end.

Definition tags_or_default (v : option (list string)) : list string :=
  match v with Some l => l | None => [] end.

Definition flag_or_default (v : option bool) : bool :=
  match v with Some b => b | None => false end.

Definition record_or_default (v : option ParagraphData) : ParagraphData :=
  match v with Some d => d | None => mkData None None end.

(** The block before its constructor writes the saved data, and the
    record it writes. *)
Definition fresh (ps : Params) (doc : Document) : World :=
  let a := api ps in
  let ph := or_empty (placeholder (config ps)) in
  mkWorld
    (doc ++ [text_div a "ce-paragraph" (styles_block a) (readOnly ps) ph;
             tags_div; container_div (length doc)])
    (mkParagraph a (readOnly ps) (styles_block a) "ce-paragraph"
       (negb (readOnly ps)) ph (mkData None None)
       (length doc) (length doc + 2) (length doc + 1)
       (match preserveBlank (config ps) with Some b => b | None => false end)).

Definition saved (ps : Params) : ParagraphData :=
  mkData (Some (or_empty (text (data ps)))) (Some (or_nil (tags (data ps)))).

(** Two states of one block: the same references, and the same elements
    except for the content of the text region and of the tag strip. *)
Definition same_block (w w' : World) : Prop :=
  _textElement (this w') = _textElement (this w)
  /\ _tagsElement (this w') = _tagsElement (this w)
  /\ _containerElement (this w') = _containerElement (this w)
  /\ _preserveBlank (this w') = _preserveBlank (this w)
  /\ length (document w') = length (document w)
  /\ tagName (text_of w') = tagName (text_of w)
  /\ (forall h, h <> _textElement (this w) -> h <> _tagsElement (this w) ->
      lookup (document w') h = lookup (document w) h).

(** The tag strip shows identifiers, each once. *)
Definition tidy (w : World) : Prop :=
  mounted w
  /\ exists ts, shows w ts /\ NoDup ts /\ Forall identifier ts.

(** Calls whose tags are identifiers and, for the setter, come without
    duplicates. *)
Definition admissible (c : call) : Prop :=
  match c with
  | SetData (Some d) =>
      NoDup (or_nil (tags d)) /\ Forall identifier (or_nil (tags d))
  | Merge d => Forall identifier (or_nil (tags d))
  | Toggle t => identifier t
  | _ => True
  end.

(** The states of a block that was made from tags without duplicates
    and has served admissible calls since. *)
Inductive reachable : World -> Prop :=
| reach_new (ps : Params) (doc : Document) (w : World) :
    NoDup (or_nil (tags (data ps))) ->
    Forall identifier (or_nil (tags (data ps))) ->
    constructor ps doc = Ok w ->
    reachable w
| reach_call (w : World) (c : call) (w' : World) :
    reachable w -> admissible c -> perform c w = Ok (tt, w') ->
    reachable w'.

(** The host's services used in the examples. *)
Definition host : API := mkAPI "cdx-block" (fun s => s).

(** A block made from saved data in an empty document. *)
Definition block (text : string) (tags : list string) : result World :=
  constructor (mkParams (mkData (Some text) (Some tags)) (mkConfig None None) host false) [].

(** A state without a block, for a construction that threw. *)
Definition unmounted : World :=
  mkWorld [] (mkParagraph host false "" "" false "" (mkData None None) 0 0 0 false).

Definition world_of (r : result World) : World :=
  match r with
  | Ok w => w
  | Throw _ => unmounted
  end.

(** The state after a computation, when it does not throw. *)
Definition after {A} (c : M World A) (r : result World) : result World :=
  match r with
  | Ok w => match c w with Ok (_, w') => Ok w' | Throw e => Throw e end
  | Throw e => Throw e
  end.

(** What [this.data] reads in a state. *)
Definition observe (r : result World) : result (string * list string) :=
  match r with
  | Ok w => Ok (read_text w, read_tags w)
  | Throw e => Throw e
  end.

(** A block with the text [A] and the tag [y]. *)
Definition sample : World := Eval vm_compute in world_of (block "A" ["y"]).

(** The sample block after a toggle of [x], and after a merge that
    follows. *)
Definition sample_toggled : World :=
  Eval vm_compute in world_of (after (perform (Toggle "x")) (Ok sample)).

Definition sample_merged : World :=
  Eval vm_compute in
    world_of (after (perform (Merge (mkData (Some "B") (Some ["x"; "z"; "z"]))))
                    (Ok sample_toggled)).

End Spec.

(* ================================================================== *)
(** ** Vocabulary of the further properties *)
(* ================================================================== *)

Module Cover.

Import JS DOM Doc Tool Spec.

(** A character that the parser keeps: not U+0000, not CR. *)
Definition kept (c : ascii) : bool :=
  negb (is_chr c "000") && negb (is_chr c "013").

(** Content of text and line breaks: a text node or a [br] element. *)
Definition flat (n : node) : bool :=
  match n with
  | Text d => all_chars kept d
  | Element name [] [] => String.eqb name "br"
  | _ => false
  end.

(** The attributes of an element, its children apart. *)
Definition same_attributes (e e' : HTMLElement) : Prop :=
  tagName e' = tagName e
  /\ classList e' = classList e
  /\ contentEditable e' = contentEditable e
  /\ dataset_placeholder e' = dataset_placeholder e
  /\ listeners e' = listeners e.

(** A change of an element that keeps its attributes and appends no
    element to it. *)
Definition content_only (f : HTMLElement -> HTMLElement) : Prop :=
  forall e, same_attributes e (f e)
            /\ (childElements e = [] -> childElements (f e) = []).

Definition container_of (w : World) : HTMLElement :=
  lookup (document w) (_containerElement (this w)).

(** The view as [drawView] assembles it: the wrapper holds the text
    region and the tag strip, which carry their classes. *)
Definition assembled (w : World) : Prop :=
  mounted w
  /\ _containerElement (this w) < length (document w)
  /\ _containerElement (this w) <> _textElement (this w)
  /\ _containerElement (this w) <> _tagsElement (this w)
  /\ childNodes (container_of w) = []
  /\ childElements (container_of w)
     = [_textElement (this w); _tagsElement (this w)]
  /\ includes (classList (text_of w)) "ce-paragraph" = true
  /\ includes (classList (strip_of w)) "ce-tags" = true
  /\ childElements (text_of w) = []
  /\ childElements (strip_of w) = [].

(** Two states of one block whose view has kept its attributes: [this]
    differs in the cache [_data] at most, and the text region and the tag
    strip have the attributes they had and no appended element. *)
Definition kept_view (w w' : World) : Prop :=
  (exists d, this w' = this (set__data d w))
  /\ same_attributes (text_of w) (text_of w')
  /\ same_attributes (strip_of w) (strip_of w')
  /\ (childElements (text_of w) = [] -> childElements (text_of w') = [])
  /\ (childElements (strip_of w) = [] -> childElements (strip_of w') = []).

(** A read-only block with a placeholder, and the calls it serves in
    the examples. *)
Definition reader : Params :=
  mkParams (mkData (Some "A") (Some ["y"])) (mkConfig (Some "Write") None) host true.

Definition sample_reader : World := Eval vm_compute in world_of (constructor reader []).

Definition calls : list call :=
  [Toggle "x"; Merge (mkData (Some "B") (Some ["z"])); KeyUp (mkKey "Delete");
   Edit [Text "C"]].

Definition sample_reader_later : World :=
  Eval vm_compute in world_of (after (perform_all calls) (Ok sample_reader)).

(** The elements [renderSettings] makes in a document of [n] elements:
    the wrapper, and the button of a setting, active or not. *)
Definition panel_div (n : nat) : HTMLElement :=
  mkElement "div" [] None None [] [] [n + 1; n + 2; n + 3].

Definition button_div (name : string) (on : bool) : HTMLElement :=
  mkElement "div" (if on then [active] else []) None None ["click"]
            (parseFragment name) [].

(** What the getter leaves in [_data]. *)
Definition shown (w : World) : ParagraphData :=
  mkData (Some (read_text w)) (Some (read_tags w)).

(** The button [b] of the setting [name] is highlighted exactly when
    the block has the tag. *)
Definition in_sync (w : World) (b : handle) (name : string) : Prop :=
  includes (classList (lookup (document w) b)) active = includes (read_tags w) name.

(** Several [appendChild] in a row. *)
Definition appendChildren (cs : list handle) (e : HTMLElement) : HTMLElement :=
  fold_left (fun x c => appendChild c x) cs e.

(** The buttons of the panel that [renderSettings] makes in a document
    of [n] elements, each with its setting. *)
Definition panel_buttons_of (n : nat) : list (handle * string) :=
  combine (seq (n + 1) (length settings)) settings.

(** An element of the document that is not one of the block's two. *)
Definition outside (w : World) (b : handle) : Prop :=
  b < length (document w)
  /\ b <> _textElement (this w) /\ b <> _tagsElement (this w).

(** Every button of a panel is outside the block's elements and is
    highlighted exactly when the block has its tag. *)
Definition panel_in_sync (w : World) (bs : list (handle * string)) : Prop :=
  Forall (fun c => outside w (fst c) /\ in_sync w (fst c) (snd c)) bs.

(** A block saved with the tag [feature] twice, and its settings
    panel. *)
Definition sample_doubled : World :=
  Eval vm_compute in
    world_of (after renderSettings (block "A" ["feature"; "feature"])).

(** A block whose text holds an element of class [ce-tags]. *)
Definition sample_nested : World :=
  Eval vm_compute in
    world_of (block "<b class='ce-tags'><i class='ce-tag'>z</i></b>" ["y"]).

(** *** The page *)

(** The fulfilments among the events. *)
Definition is_fulfilled {Output : Type} (e : Index.event Output) : bool :=
  match e with
  | Index.Fulfilled _ _ => true
  | _ => false
  end.

Definition fulfilled {Output : Type} (es : list (Index.event Output)) : nat :=
  length (filter is_fulfilled es).

(** What holds of the page after events with [c] fulfilments: with the
    flag down no save is pending; with the flag up the save it names is
    the only one that can be pending. *)
Definition page_inv (s : Index.Page) (c : nat) : Prop :=
  match Index.saving s with
  | None => Index.pending s = [] /\ Index.saves s <= c
  | Some p =>
      (Index.pending s = [] \/ Index.pending s = [p]) /\ Index.saves s <= S c
  end.

End Cover.

(* ================================================================== *)
(** ** Facts about strings, arrays and sets *)
(* ================================================================== *)

Import JS DOM Doc Tool Spec.

Section Strings.

Lemma append_nil_r (s : string) : (s ++ "")%string = s.
Proof. induction s as [|c s IH]; simpl; [reflexivity | now rewrite IH]. Qed.

Lemma append_assoc (a b c : string) :
  ((a ++ b) ++ c)%string = (a ++ (b ++ c))%string.
Proof. induction a as [|x a IH]; simpl; [reflexivity | now rewrite IH]. Qed.

Lemma snoc_append (s : string) (c : ascii) (r : string) :
  (snoc s c ++ r)%string = (s ++ String c r)%string.
Proof. induction s as [|x s IH]; simpl; [reflexivity | now rewrite IH]. Qed.

Lemma snoc_is_append (s : string) (c : ascii) :
  snoc s c = (s ++ String c "")%string.
Proof. induction s as [|x s IH]; simpl; [reflexivity | now rewrite IH]. Qed.

Lemma join_app (l1 l2 : list string) :
  join (l1 ++ l2) = (join l1 ++ join l2)%string.
Proof.
  induction l1 as [|s l1 IH]; simpl; [reflexivity|].
  now rewrite IH, append_assoc.
Qed.

(** Trimming leaves nothing exactly when every character is white
    space. *)
Lemma trimEnd_empty (s : string) :
  trimEnd s = "" <-> all_chars isWhiteSpace s = true.
Proof.
  induction s as [|c s IH]; simpl; [tauto|].
  destruct (trimEnd s) eqn:E.
  - destruct (isWhiteSpace c); simpl.
    + split; intros _; [now apply IH | reflexivity].
    + split; intros H; discriminate H.
  - split; intros H; [discriminate H|].
    apply andb_true_iff in H as [_ H]. apply IH in H. discriminate H.
Qed.

Lemma trimStart_white (s : string) :
  all_chars isWhiteSpace (trimStart s) = all_chars isWhiteSpace s.
Proof.
  induction s as [|c s IH]; simpl; [reflexivity|].
  destruct (isWhiteSpace c) eqn:E; simpl; [exact IH | now rewrite E].
Qed.

Lemma trim_empty (s : string) :
  trim s = "" <-> all_chars isWhiteSpace s = true.
Proof. unfold trim. now rewrite trimEnd_empty, trimStart_white. Qed.

End Strings.

Section Arrays.

Lemma includes_In (l : list string) (x : string) :
  includes l x = true <-> In x l.
Proof.
  induction l as [|y l IH]; simpl; [split; [discriminate | tauto]|].
  destruct (String.eqb y x) eqn:E.
  - apply String.eqb_eq in E. tauto.
  - apply String.eqb_neq in E. rewrite IH. split; [tauto|].
    intros [H|H]; [contradiction | exact H].
Qed.

Lemma includes_false (l : list string) (x : string) :
  includes l x = false <-> ~ In x l.
Proof.
  rewrite <- includes_In. destruct (includes l x); split; congruence.
Qed.

Lemma includes_app (l1 l2 : list string) (x : string) :
  includes (l1 ++ l2) x = includes l1 x || includes l2 x.
Proof.
  induction l1 as [|y l1 IH]; simpl; [reflexivity|].
  destruct (String.eqb y x); [reflexivity | exact IH].
Qed.

(** [new Set] against the list of first occurrences. *)
Lemma fold_Set_add (l acc earlier : list string) :
  (forall x, includes acc x = includes earlier x) ->
  fold_left Set_add l acc = acc ++ keep_first_after earlier l.
Proof.
  revert acc earlier.
  induction l as [|x l IH]; intros acc earlier Hm; simpl.
  - now rewrite app_nil_r.
  - unfold Set_add at 2. rewrite <- (Hm x).
    destruct (includes acc x) eqn:E.
    + apply IH. intros y. rewrite includes_app, <- Hm. simpl.
      destruct (String.eqb x y) eqn:Exy.
      * apply String.eqb_eq in Exy. subst y. rewrite E. reflexivity.
      * now rewrite orb_false_r.
    + rewrite (IH (acc ++ [x]) (earlier ++ [x])).
      * now rewrite <- app_assoc.
      * intros y. now rewrite !includes_app, Hm.
Qed.

Lemma new_Set_keep_first (l : list string) : new_Set l = keep_first l.
Proof. unfold new_Set, keep_first. now rewrite (fold_Set_add l [] []). Qed.

Lemma keep_first_after_In (l earlier : list string) (x : string) :
  In x (keep_first_after earlier l) <-> In x l /\ ~ In x earlier.
Proof.
  revert earlier.
  induction l as [|y l IH]; intros earlier; simpl; [tauto|].
  destruct (includes earlier y) eqn:E.
  - apply includes_In in E. rewrite IH, in_app_iff. simpl.
    split.
    + intros [H1 H2]. split; [now right | tauto].
    + intros [[H1|H1] H2]; [subst; contradiction|].
      split; [exact H1|]. intros [H|[H|[]]]; [tauto | subst; tauto].
  - apply includes_false in E. simpl. rewrite IH, in_app_iff. simpl.
    destruct (string_dec y x) as [->|N].
    + tauto.
    + split.
      * intros [H|[H1 H2]]; [contradiction | tauto].
      * intros [[H|H] H2]; [contradiction|]. right. tauto.
Qed.

Lemma keep_first_after_NoDup (l earlier : list string) :
  NoDup (keep_first_after earlier l).
Proof.
  revert earlier.
  induction l as [|y l IH]; intros earlier; simpl; [constructor|].
  destruct (includes earlier y); [apply IH|].
  constructor; [|apply IH].
  rewrite keep_first_after_In, in_app_iff. simpl. tauto.
Qed.

Lemma keep_first_NoDup (l : list string) : NoDup (keep_first l).
Proof. apply keep_first_after_NoDup. Qed.

Lemma keep_first_In (l : list string) (x : string) :
  In x (keep_first l) <-> In x l.
Proof. unfold keep_first. rewrite keep_first_after_In. simpl. tauto. Qed.

(** Only the members of [earlier] matter. *)
Lemma keep_first_after_ext (l e1 e2 : list string) :
  (forall x, includes e1 x = includes e2 x) ->
  keep_first_after e1 l = keep_first_after e2 l.
Proof.
  revert e1 e2.
  induction l as [|y l IH]; intros e1 e2 H; simpl; [reflexivity|].
  rewrite (H y).
  rewrite (IH (e1 ++ [y]) (e2 ++ [y])); [reflexivity|].
  intros x. now rewrite !includes_app, H.
Qed.

Lemma keep_first_after_app (l1 l2 earlier : list string) :
  keep_first_after earlier (l1 ++ l2)
  = keep_first_after earlier l1 ++ keep_first_after (earlier ++ l1) l2.
Proof.
  revert earlier.
  induction l1 as [|y l1 IH]; intros earlier; simpl.
  - now rewrite app_nil_r.
  - rewrite IH, <- app_assoc. simpl.
    destruct (includes earlier y); reflexivity.
Qed.

(** A list that has no duplicates is its own list of first
    occurrences. *)
Lemma keep_first_after_id (l earlier : list string) :
  NoDup l -> (forall x, In x l -> ~ In x earlier) ->
  keep_first_after earlier l = l.
Proof.
  revert earlier.
  induction l as [|y l IH]; intros earlier Hnd Hd; simpl; [reflexivity|].
  inversion Hnd as [|? ? Hy Hl]; subst.
  assert (E : includes earlier y = false)
    by (apply includes_false, Hd; now left).
  rewrite E. f_equal. apply IH; [exact Hl|].
  intros x Hx. rewrite in_app_iff. simpl.
  intros [H|[H|[]]]; [apply (Hd x); [now right | exact H] | subst; contradiction].
Qed.

Lemma keep_first_id (l : list string) : NoDup l -> keep_first l = l.
Proof. intros H. apply keep_first_after_id; [exact H | intros x _ []]. Qed.

(** The first occurrences after [mine] are the first occurrences of the
    strings that [mine] does not have. *)
Lemma keep_first_after_novel (l mine seen earlier : list string) :
  (forall x, includes earlier x = includes mine x || includes seen x) ->
  keep_first_after earlier l = keep_first_after seen (novel mine l).
Proof.
  revert seen earlier.
  induction l as [|y l IH]; intros seen earlier H; simpl; [reflexivity|].
  rewrite (H y).
  destruct (includes mine y) eqn:E; simpl.
  - apply IH. intros x. rewrite includes_app, H. simpl.
    destruct (String.eqb y x) eqn:Eyx.
    + apply String.eqb_eq in Eyx. subst x. now rewrite E.
    + now rewrite orb_false_r.
  - rewrite (IH (seen ++ [y]) (earlier ++ [y])).
    + reflexivity.
    + intros x. rewrite !includes_app, H. now rewrite orb_assoc.
Qed.

Lemma keep_first_after_positions (l earlier : list string) (k : nat) :
  keep_first_after earlier l
  = map snd
      (filter (fun p => negb (includes (earlier ++ firstn (fst p - k) l) (snd p)))
              (combine (seq k (length l)) l)).
Proof.
  revert earlier k.
  induction l as [|x r IH]; intros earlier k; [reflexivity|].
  cbn [length seq combine filter fst snd keep_first_after].
  rewrite Nat.sub_diag. cbn [firstn]. rewrite app_nil_r.
  rewrite (IH (earlier ++ [x]) (S k)).
  assert (E : filter
                (fun p => negb (includes ((earlier ++ [x]) ++ firstn (fst p - S k) r)
                                         (snd p)))
                (combine (seq (S k) (length r)) r)
              = filter
                  (fun p => negb (includes (earlier ++ firstn (fst p - k) (x :: r))
                                           (snd p)))
                  (combine (seq (S k) (length r)) r)).
  { apply filter_ext_in. intros [i y] Hin. cbn [fst snd].
    apply in_combine_l, in_seq in Hin.
    replace (i - k) with (S (i - S k)) by lia.
    cbn [firstn]. now rewrite <- app_assoc. }
  rewrite E. destruct (includes earlier x); reflexivity.
Qed.

(** The recursive and the positional description agree. *)
Lemma keep_first_first_occurrences (l : list string) :
  keep_first l = first_occurrences l.
Proof.
  unfold keep_first, first_occurrences.
  rewrite (keep_first_after_positions l [] 0).
  f_equal. apply filter_ext. intros p. now rewrite Nat.sub_0_r.
Qed.

(** The merged tags: mine, then the novel ones of the other list. *)
Lemma keep_first_union (mine theirs : list string) :
  keep_first (mine ++ theirs)
  = keep_first mine ++ keep_first (novel mine theirs).
Proof.
  unfold keep_first. rewrite keep_first_after_app. f_equal.
  apply keep_first_after_novel. intros x. simpl. now rewrite orb_false_r.
Qed.

(** [indexOf] finds the first occurrence, which [splice] removes. *)
Lemma indexOf_from_spec (l : list string) (x : string) (i : Z) :
  includes l x = true ->
  exists n, indexOf_from i l x = (i + Z.of_nat n)%Z
            /\ n < length l
            /\ remove_at n l = remove_first x l.
Proof.
  revert i.
  induction l as [|y l IH]; intros i H; simpl in *; [discriminate|].
  destruct (String.eqb y x) eqn:E.
  - exists 0. repeat split; [lia | lia].
  - destruct (IH (i + 1)%Z H) as (n & Hn & Hlt & Hr).
    exists (S n). repeat split; [lia | lia | simpl; now rewrite Hr].
Qed.

Lemma splice1_indexOf (l : list string) (x : string) :
  includes l x = true ->
  splice1 l (indexOf l x) = remove_first x l.
Proof.
  intros H. unfold indexOf, splice1.
  destruct (indexOf_from_spec l x 0 H) as (n & Hn & Hlt & Hr).
  rewrite Hn.
  replace (0 + Z.of_nat n <? 0)%Z with false by (symmetry; apply Z.ltb_ge; lia).
  rewrite Z.min_l by lia.
  replace (Z.to_nat (0 + Z.of_nat n)) with n by lia.
  exact Hr.
Qed.

Lemma remove_first_In (l : list string) (x y : string) :
  In y (remove_first x l) -> In y l.
Proof.
  induction l as [|z l IH]; simpl; [tauto|].
  destruct (String.eqb z x); simpl; tauto.
Qed.

Lemma remove_first_other (l : list string) (x y : string) :
  y <> x -> In y l -> In y (remove_first x l).
Proof.
  intros N. induction l as [|z l IH]; simpl; [tauto|].
  destruct (String.eqb z x) eqn:E.
  - apply String.eqb_eq in E. subst z. intros [H|H]; [congruence | exact H].
  - simpl. tauto.
Qed.

Lemma remove_first_NoDup (l : list string) (x : string) :
  NoDup l -> NoDup (remove_first x l) /\ ~ In x (remove_first x l).
Proof.
  induction l as [|z l IH]; intros H; simpl; [split; [constructor | tauto]|].
  inversion H as [|? ? Hz Hl]; subst.
  destruct (String.eqb z x) eqn:E.
  - apply String.eqb_eq in E. subst z. tauto.
  - apply String.eqb_neq in E. destruct (IH Hl) as [H1 H2]. split.
    + constructor; [|exact H1]. intros Hin. apply Hz.
      eapply remove_first_In; eassumption.
    + simpl. intros [H3|H3]; [contradiction | tauto].
Qed.

Lemma NoDup_push (l : list string) (x : string) :
  NoDup l -> ~ In x l -> NoDup (push l x).
Proof.
  intros Hl Hx. unfold push.
  induction l as [|y l IH]; simpl.
  - constructor; [tauto | constructor].
  - inversion Hl as [|? ? Hy Hl']; subst.
    constructor.
    + rewrite in_app_iff. simpl. intros [H|[H|[]]]; [tauto|].
      subst. apply Hx. now left.
    + apply IH; [exact Hl'|]. intros H. apply Hx. now right.
Qed.

End Arrays.

(* ================================================================== *)
(** ** Facts about markup *)
(* ================================================================== *)

(** Splits a conjunction of boolean tests into its tests. *)
Ltac split_tests H :=
  repeat match type of H with
         | (_ && _) = true =>
             let H1 := fresh H in
             apply andb_true_iff in H; destruct H as [H H1];
             try (apply negb_true_iff in H1)
         | negb _ = true => apply negb_true_iff in H
         end.

(** Turns the character tests that hold into equations and uses them. *)
Ltac decide_tests :=
  repeat match goal with
         | H : (_ && _) = true |- _ => apply andb_true_iff in H; destruct H
         | H : is_chr _ _ = true |- _ => apply Ascii.eqb_eq in H; subst
         end.

Section Tokenizer.

Lemma run_cons (st : tstate) (c : ascii) (s : string) :
  run st (String c s) = (let (o, st') := step st c in o ++ run st' s).
Proof. reflexivity. Qed.

Lemma literal_tests (c : ascii) :
  literal c = true ->
  is_chr c "&" = false /\ is_chr c "<" = false /\ is_chr c ">" = false
  /\ is_chr c "000" = false /\ is_chr c "013" = false
  /\ (charCode c =? 160)%nat = false.
Proof. unfold literal. intros H. split_tests H. tauto. Qed.

Lemma ident_char_tests (c : ascii) :
  ident_char c = true -> literal c = true /\ is_chr c "'" = false.
Proof. unfold ident_char. intros H. split_tests H. tauto. Qed.

Lemma all_chars_app (p : ascii -> bool) (a b : string) :
  all_chars p (a ++ b) = all_chars p a && all_chars p b.
Proof.
  induction a as [|c a IH]; simpl; [reflexivity|].
  now rewrite IH, andb_assoc.
Qed.

Lemma all_chars_weaken (p q : ascii -> bool) (s : string) :
  (forall c, p c = true -> q c = true) ->
  all_chars p s = true -> all_chars q s = true.
Proof.
  intros Hpq. induction s as [|c s IH]; simpl; [reflexivity|].
  intros H. apply andb_true_iff in H as [H1 H2].
  now rewrite (Hpq c H1), IH.
Qed.

Lemma identifier_literal (t : string) :
  identifier t -> all_chars literal t = true.
Proof.
  apply all_chars_weaken. intros c H. now apply ident_char_tests in H.
Qed.

(** Literal characters in character data are character tokens. *)
Lemma run_data_literal (t rest : string) :
  all_chars literal t = true ->
  run Data (t ++ rest) = chars t ++ run Data rest.
Proof.
  induction t as [|c t IH]; simpl; [reflexivity|].
  intros H. apply andb_true_iff in H as [Hc Ht].
  apply literal_tests in Hc as (H1 & H2 & _).
  unfold data_step. rewrite H1, H2. simpl. now rewrite IH.
Qed.

(** Identifier characters in a single-quoted attribute value extend
    the value. *)
Lemma run_attr_ident (tg : tag) (an av t rest : string) :
  identifier t ->
  run (AttrValue SQ tg an av) (t ++ rest)
  = run (AttrValue SQ tg an (av ++ t)) rest.
Proof.
  unfold identifier. revert av.
  induction t as [|c t IH]; intros av; simpl.
  - now rewrite append_nil_r.
  - intros H. apply andb_true_iff in H as [Hc Ht].
    apply ident_char_tests in Hc as (Hl & Hq).
    apply literal_tests in Hl as (H1 & _).
    unfold attr_value_step. rewrite H1, Hq. simpl.
    rewrite (IH _ Ht). now rewrite snoc_append.
Qed.

Lemma run_tag_markup (t rest : string) :
  identifier t ->
  run Data (tag_markup t ++ rest) = tag_tokens t ++ run Data rest.
Proof.
  intros Ht. unfold tag_markup, tag_tokens.
  rewrite !append_assoc.
  change (run Data ("<span class='ce-tag tag-" ++ t ++ "'>" ++ t ++ "</span>" ++ rest))
    with (run (AttrValue SQ (mkTag false "span" [] false) "class" "ce-tag tag-")
              (t ++ "'>" ++ t ++ "</span>" ++ rest)).
  rewrite (run_attr_ident _ _ _ _ _ Ht).
  change (run (AttrValue SQ (mkTag false "span" [] false) "class" ("ce-tag tag-" ++ t))
              ("'>" ++ t ++ "</span>" ++ rest))
    with (TStartTag "span" [("class", ("ce-tag tag-" ++ t)%string)] false
          :: run Data (t ++ "</span>" ++ rest)).
  rewrite (run_data_literal _ _ (identifier_literal _ Ht)).
  change (run Data ("</span>" ++ rest)) with (TEndTag "span" :: run Data rest).
  simpl. now rewrite <- app_assoc.
Qed.

End Tokenizer.

Section TreeConstruction.

(** Characters inserted after a text node extend it. *)
Lemma insert_chars_text (t d : string) (f : frame) (st : list frame)
    (root : list node) :
  all_chars literal t = true ->
  f_children f = [Text d] ->
  fold_left process (chars t) (f :: st, root)
  = (mkFrame (f_name f) (f_attrs f) [Text (d ++ t)] :: st, root).
Proof.
  revert d f.
  induction t as [|c t IH]; intros d f Ht Hf; simpl.
  - rewrite append_nil_r, <- Hf. now destruct f.
  - apply andb_true_iff in Ht as [Hc Ht].
    apply literal_tests in Hc as (_ & _ & _ & H0 & _).
    unfold insert_char. rewrite H0, Hf. simpl.
    rewrite (IH (snoc d c)
               (mkFrame (f_name f) (f_attrs f) [Text (snoc d c)]) Ht eq_refl).
    simpl. now rewrite snoc_append.
Qed.

Lemma insert_chars_empty (t : string) (f : frame) (st : list frame)
    (root : list node) :
  all_chars literal t = true ->
  f_children f = [] ->
  fold_left process (chars t) (f :: st, root)
  = (mkFrame (f_name f) (f_attrs f) (text_nodes t) :: st, root).
Proof.
  destruct t as [|c t]; intros Ht Hf; simpl.
  - rewrite <- Hf. now destruct f.
  - apply andb_true_iff in Ht as [Hc Ht].
    apply literal_tests in Hc as (_ & _ & _ & H0 & _).
    unfold insert_char. rewrite H0, Hf. simpl.
    now rewrite (insert_chars_text t (String c "")
                   (mkFrame (f_name f) (f_attrs f) [Text (String c "")])
                   _ _ Ht eq_refl).
Qed.

(** The tokens of a tag's markup add the tag's element. *)
Lemma process_tag_tokens (t : string) (more : list token) (root : list node) :
  identifier t ->
  fold_left process (tag_tokens t ++ more) ([], root)
  = fold_left process more ([], root ++ [tag_node t]).
Proof.
  intros Ht. unfold tag_tokens, tag_node.
  set (a := [("class", ("ce-tag tag-" ++ t)%string)]).
  rewrite <- app_comm_cons, <- app_assoc.
  cbn [fold_left process]. rewrite fold_left_app.
  change (start_tag "span" a ([], root)) with ([mkFrame "span" a []], root).
  rewrite (insert_chars_empty t (mkFrame "span" a []) [] root
             (identifier_literal _ Ht) eq_refl).
  cbn [app fold_left process f_name f_attrs]. unfold end_tag.
  cbn [fst snd String.eqb Ascii.eqb Bool.eqb is_open map f_name includes].
  cbn [close_until f_name f_attrs f_children String.eqb Ascii.eqb Bool.eqb attach].
  now rewrite app_nil_r.
Qed.

(** The markup of the tag strip, token by token. *)
Lemma run_strip (ts : list string) :
  Forall identifier ts ->
  run Data (join (map tag_markup ts)) = flat_map tag_tokens ts.
Proof.
  induction 1 as [|t ts Ht _ IH]; [reflexivity|].
  cbn [map join flat_map].
  now rewrite (run_tag_markup _ _ Ht), IH.
Qed.

Lemma process_strip (ts : list string) (root : list node) :
  Forall identifier ts ->
  fold_left process (flat_map tag_tokens ts) ([], root)
  = ([], root ++ map tag_node ts).
Proof.
  intros H. revert root.
  induction H as [|t ts Ht _ IH]; intros root; cbn [flat_map map].
  - now rewrite app_nil_r.
  - rewrite (process_tag_tokens _ _ _ Ht), IH, <- app_assoc. reflexivity.
Qed.

Lemma normalizeNewlines_id (s : string) :
  all_chars no_cr s = true -> normalizeNewlines s = s.
Proof.
  induction s as [|c s IH]; simpl; [reflexivity|].
  unfold no_cr at 1. intros H. apply andb_true_iff in H as [Hc Hs].
  apply negb_true_iff in Hc. rewrite Hc. now rewrite IH.
Qed.

Lemma literal_no_cr (s : string) :
  all_chars literal s = true -> all_chars no_cr s = true.
Proof.
  apply all_chars_weaken. intros c H.
  apply literal_tests in H as (_ & _ & _ & _ & H & _).
  unfold no_cr. now rewrite H.
Qed.

Lemma tag_markup_no_cr (t : string) :
  identifier t -> all_chars no_cr (tag_markup t) = true.
Proof.
  intros H. apply identifier_literal, literal_no_cr in H.
  unfold tag_markup. rewrite !all_chars_app, H. reflexivity.
Qed.

Lemma strip_no_cr (ts : list string) :
  Forall identifier ts -> all_chars no_cr (join (map tag_markup ts)) = true.
Proof.
  induction 1 as [|t ts Ht _ IH]; [reflexivity|].
  cbn [map join]. now rewrite all_chars_app, (tag_markup_no_cr _ Ht), IH.
Qed.

(** The tag strip that the setter's markup builds. *)
Lemma parse_strip (ts : list string) :
  Forall identifier ts ->
  parseFragment (join (map tag_markup ts)) = map tag_node ts.
Proof.
  intros H. unfold parseFragment, tokenize, build.
  rewrite (normalizeNewlines_id _ (strip_no_cr _ H)).
  rewrite (run_strip _ H), (process_strip _ _ H).
  cbn [fst snd close_all app]. apply app_nil_r.
Qed.

End TreeConstruction.

Section Serialisation.

Lemma escape_literal_char (c : ascii) (m : bool) :
  literal c = true -> is_chr c quotation_mark = false \/ m = false ->
  forall s, escape m (String c s) = String c (escape m s).
Proof.
  intros H Hq s. apply literal_tests in H as (H1 & H2 & H3 & _ & _ & H6).
  simpl. rewrite H1, H6, H2, H3.
  destruct Hq as [-> | ->]; [rewrite andb_false_r | ]; reflexivity.
Qed.

Lemma escape_literal (t : string) :
  all_chars literal t = true -> escape false t = t.
Proof.
  induction t as [|c t IH]; [reflexivity|].
  intros H. simpl in H. apply andb_true_iff in H as [Hc Ht].
  rewrite (escape_literal_char c false Hc (or_intror eq_refl)).
  now rewrite (IH Ht).
Qed.

Lemma escape_app (m : bool) (a b : string) :
  escape m (a ++ b) = (escape m a ++ escape m b)%string.
Proof.
  induction a as [|c a IH]; simpl; [reflexivity|].
  now rewrite IH, append_assoc.
Qed.

Lemma serialize_text_nodes (t : string) (name : string) :
  all_chars literal t = true ->
  includes rawTextElements name = false ->
  serializeChildren name (text_nodes t) = t.
Proof.
  intros Ht Hn. unfold serializeChildren. rewrite Hn.
  destruct t as [|c t]; [reflexivity|].
  cbn [text_nodes map join serialize].
  now rewrite append_nil_r, (escape_literal _ Ht).
Qed.

(** A tag's element reads as its identifier. *)
Lemma innerHTML_tag_element (t : string) :
  identifier t -> innerHTML (tag_element t) = t.
Proof.
  intros H. unfold tag_element, innerHTML. cbn [el_name el_children].
  apply serialize_text_nodes; [now apply identifier_literal | reflexivity].
Qed.

Lemma hasClass_tag (t : string) :
  hasClass "ce-tag" [("class", ("ce-tag tag-" ++ t)%string)] = true.
Proof. reflexivity. Qed.

Lemma selectClass_text_nodes (cls t : string) :
  flat_map (selectClass cls) (text_nodes t) = [].
Proof. destruct t; reflexivity. Qed.

Lemma selectClass_tag_node (t : string) :
  selectClass "ce-tag" (tag_node t) = [tag_element t].
Proof.
  unfold tag_node, tag_element. cbn [selectClass].
  now rewrite hasClass_tag, selectClass_text_nodes.
Qed.

(** The class selector finds the tags' elements, in order. *)
Lemma querySelectorAll_strip (ts : list string) :
  querySelectorAll "ce-tag" (map tag_node ts) = map tag_element ts.
Proof.
  unfold querySelectorAll.
  induction ts as [|t ts IH]; [reflexivity|].
  cbn [map flat_map]. now rewrite selectClass_tag_node, IH.
Qed.

Lemma innerHTML_strip (ts : list string) :
  Forall identifier ts -> map innerHTML (map tag_element ts) = ts.
Proof.
  induction 1 as [|t ts Ht _ IH]; [reflexivity|].
  cbn [map]. now rewrite (innerHTML_tag_element _ Ht), IH.
Qed.

End Serialisation.

Section SanitizedText.

Lemma sanitized_cases (s : string) :
  sanitized s = true ->
  s = ""
  \/ (exists p r, In p pieces /\ s = (p ++ r)%string /\ sanitized r = true)
  \/ (exists c r, s = String c r /\ literal c = true /\ sanitized r = true).
Proof.
  destruct s as [|c r]; [now left|]. intros H. right.
  cbn [sanitized] in H. destruct (literal c) eqn:L.
  { right. now exists c, r. }
  left. destruct r as [|c1 [|c2 [|c3 r3]]]; try discriminate H.
  destruct (is_chr c "<") eqn:E1.
  { decide_tests. exists "<br>", r3. cbn. tauto. }
  destruct (is_chr c "&") eqn:E2; [|discriminate H].
  destruct ((is_chr c1 "l" || is_chr c1 "g") && is_chr c2 "t" && is_chr c3 ";")
    eqn:E3.
  { decide_tests.
    match goal with
    | E : _ || _ = true |- _ => apply orb_true_iff in E as [E|E]
    end; decide_tests.
    - exists "&lt;", r3. cbn. tauto.
    - exists "&gt;", r3. cbn. tauto. }
  destruct r3 as [|c4 r4]; [discriminate H|].
  destruct (is_chr c1 "a" && is_chr c2 "m" && is_chr c3 "p" && is_chr c4 ";")
    eqn:E4.
  { decide_tests. exists "&amp;", r4. cbn. tauto. }
  destruct r4 as [|c5 r5]; [discriminate H|].
  decide_tests. exists "&nbsp;", r5. cbn. tauto.
Qed.

Lemma sanitized_piece (p r : string) :
  In p pieces -> sanitized r = true -> sanitized (p ++ r) = true.
Proof.
  intros Hp Hr. cbn in Hp.
  destruct Hp as [<-|[<-|[<-|[<-|[<-|[]]]]]]; cbn; exact Hr.
Qed.

(** Induction over sanitized text, a piece or a literal character at
    a time. *)
Lemma sanitized_induction (P : string -> Prop) :
  P "" ->
  (forall p r, In p pieces -> sanitized r = true -> P r -> P (p ++ r)%string) ->
  (forall c r, literal c = true -> sanitized r = true -> P r -> P (String c r)) ->
  forall s, sanitized s = true -> P s.
Proof.
  intros H0 Hp Hc.
  assert (G : forall n s, String.length s <= n -> sanitized s = true -> P s).
  { induction n as [|n IH]; intros s Hn Hs.
    - destruct s; [exact H0 | simpl in Hn; lia].
    - destruct (sanitized_cases s Hs)
        as [-> | [(p & r & Hin & -> & Hr) | (c & r & -> & Hl & Hr)]].
      + exact H0.
      + apply Hp; [exact Hin | exact Hr|]. apply IH; [|exact Hr].
        cbn in Hin.
        destruct Hin as [<-|[<-|[<-|[<-|[<-|[]]]]]]; cbn in Hn; lia.
      + apply Hc; [exact Hl | exact Hr|]. apply IH; [simpl in Hn; lia | exact Hr]. }
  intros s. now apply (G (String.length s)).
Qed.

Lemma sanitized_no_cr (s : string) :
  sanitized s = true -> all_chars no_cr s = true.
Proof.
  revert s. apply sanitized_induction.
  - reflexivity.
  - intros p r Hp _ IH. rewrite all_chars_app, IH.
    cbn in Hp. destruct Hp as [<-|[<-|[<-|[<-|[<-|[]]]]]]; reflexivity.
  - intros c r Hc _ IH. simpl. rewrite IH.
    apply literal_tests in Hc as (_ & _ & _ & _ & H & _).
    unfold no_cr. now rewrite H.
Qed.

Lemma literal_sanitized (s : string) :
  all_chars literal s = true -> sanitized s = true.
Proof.
  induction s as [|c s IH]; [reflexivity|].
  simpl. intros H. apply andb_true_iff in H as [Hc Hs].
  now rewrite Hc, IH.
Qed.

Lemma sanitized_app (a b : string) :
  sanitized a = true -> sanitized b = true -> sanitized (a ++ b) = true.
Proof.
  intros Ha Hb. revert a Ha. apply sanitized_induction.
  - exact Hb.
  - intros p r Hp _ IH. rewrite append_assoc. now apply sanitized_piece.
  - intros c r Hc _ IH. cbn [append sanitized]. now rewrite Hc.
Qed.

(** A character that joins the children is serialised after them. *)
Lemma serialize_append_char (c : ascii) (l : list node) :
  join (map (serialize false) (append_char c l))
  = (join (map (serialize false) l) ++ escape false (String c ""))%string.
Proof.
  induction l as [|n r IH].
  - cbn [append_char map join serialize]. now rewrite append_nil_r.
  - destruct n as [d|d|nm ats ch]; destruct r as [|n' r'].
    + cbn [append_char map join serialize].
      now rewrite !append_nil_r, snoc_is_append, escape_app.
    + change (append_char c (Text d :: n' :: r'))
        with (Text d :: append_char c (n' :: r')).
      cbn [map join]. cbn [map join] in IH. now rewrite IH, !append_assoc.
    + change (append_char c [Comment d]) with (Comment d :: append_char c []).
      cbn [map join]. cbn [map join] in IH. now rewrite IH, !append_assoc.
    + change (append_char c (Comment d :: n' :: r'))
        with (Comment d :: append_char c (n' :: r')).
      cbn [map join]. cbn [map join] in IH. now rewrite IH, !append_assoc.
    + change (append_char c [Element nm ats ch])
        with (Element nm ats ch :: append_char c []).
      cbn [map join]. cbn [map join] in IH. now rewrite IH, !append_assoc.
    + change (append_char c (Element nm ats ch :: n' :: r'))
        with (Element nm ats ch :: append_char c (n' :: r')).
      cbn [map join]. cbn [map join] in IH. now rewrite IH, !append_assoc.
Qed.

(** Each piece is built into what serialises to it. *)
Lemma build_piece (p r : string) (root : list node) :
  In p pieces ->
  exists root',
    fold_left process (run Data (p ++ r)) ([], root)
    = fold_left process (run Data r) ([], root')
    /\ join (map (serialize false) root')
       = (join (map (serialize false) root) ++ p)%string.
Proof.
  intros Hp. cbn in Hp.
  destruct Hp as [<-|[<-|[<-|[<-|[<-|[]]]]]].
  - exists (root ++ [Element "br" [] []]). split; [reflexivity|].
    now rewrite map_app, join_app.
  - exists (append_char "&" root). split; [reflexivity|].
    now rewrite serialize_append_char.
  - exists (append_char "<" root). split; [reflexivity|].
    now rewrite serialize_append_char.
  - exists (append_char ">" root). split; [reflexivity|].
    now rewrite serialize_append_char.
  - exists (append_char (ascii_of_nat 160) root). split; [reflexivity|].
    now rewrite serialize_append_char.
Qed.

(** Sanitized text is built into nodes that serialise to it. *)
Lemma build_sanitized (s : string) :
  sanitized s = true ->
  forall root,
  exists root',
    fold_left process (run Data s) ([], root) = ([], root')
    /\ join (map (serialize false) root')
       = (join (map (serialize false) root) ++ s)%string.
Proof.
  revert s.
  apply (sanitized_induction (fun s => forall root, exists root',
    fold_left process (run Data s) ([], root) = ([], root')
    /\ join (map (serialize false) root')
       = (join (map (serialize false) root) ++ s)%string)).
  - intros root. exists root. split; [reflexivity | now rewrite append_nil_r].
  - intros p r Hp _ IH root.
    destruct (build_piece p r root Hp) as (root1 & E1 & S1).
    destruct (IH root1) as (root' & H1 & H2).
    exists root'. split; [now rewrite E1|].
    now rewrite H2, S1, append_assoc.
  - intros c r Hc _ IH root.
    destruct (IH (append_char c root)) as (root' & H1 & H2).
    exists root'. split.
    + pose proof (literal_tests c Hc) as (T1 & T2 & _ & T4 & _).
      rewrite run_cons. cbn [step]. unfold data_step. rewrite T1, T2.
      cbn [app fold_left process]. unfold insert_char. rewrite T4. exact H1.
    + rewrite H2, serialize_append_char.
      rewrite (escape_literal_char c false Hc (or_intror eq_refl)).
      now rewrite append_assoc.
Qed.

(** Sanitized text written as markup reads back unchanged. *)
Lemma parse_serialize_sanitized (s : string) :
  sanitized s = true ->
  serializeChildren "div" (parseFragment s) = s.
Proof.
  intros H. unfold parseFragment, tokenize, build, serializeChildren.
  rewrite (normalizeNewlines_id _ (sanitized_no_cr _ H)).
  destruct (build_sanitized s H []) as (root' & H1 & H2).
  rewrite H1. cbn [fst snd close_all]. rewrite app_nil_r.
  exact H2.
Qed.

End SanitizedText.

(* ================================================================== *)
(** ** Facts about the document and the block's state *)
(* ================================================================== *)

Section Elements.

Lemma update_length (doc : Document) (h : handle) f :
  length (update doc h f) = length doc.
Proof.
  revert h. induction doc as [|e doc IH]; intros [|h]; simpl; auto.
Qed.

Lemma lookup_update_same (doc : Document) (h : handle) f :
  h < length doc -> lookup (update doc h f) h = f (lookup doc h).
Proof.
  unfold lookup. revert h.
  induction doc as [|e doc IH]; intros [|h] H; simpl in *; try lia; auto.
  apply IH. lia.
Qed.

Lemma lookup_update_other (doc : Document) (h h' : handle) f :
  h <> h' -> lookup (update doc h f) h' = lookup doc h'.
Proof.
  unfold lookup. revert h h'.
  induction doc as [|e doc IH]; intros [|h] [|h'] H; simpl; auto; try congruence.
Qed.

Lemma update_new (doc : Document) (e : HTMLElement) (rest : list HTMLElement) f :
  update (doc ++ e :: rest) (length doc) f = doc ++ f e :: rest.
Proof. induction doc as [|x doc IH]; simpl; [reflexivity | now rewrite IH]. Qed.

Lemma lookup_new (doc : Document) (e : HTMLElement) (rest : list HTMLElement) :
  lookup (doc ++ e :: rest) (length doc) = e.
Proof. unfold lookup. induction doc as [|x doc IH]; simpl; auto. Qed.

End Elements.

Section State.

(** The getter leaves the document alone and returns what it reads. *)
Lemma get_data_reads (w : World) :
  get_data w
  = Ok (mkData (Some (read_text w)) (Some (read_tags w)),
        set__data (mkData (Some (read_text w)) (Some (read_tags w))) w).
Proof. reflexivity. Qed.

Lemma set__data_mounted (w : World) (d : ParagraphData) :
  mounted w -> mounted (set__data d w).
Proof. intros H. exact H. Qed.

Lemma set_data_writes (w : World) (d : ParagraphData) :
  set_data (Some d) w = Ok (tt, written w d).
Proof. reflexivity. Qed.

Lemma set_data_nullish (w : World) :
  set_data None w = Ok (tt, written w (mkData None None)).
Proof. reflexivity. Qed.

Lemma written_data (w : World) (d : ParagraphData) :
  _data (this (written w d)) = d.
Proof. reflexivity. Qed.

Lemma written_text_of (w : World) (d : ParagraphData) :
  mounted w ->
  text_of (written w d) = set_innerHTML (or_empty (text d)) (text_of w).
Proof.
  intros (H1 & H2 & H3 & _).
  destruct w as [doc p]. unfold text_of, written, on_element in *.
  cbn [document this set__data _textElement _tagsElement] in *.
  rewrite lookup_update_other by congruence.
  now rewrite lookup_update_same.
Qed.

Lemma written_strip_of (w : World) (d : ParagraphData) :
  mounted w ->
  strip_of (written w d)
  = set_innerHTML (join (map tag_markup (or_nil (tags d)))) (strip_of w).
Proof.
  intros (H1 & H2 & H3 & _).
  destruct w as [doc p]. unfold strip_of, written, on_element in *.
  cbn [document this set__data _textElement _tagsElement] in *.
  rewrite lookup_update_same by now rewrite update_length.
  now rewrite lookup_update_other.
Qed.

Lemma written_length (w : World) (d : ParagraphData) :
  length (document (written w d)) = length (document w).
Proof. unfold written, on_element. cbn. now rewrite !update_length. Qed.

Lemma written_mounted (w : World) (d : ParagraphData) :
  mounted w -> mounted (written w d).
Proof.
  intros Hm. pose proof (written_text_of w d Hm) as Ht.
  pose proof (written_length w d) as Hl.
  destruct Hm as (H1 & H2 & H3 & H4).
  unfold mounted. rewrite Ht, Hl. repeat split; assumption.
Qed.

(** What is read after a write. *)
Lemma written_read_text (w : World) (d : ParagraphData) :
  mounted w ->
  read_text (written w d)
  = serializeChildren "div" (parseFragment (or_empty (text d))).
Proof.
  intros Hm. unfold read_text. rewrite (written_text_of w d Hm).
  destruct Hm as (_ & _ & _ & H4).
  unfold get_innerHTML, set_innerHTML. cbn. now rewrite H4.
Qed.

Lemma written_read_tags (w : World) (d : ParagraphData) :
  mounted w ->
  read_tags (written w d)
  = map innerHTML
      (querySelectorAll "ce-tag"
         (parseFragment (join (map tag_markup (or_nil (tags d)))))).
Proof. intros Hm. unfold read_tags. now rewrite (written_strip_of w d Hm). Qed.

Lemma written_shows (w : World) (d : ParagraphData) :
  mounted w ->
  Forall identifier (or_nil (tags d)) -> shows (written w d) (or_nil (tags d)).
Proof.
  intros Hm H. unfold shows. rewrite (written_strip_of w d Hm). cbn.
  now apply parse_strip.
Qed.

End State.

Section Shown.

(** A strip that shows identifiers reads as these identifiers. *)
Lemma shows_read_tags (w : World) (ts : list string) :
  shows w ts -> Forall identifier ts -> read_tags w = ts.
Proof.
  unfold shows, read_tags. intros -> H.
  now rewrite querySelectorAll_strip, innerHTML_strip.
Qed.

Lemma read_sanitized (w : World) (d : ParagraphData) :
  mounted w -> sanitized (or_empty (text d)) = true ->
  read_text (written w d) = or_empty (text d).
Proof.
  intros Hm Hs. rewrite (written_read_text w d Hm).
  now apply parse_serialize_sanitized.
Qed.

Lemma read_identifiers (w : World) (d : ParagraphData) :
  mounted w -> Forall identifier (or_nil (tags d)) ->
  read_tags (written w d) = or_nil (tags d).
Proof.
  intros Hm Hi. apply shows_read_tags; [|exact Hi].
  now apply written_shows.
Qed.

Lemma keep_first_identifiers (l : list string) :
  Forall identifier l -> Forall identifier (keep_first l).
Proof.
  intros H. apply Forall_forall. intros x Hx.
  apply (proj1 (keep_first_In _ _)) in Hx.
  apply (proj1 (Forall_forall _ _) H x Hx).
Qed.

End Shown.

(* ================================================================== *)
(** ** The data getter and setter *)
(* ================================================================== *)

Section Synchronizer.

Lemma or_empty_some (s : string) : or_empty (Some s) = s.
Proof. destruct s; reflexivity. Qed.

(** What the DOM does to markup that is not in its serialised form, and
    to tags that are not identifiers. *)
Example unescaped_text_is_escaped :
  observe (block "fish & chips" ["Q&A"]) = Ok ("fish &amp; chips", ["Q&amp;A"]).
Proof. reflexivity. Qed.

Example unclosed_element_is_closed :
  observe (block "<b>bold" []) = Ok ("<b>bold</b>", []).
Proof. reflexivity. Qed.

Example distinct_tags_can_read_alike :
  observe (block "A" ["Q&A"; "Q&amp;A"]) = Ok ("A", ["Q&amp;A"; "Q&amp;A"]).
Proof. reflexivity. Qed.

Example markup_in_a_tag_is_markup :
  observe (block "A" ["<i class=ce-tag>x</i>"])
  = Ok ("A", [String.append "<i class=" (String quotation_mark
                (String.append "ce-tag" (String quotation_mark ">x</i>")));
              "x"]).
Proof. reflexivity. Qed.

End Synchronizer.

(** C1, as amended.  For any tag sequence of identifiers (strings free of
    the characters that markup gives a meaning) and any sanitized text,
    writing the record through the data setter and reading it through the
    data getter yields a record with the same text and the same tags: the
    same identifiers in the same order, none added and none dropped. *)
Theorem data_roundtrip (w : World) (tx : string) (tg : list string) :
  mounted w -> sanitized tx = true -> Forall identifier tg ->
  exists w',
    bind (set_data (Some (mkData (Some tx) (Some tg)))) (fun _ => get_data) w
    = Ok (mkData (Some tx) (Some tg), w').
Proof.
  intros Hm Hs Hi. unfold bind.
  rewrite set_data_writes, get_data_reads.
  rewrite (read_sanitized w _ Hm), (read_identifiers w _ Hm).
  - cbn [text tags or_nil]. rewrite or_empty_some. eexists. reflexivity.
  - exact Hi.
  - cbn [text]. now rewrite or_empty_some.
Qed.

Lemma data_roundtrip_witness :
  mounted sample
  /\ sanitized "fish &amp; chips<br>to go" = true
  /\ Forall identifier ["take-away"; "2 for 1"]
  /\ exists w',
       bind (set_data (Some (mkData (Some "fish &amp; chips<br>to go")
                                    (Some ["take-away"; "2 for 1"]))))
            (fun _ => get_data) sample
       = Ok (mkData (Some "fish &amp; chips<br>to go")
                    (Some ["take-away"; "2 for 1"]), w').
Proof.
  assert (Hm : mounted sample)
    by (unfold mounted; cbn; repeat split; [repeat constructor.. | discriminate]).
  assert (Hs : sanitized "fish &amp; chips<br>to go" = true) by reflexivity.
  assert (Hi : Forall identifier ["take-away"; "2 for 1"]) by (repeat constructor).
  split; [exact Hm|]. split; [exact Hs|]. split; [exact Hi|].
  exact (data_roundtrip sample _ _ Hm Hs Hi).
Defined.

(** C1, as stated, fails: the text [fish & chips] and the single tag
    [Q&A] are read back as [fish &amp; chips] and [Q&amp;A]. *)
Lemma data_roundtrip_fails :
  NoDup ["Q&A"]
  /\ exists d w',
       bind (set_data (Some (mkData (Some "fish & chips") (Some ["Q&A"]))))
            (fun _ => get_data) sample
       = Ok (d, w')
       /\ text d = Some "fish &amp; chips"
       /\ tags d = Some ["Q&amp;A"]
       /\ text d <> Some "fish & chips"
       /\ tags d <> Some ["Q&A"].
Proof.
  split.
  - constructor; [intros [] | constructor].
  - eexists. eexists. split; [vm_compute; reflexivity|].
    cbn. repeat split; discriminate.
Qed.

(* ================================================================== *)
(** ** Merge *)
(* ================================================================== *)

Section Merging.

(** The record that [merge] hands to the setter. *)
Lemma merge_runs (w : World) (tx : option string) (tg : list string) :
  merge (mkData tx (Some tg)) w
  = Ok (tt, written w (mkData (Some (plus (read_text w) tx))
                              (Some (new_Set (read_tags w ++ tg))))).
Proof. reflexivity. Qed.

Lemma merge_without_tags (w : World) (tx : option string) :
  merge (mkData tx None) w = Throw TypeError.
Proof. reflexivity. Qed.

(** Read back, for sanitized text and identifiers. *)
Lemma merge_observed (w : World) (ts : list string) (tx : string) (tg : list string) :
  mounted w -> shows w ts -> Forall identifier ts -> Forall identifier tg ->
  sanitized (read_text w) = true -> sanitized tx = true ->
  observe (after (merge (mkData (Some tx) (Some tg))) (Ok w))
  = Ok ((read_text w ++ tx)%string, keep_first (ts ++ tg)).
Proof.
  intros Hm Hsh Hts Htg Hs1 Hs2.
  unfold after. rewrite merge_runs. unfold observe.
  rewrite (shows_read_tags w ts Hsh Hts), new_Set_keep_first.
  rewrite (read_sanitized w _ Hm), (read_identifiers w _ Hm).
  - cbn [text tags or_nil plus]. now rewrite or_empty_some.
  - cbn [tags or_nil]. apply Forall_forall. intros x Hx.
    apply keep_first_In, in_app_iff in Hx.
    destruct Hx as [Hx|Hx];
      [apply (proj1 (Forall_forall _ _) Hts x Hx)
      | apply (proj1 (Forall_forall _ _) Htg x Hx)].
  - cbn [text plus]. rewrite or_empty_some. now apply sanitized_app.
Qed.

(** The examples of the specification. *)
Example merge_example_1 :
  observe (after (merge (mkData (Some "B") (Some ["x"]))) (block "A" ["y"]))
  = Ok ("AB", ["y"; "x"]).
Proof. reflexivity. Qed.

Example merge_example_2 :
  observe (after (merge (mkData (Some "") (Some ["y"]))) (block "A" ["y"]))
  = Ok ("A", ["y"]).
Proof. reflexivity. Qed.

End Merging.

(** C3, as amended.  For every block whose text, as the getter reads
    it, is sanitized text and whose tags, as the getter reads them, are
    identifiers, and for every incoming record of sanitized text and
    identifiers: after [merge] the getter reads this block's text followed
    immediately by the incoming text, nothing in between, and this block's
    tags (the first occurrence of each) followed by the incoming tags that
    are not already present, with duplicates removed.  No tag is read
    twice; the tags read are those of one of the two sequences; and when
    this block's tags have no duplicates they come first, as they were. *)
Theorem merge_concatenates (w : World) (tx : string) (tg : list string) :
  mounted w ->
  sanitized (read_text w) = true -> sanitized tx = true ->
  Forall identifier (read_tags w) -> Forall identifier tg ->
  let mine := read_tags w in
  let merged := keep_first mine ++ keep_first (novel mine tg) in
  exists w' w'',
    merge (mkData (Some tx) (Some tg)) w = Ok (tt, w')
    /\ get_data w'
       = Ok (mkData (Some (read_text w ++ tx)%string) (Some merged), w'')
    /\ read_text w' = (read_text w ++ tx)%string
    /\ read_tags w' = merged
    /\ NoDup (read_tags w')
    /\ (forall x, In x (read_tags w') <-> In x mine \/ In x tg)
    /\ (NoDup mine -> read_tags w' = mine ++ keep_first (novel mine tg)).
Proof.
  intros Hm Hs1 Hs2 Hi1 Hi2 mine merged.
  assert (E : new_Set (read_tags w ++ tg) = merged).
  { rewrite new_Set_keep_first. apply keep_first_union. }
  assert (Hi : Forall identifier merged).
  { rewrite <- E, new_Set_keep_first. apply keep_first_identifiers.
    apply Forall_app. now split. }
  assert (Hnd : NoDup merged).
  { rewrite <- E, new_Set_keep_first. apply keep_first_NoDup. }
  set (d := mkData (Some (read_text w ++ tx)%string) (Some merged)).
  assert (R : merge (mkData (Some tx) (Some tg)) w = Ok (tt, written w d)).
  { rewrite merge_runs, E. reflexivity. }
  assert (T1 : read_text (written w d) = (read_text w ++ tx)%string).
  { rewrite (read_sanitized w d Hm); cbn [d text]; rewrite or_empty_some;
      [reflexivity | now apply sanitized_app]. }
  assert (T2 : read_tags (written w d) = merged)
    by exact (read_identifiers w d Hm Hi).
  exists (written w d). eexists.
  split; [exact R|].
  split; [rewrite get_data_reads, T1, T2; reflexivity|].
  split; [exact T1|]. split; [exact T2|]. rewrite T2.
  split; [exact Hnd|].
  split.
  - intros x. rewrite <- E, new_Set_keep_first.
    now rewrite keep_first_In, in_app_iff.
  - intros Hn. unfold merged. now rewrite (keep_first_id mine Hn).
Qed.

Lemma merge_concatenates_witness :
  mounted sample
  /\ sanitized (read_text sample) = true /\ sanitized "B" = true
  /\ Forall identifier (read_tags sample) /\ Forall identifier ["x"; "y"; "x"]
  /\ exists w',
       merge (mkData (Some "B") (Some ["x"; "y"; "x"])) sample = Ok (tt, w')
       /\ read_text w' = "AB"
       /\ read_tags w' = ["y"; "x"].
Proof.
  assert (Hm : mounted sample)
    by (unfold mounted; cbn; repeat split; [repeat constructor.. | discriminate]).
  assert (Hs1 : sanitized (read_text sample) = true) by reflexivity.
  assert (Hs2 : sanitized "B" = true) by reflexivity.
  assert (Hi1 : Forall identifier (read_tags sample)) by (repeat constructor).
  assert (Hi2 : Forall identifier ["x"; "y"; "x"]) by (repeat constructor).
  split; [exact Hm|]. split; [exact Hs1|]. split; [exact Hs2|].
  split; [exact Hi1|]. split; [exact Hi2|].
  destruct (merge_concatenates sample "B" ["x"; "y"; "x"] Hm Hs1 Hs2 Hi1 Hi2)
    as (w' & _ & H1 & _ & H3 & H4 & _).
  exists w'. split; [exact H1|]. split; [exact H3 | exact H4].
Defined.

(** C3, as stated, fails: merged into a block with the text [A] and the
    tag [Q&A], which it reads as [Q&amp;A], the record with the text
    [B & C] and the tag [Q&A] leaves a block that reads the text
    [AB &amp; C], not [AB & C], and the tag [Q&amp;A] twice. *)
Lemma merge_reads_markup_escaped :
  observe (block "A" ["Q&A"]) = Ok ("A", ["Q&amp;A"])
  /\ observe (after (merge (mkData (Some "B & C") (Some ["Q&A"]))) (block "A" ["Q&A"]))
     = Ok ("AB &amp; C", ["Q&amp;A"; "Q&amp;A"])
  /\ "AB &amp; C" <> ("A" ++ "B & C")%string
  /\ ~ NoDup ["Q&amp;A"; "Q&amp;A"].
Proof.
  split; [reflexivity|]. split; [reflexivity|]. split; [discriminate|].
  intros H. inversion H as [|x l Hin _]. apply Hin. now left.
Qed.

(** C10, as amended.  [merge] removes duplicates over the whole
    concatenation of the two tag sequences: for every block whose tags, as
    the getter reads them, are identifiers, duplicates among them
    included, and every incoming sequence of identifiers, the tags read
    after the merge are the concatenation with only the first occurrence
    of every identifier kept; they have no duplicates and the same
    members. *)
Theorem merge_dedups_concatenation (w : World) (tx : string) (tg : list string) :
  mounted w ->
  Forall identifier (read_tags w) -> Forall identifier tg ->
  let merged := keep_first (read_tags w ++ tg) in
  exists w',
    merge (mkData (Some tx) (Some tg)) w = Ok (tt, w')
    /\ new_Set (read_tags w ++ tg) = merged
    /\ merged = first_occurrences (read_tags w ++ tg)
    /\ read_tags w' = merged
    /\ NoDup (read_tags w')
    /\ (forall x, In x (read_tags w') <-> In x (read_tags w) \/ In x tg).
Proof.
  intros Hm Hi1 Hi2 merged.
  assert (E : new_Set (read_tags w ++ tg) = merged) by apply new_Set_keep_first.
  eexists. split; [apply merge_runs|]. rewrite E.
  set (d := mkData (Some (plus (read_text w) (Some tx))) (Some merged)).
  split; [reflexivity|]. split; [apply keep_first_first_occurrences|].
  assert (R : read_tags (written w d) = merged).
  { rewrite (read_identifiers w d Hm); [reflexivity|].
    cbn [d tags or_nil]. apply keep_first_identifiers, Forall_app. now split. }
  rewrite R. split; [reflexivity|]. split; [apply keep_first_NoDup|].
  intros x. unfold merged. now rewrite keep_first_In, in_app_iff.
Qed.

Lemma merge_dedups_concatenation_witness :
  mounted (world_of (block "A" ["a"; "b"; "a"]))
  /\ Forall identifier (read_tags (world_of (block "A" ["a"; "b"; "a"])))
  /\ Forall identifier ["b"; "a"; "c"; "c"]
  /\ exists w',
       merge (mkData (Some "B") (Some ["b"; "a"; "c"; "c"]))
             (world_of (block "A" ["a"; "b"; "a"])) = Ok (tt, w')
       /\ read_tags (world_of (block "A" ["a"; "b"; "a"])) = ["a"; "b"; "a"]
       /\ read_tags w' = ["a"; "b"; "c"].
Proof.
  assert (Hm : mounted (world_of (block "A" ["a"; "b"; "a"])))
    by (unfold mounted; cbn; repeat split; [repeat constructor.. | discriminate]).
  assert (Hi1 : Forall identifier (read_tags (world_of (block "A" ["a"; "b"; "a"]))))
    by (repeat constructor).
  assert (Hi2 : Forall identifier ["b"; "a"; "c"; "c"]) by (repeat constructor).
  split; [exact Hm|]. split; [exact Hi1|]. split; [exact Hi2|].
  destruct (merge_dedups_concatenation _ "B" ["b"; "a"; "c"; "c"] Hm Hi1 Hi2)
    as (w' & H1 & _ & _ & H4 & _).
  exists w'. split; [exact H1|]. split; [reflexivity | exact H4].
Defined.

(** C10, as stated, fails: merged into the block with the one tag [y],
    the tags [Q&A] and [Q&amp;A], which are two, are read as [Q&amp;A]
    twice. *)
Lemma merge_leaves_duplicates :
  observe (Ok sample) = Ok ("A", ["y"])
  /\ keep_first (["y"] ++ ["Q&A"; "Q&amp;A"]) = ["y"; "Q&A"; "Q&amp;A"]
  /\ observe (after (merge (mkData (Some "") (Some ["Q&A"; "Q&amp;A"]))) (Ok sample))
     = Ok ("A", ["y"; "Q&amp;A"; "Q&amp;A"])
  /\ ~ NoDup ["y"; "Q&amp;A"; "Q&amp;A"].
Proof.
  split; [reflexivity|]. split; [reflexivity|]. split; [reflexivity|].
  intros H. inversion H as [|x l _ H1]. inversion H1 as [|y l' Hin _].
  apply Hin. now left.
Qed.

(* ================================================================== *)
(** ** Validation *)
(* ================================================================== *)

Section Validation.

Example validate_blank_default :
  validate (mkData (Some "   ") None) sample = Ok (false, sample).
Proof. reflexivity. Qed.

Example validate_blank_preserved :
  match constructor (mkParams (mkData None None) (mkConfig None (Some true)) host false) [] with
  | Ok w => validate (mkData (Some "   ") None) w = Ok (true, w)
  | Throw _ => False
  end.
Proof. reflexivity. Qed.

Example validate_hello :
  validate (mkData (Some "hello") (Some ["y"])) sample = Ok (true, sample).
Proof. reflexivity. Qed.

Lemma validate_runs (w : World) (t : string) (tg : option (list string)) :
  validate (mkData (Some t) tg) w
  = Ok (negb (String.eqb (trim t) "" && negb (_preserveBlank (this w))), w).
Proof.
  unfold validate, bind, the, gets, ret. cbn [text].
  destruct (String.eqb (trim t) "" && negb (_preserveBlank (this w)));
    reflexivity.
Qed.

Lemma validate_without_text (w : World) (tg : option (list string)) :
  validate (mkData None tg) w = Throw TypeError.
Proof. reflexivity. Qed.

End Validation.

(** C4.  For every saved record, [validate] returns false if and only if
    the trimmed text is empty (the text is white space only) and the
    [preserveBlank] option is not set; otherwise it returns true.  The
    tags do not affect the result, and the block is left as it was. *)
Theorem validate_rejects_blank (w : World) (t : string)
    (tg tg' : option (list string)) :
  exists b,
    validate (mkData (Some t) tg) w = Ok (b, w)
    /\ (b = false <-> trim t = "" /\ _preserveBlank (this w) = false)
    /\ (b = false <-> all_chars isWhiteSpace t = true
                      /\ _preserveBlank (this w) = false)
    /\ validate (mkData (Some t) tg') w = Ok (b, w).
Proof.
  exists (negb (String.eqb (trim t) "" && negb (_preserveBlank (this w)))).
  rewrite !validate_runs. split; [reflexivity|].
  assert (A : negb (String.eqb (trim t) "" && negb (_preserveBlank (this w))) = false
              <-> trim t = "" /\ _preserveBlank (this w) = false).
  { rewrite negb_false_iff, andb_true_iff, negb_true_iff, String.eqb_eq. tauto. }
  split; [exact A|]. split; [|reflexivity].
  rewrite A, trim_empty. tauto.
Qed.

(* ================================================================== *)
(** ** Paste and key-up *)
(* ================================================================== *)

Section Pasting.

Lemma onPaste_runs (w : World) (e : PasteEvent) :
  onPaste e w
  = Ok (tt, written w (mkData (node_innerHTML (detail_data e))
                              (Some (read_tags w)))).
Proof. reflexivity. Qed.

(** The example of the specification: the pasted node is the paragraph
    [<p>pasted</p>]. *)
Example paste_example :
  observe (after (onPaste (mkPaste (Element "p" [] [Text "pasted"])))
                 (block "A" ["y"]))
  = Ok ("pasted", ["y"]).
Proof. reflexivity. Qed.

(** A pasted node that is not an element has no [innerHTML]: the record
    holds no text and the text region is emptied. *)
Example paste_of_a_text_node :
  match after (onPaste (mkPaste (Text "pasted"))) (block "A" ["y"]) with
  | Ok w => _data (this w) = mkData None (Some ["y"])
            /\ read_text w = "" /\ read_tags w = ["y"]
  | Throw _ => False
  end.
Proof. repeat split. Qed.

End Pasting.

(** C6, as amended.  For every paste event and every block whose tags,
    as the getter reads them, are identifiers, [onPaste] keeps the tags:
    the getter reads after the paste the sequence it read before, the
    same identifiers in the same order.  The text is replaced with the
    inner markup of the pasted node: the text region is given this markup
    (nothing when the node is not an element), and the text that the
    getter reads afterwards is this markup whenever it is sanitized
    text. *)
Theorem paste_keeps_tags (w : World) (e : PasteEvent) :
  mounted w -> Forall identifier (read_tags w) ->
  exists w',
    onPaste e w = Ok (tt, w')
    /\ read_tags w' = read_tags w
    /\ shows w' (read_tags w)
    /\ childNodes (text_of w')
       = parseFragment (or_empty (node_innerHTML (detail_data e)))
    /\ (forall m, node_innerHTML (detail_data e) = Some m ->
        sanitized m = true ->
        exists w'', get_data w' = Ok (mkData (Some m) (Some (read_tags w)), w''))
    /\ (node_innerHTML (detail_data e) = None ->
        exists w'', get_data w' = Ok (mkData (Some "") (Some (read_tags w)), w'')).
Proof.
  intros Hm Hi. eexists. split; [apply onPaste_runs|].
  set (d := mkData (node_innerHTML (detail_data e)) (Some (read_tags w))).
  assert (T : read_tags (written w d) = read_tags w)
    by exact (read_identifiers w d Hm Hi).
  split; [exact T|].
  split; [exact (written_shows w d Hm Hi)|].
  split; [now rewrite (written_text_of w d Hm)|].
  split.
  - intros m Em Hs. eexists. rewrite get_data_reads, T.
    rewrite (read_sanitized w d Hm); cbn [d text]; rewrite Em, or_empty_some;
      [reflexivity | exact Hs].
  - intros En. eexists. rewrite get_data_reads, T.
    rewrite (read_sanitized w d Hm); cbn [d text]; rewrite En; reflexivity.
Qed.

Lemma paste_keeps_tags_witness :
  mounted sample /\ Forall identifier (read_tags sample)
  /\ exists w' w'',
       onPaste (mkPaste (Element "p" [] [Text "pasted"])) sample = Ok (tt, w')
       /\ read_tags w' = ["y"]
       /\ get_data w' = Ok (mkData (Some "pasted") (Some ["y"]), w'').
Proof.
  assert (Hm : mounted sample)
    by (unfold mounted; cbn; repeat split; [repeat constructor.. | discriminate]).
  assert (Hi : Forall identifier (read_tags sample)) by (repeat constructor).
  split; [exact Hm|]. split; [exact Hi|].
  destruct (paste_keeps_tags sample (mkPaste (Element "p" [] [Text "pasted"])) Hm Hi)
    as (w' & H1 & H2 & _ & _ & H5 & _).
  destruct (H5 "pasted" eq_refl eq_refl) as (w'' & H6).
  exists w', w''. split; [exact H1|]. split; [exact H2 | exact H6].
Defined.

(** C6, as stated, fails: a block made with the one tag
    [<i class=ce-tag>x</i>] reads two tags, the markup of the [i] element
    and [x]; after a paste it reads three. *)
Lemma paste_changes_markup_tags :
  exists t,
    t = String.append "<i class="
          (String quotation_mark
             (String.append "ce-tag" (String quotation_mark ">x</i>")))
    /\ observe (block "A" ["<i class=ce-tag>x</i>"]) = Ok ("A", [t; "x"])
    /\ observe (after (onPaste (mkPaste (Element "p" [] [Text "pasted"])))
                      (block "A" ["<i class=ce-tag>x</i>"]))
       = Ok ("pasted", [t; "x"; "x"])
    /\ [t; "x"; "x"] <> [t; "x"].
Proof.
  eexists. split; [reflexivity|].
  split; [reflexivity|]. split; [reflexivity | discriminate].
Qed.

Section KeyUp.

Lemma parseFragment_empty : parseFragment "" = [].
Proof. reflexivity. Qed.

Lemma on_element_text_of (w : World) f :
  _textElement (this w) < length (document w) ->
  text_of (on_element (_textElement (this w)) f w) = f (text_of w).
Proof. intros H. unfold text_of, on_element. cbn. now apply lookup_update_same. Qed.

Lemma on_element_strip_of (w : World) f :
  _textElement (this w) <> _tagsElement (this w) ->
  strip_of (on_element (_textElement (this w)) f w) = strip_of w.
Proof. intros H. unfold strip_of, on_element. cbn. now apply lookup_update_other. Qed.

(** The stray line break that a browser leaves in an emptied region. *)
Example keyup_stray_break :
  observe (block "<br>" []) = Ok ("<br>", [])
  /\ observe (after (onKeyUp (mkKey "Backspace")) (block "<br>" [])) = Ok ("", [])
  /\ observe (after (onKeyUp (mkKey "Delete")) (block "<br>" [])) = Ok ("", [])
  /\ observe (after (onKeyUp (mkKey "Enter")) (block "<br>" [])) = Ok ("<br>", []).
Proof. repeat split. Qed.

End KeyUp.

(** C8.  For every key-up event whose code is Backspace or Delete, if the
    text content of the editable region is the empty string, the handler
    sets the region's inner markup to the empty string: the region has no
    child left and the text read next is the empty string.  A key-up event
    with another code leaves the block as it is. *)
Theorem keyup_clears_empty_region (w : World) (e : KeyboardEvent) :
  mounted w ->
  exists w',
    onKeyUp e w = Ok (tt, w')
    /\ (code e = "Backspace" \/ code e = "Delete" ->
        get_textContent (text_of w) = "" ->
        childNodes (text_of w') = []
        /\ get_innerHTML (text_of w') = ""
        /\ exists w'', get_data w' = Ok (mkData (Some "") (Some (read_tags w)), w''))
    /\ (code e <> "Backspace" -> code e <> "Delete" -> w' = w).
Proof.
  intros (H1 & H2 & H3 & H4). unfold onKeyUp.
  destruct (String.eqb (code e) "Backspace") eqn:EB;
    destruct (String.eqb (code e) "Delete") eqn:ED; cbn [negb andb].
  4: { exists w. split; [reflexivity|].
       apply String.eqb_neq in EB, ED. split; [intros [?|?]; contradiction | tauto]. }
  all: fold (text_of w);
    destruct (String.eqb (get_textContent (text_of w)) "") eqn:ET;
    eexists; (split; [reflexivity|]);
    (split; [|intros NB ND; apply String.eqb_neq in NB, ND; congruence]);
    intros _ Hempty; try (apply String.eqb_neq in ET; contradiction).
  all: assert (T : text_of (on_element (_textElement (this w)) (set_innerHTML "") w)
                   = set_innerHTML "" (text_of w))
         by (now apply on_element_text_of).
  all: assert (S : strip_of (on_element (_textElement (this w)) (set_innerHTML "") w)
                   = strip_of w)
         by (now apply on_element_strip_of).
  all: rewrite T; split; [reflexivity|]; split; [reflexivity|].
  all: rewrite get_data_reads; unfold read_text, read_tags; rewrite T, S;
    eexists; reflexivity.
Qed.

Lemma keyup_clears_empty_region_witness :
  mounted (world_of (block "<br>" ["y"]))
  /\ get_innerHTML (text_of (world_of (block "<br>" ["y"]))) = "<br>"
  /\ get_textContent (text_of (world_of (block "<br>" ["y"]))) = ""
  /\ exists w',
       onKeyUp (mkKey "Backspace") (world_of (block "<br>" ["y"])) = Ok (tt, w')
       /\ get_innerHTML (text_of w') = "".
Proof.
  assert (Hm : mounted (world_of (block "<br>" ["y"])))
    by (unfold mounted; cbn; repeat split; [repeat constructor.. | discriminate]).
  split; [exact Hm|]. split; [reflexivity|]. split; [reflexivity|].
  destruct (keyup_clears_empty_region _ (mkKey "Backspace") Hm) as (w' & H1 & H2 & _).
  exists w'. split; [exact H1|].
  apply H2; [left|]; reflexivity.
Defined.

(* ================================================================== *)
(** ** Construction *)
(* ================================================================== *)

Section Construction.

Lemma check_wrapper (block : string) :
  check_tokens ["ce-paragraph"; block]
  = match block with
    | EmptyString => Some SyntaxError
    | _ => if has_whitespace block then Some InvalidCharacterError else None
    end.
Proof. destruct block; reflexivity. Qed.

Lemma check_valid (block : string) :
  valid_token block = true -> check_tokens ["ce-paragraph"; block] = None.
Proof.
  rewrite check_wrapper. unfold valid_token. intros H.
  apply andb_true_iff in H as [H1 H2]. apply negb_true_iff in H1, H2.
  destruct block; [discriminate H1 | now rewrite H2].
Qed.

Lemma check_invalid (block : string) :
  valid_token block = false ->
  exists x, check_tokens ["ce-paragraph"; block] = Some x.
Proof.
  rewrite check_wrapper. unfold valid_token. intros H.
  destruct block as [|c r]; [now eexists|].
  cbn [String.eqb negb andb] in H. apply negb_false_iff in H.
  rewrite H. now eexists.
Qed.

Lemma drawView_runs (a : API) (block : string) (ro : bool) (ph : string)
    (doc : Document) :
  check_tokens ["ce-paragraph"; block] = None ->
  drawView a "ce-paragraph" block ro ph doc
  = Ok (mkView (length doc) (length doc + 2) (length doc + 1),
        doc ++ [text_div a "ce-paragraph" block ro ph; tags_div;
                container_div (length doc)]).
Proof.
  intros H.
  unfold drawView, bind, create, add_classes, on_doc, modify, ret, createElement.
  rewrite lookup_new. unfold classList_add. rewrite H.
  destruct ro; cbn [negb]; rewrite !update_new; rewrite lookup_new;
    cbn [check_tokens has_whitespace isAsciiWhitespace is_chr Ascii.eqb Bool.eqb orb];
    rewrite !update_new; rewrite !length_app; cbn [length];
    rewrite <- !app_assoc; cbn [app];
    replace (length doc + 1 + 1) with (length doc + 2) by lia;
    reflexivity.
Qed.

Lemma drawView_throws (a : API) (block : string) (ro : bool) (ph : string)
    (doc : Document) (x : exn) :
  check_tokens ["ce-paragraph"; block] = Some x ->
  drawView a "ce-paragraph" block ro ph doc = Throw x.
Proof.
  intros H.
  unfold drawView, bind, create, add_classes, createElement.
  rewrite lookup_new. unfold classList_add. now rewrite H.
Qed.

Lemma constructor_runs (ps : Params) (doc : Document) :
  valid_token (styles_block (api ps)) = true ->
  constructor ps doc = Ok (written (fresh ps doc) (saved ps)).
Proof.
  intros H. apply check_valid in H. unfold constructor.
  replace (match placeholder (config ps) with
           | Some EmptyString | None => DEFAULT_PLACEHOLDER
           | Some s => s
           end) with (or_empty (placeholder (config ps)))
    by (destruct (placeholder (config ps)) as [[|]|]; reflexivity).
  rewrite (drawView_runs _ _ _ _ _ H). reflexivity.
Qed.

Lemma constructor_throws (ps : Params) (doc : Document) :
  valid_token (styles_block (api ps)) = false ->
  exists x, constructor ps doc = Throw x.
Proof.
  intros H. apply check_invalid in H as (x & H). exists x.
  unfold constructor. now rewrite (drawView_throws _ _ _ _ _ _ H).
Qed.

(** A constructor that returns has built the block. *)
Lemma constructor_inv (ps : Params) (doc : Document) (w : World) :
  constructor ps doc = Ok w -> w = written (fresh ps doc) (saved ps).
Proof.
  intros H. destruct (valid_token (styles_block (api ps))) eqn:V.
  - rewrite (constructor_runs _ _ V) in H. now inversion H.
  - destruct (constructor_throws ps doc V) as (x & Hx). congruence.
Qed.

Lemma fresh_mounted (ps : Params) (doc : Document) : mounted (fresh ps doc).
Proof.
  unfold mounted, text_of, fresh. cbn [document this _textElement _tagsElement].
  rewrite length_app. cbn [length]. repeat split; try lia.
  now rewrite lookup_new.
Qed.

Lemma built_mounted (ps : Params) (doc : Document) :
  mounted (written (fresh ps doc) (saved ps)).
Proof. apply written_mounted, fresh_mounted. Qed.

End Construction.

Section Defaults.

Lemma or_empty_default (v : option string) : or_empty v = text_or_default v.
Proof. destruct v as [[|]|]; reflexivity. Qed.

Lemma or_nil_default (v : option (list string)) : or_nil v = tags_or_default v.
Proof. destruct v; reflexivity. Qed.

Lemma set_data_runs (w : World) (d : option ParagraphData) :
  set_data d w = Ok (tt, written w (record_or_default d)).
Proof. destruct d; reflexivity. Qed.

End Defaults.

(** C5, as amended.  Construction and the data setter do not raise and
    substitute the documented default for every absent input: the empty
    string for an absent text, the empty sequence for absent tags, the
    empty string for an absent placeholder and false for an absent
    [preserveBlank] (the host's block style being a class token).
    Validation does not raise on a record that has a text, and merge does
    not raise on a record that has a text and tags. *)
Theorem defaults_for_absent_inputs :
  (forall ps doc,
      valid_token (styles_block (api ps)) = true ->
      exists w,
        constructor ps doc = Ok w
        /\ _placeholder (this w) = text_or_default (placeholder (config ps))
        /\ _preserveBlank (this w) = flag_or_default (preserveBlank (config ps))
        /\ _data (this w)
           = mkData (Some (text_or_default (text (data ps))))
                    (Some (tags_or_default (tags (data ps))))
        /\ childNodes (text_of w)
           = parseFragment (text_or_default (text (data ps)))
        /\ childNodes (strip_of w)
           = parseFragment (join (map tag_markup (tags_or_default (tags (data ps)))))
        /\ (text (data ps) = None -> read_text w = "")
        /\ (tags (data ps) = None -> read_tags w = []))
  /\ (forall w d,
         mounted w ->
         exists w',
           set_data d w = Ok (tt, w')
           /\ childNodes (text_of w')
              = parseFragment (text_or_default (text (record_or_default d)))
           /\ childNodes (strip_of w')
              = parseFragment
                  (join (map tag_markup (tags_or_default (tags (record_or_default d))))))
  /\ (forall w t tg, exists b, validate (mkData (Some t) tg) w = Ok (b, w))
  /\ (forall w tx tg, exists w', merge (mkData (Some tx) (Some tg)) w = Ok (tt, w')).
Proof.
  repeat split.
  - intros ps doc V. eexists. split; [now apply constructor_runs|].
    pose proof (fresh_mounted ps doc) as Hm.
    rewrite (written_text_of _ (saved ps) Hm), (written_strip_of _ (saved ps) Hm).
    rewrite (written_read_text _ (saved ps) Hm), (written_read_tags _ (saved ps) Hm).
    unfold saved. cbn [text tags set_innerHTML childNodes written_data].
    split; [exact (or_empty_default _)|].
    split; [reflexivity|].
    split; [exact (f_equal2 (fun a b => mkData (Some a) (Some b))
                     (or_empty_default _) (or_nil_default _))|].
    rewrite !or_empty_some. cbn [or_nil].
    rewrite (or_empty_default (text (data ps))), (or_nil_default (tags (data ps))).
    split; [reflexivity|]. split; [reflexivity|].
    split; intros E; rewrite E; reflexivity.
  - intros w d Hm. eexists. split; [apply set_data_runs|].
    rewrite (written_text_of _ _ Hm), (written_strip_of _ _ Hm).
    cbn [set_innerHTML childNodes]. rewrite or_empty_default.
    split; reflexivity.
  - intros w t tg. eexists. apply validate_runs.
  - intros w tx tg. eexists. apply merge_runs.
Qed.

Lemma defaults_for_absent_inputs_witness :
  valid_token (styles_block host) = true
  /\ mounted sample
  /\ (exists w,
        constructor (mkParams (mkData None None) (mkConfig None None) host true) []
        = Ok w
        /\ _placeholder (this w) = ""
        /\ _preserveBlank (this w) = false
        /\ _data (this w) = mkData (Some "") (Some [])
        /\ read_text w = ""
        /\ read_tags w = [])
  /\ (exists w', set_data None sample = Ok (tt, w')
                 /\ childNodes (text_of w') = []
                 /\ childNodes (strip_of w') = []).
Proof.
  assert (V : valid_token (styles_block host) = true) by reflexivity.
  assert (Hm : mounted sample)
    by (unfold mounted; cbn; repeat split; [repeat constructor.. | discriminate]).
  split; [exact V|]. split; [exact Hm|].
  destruct defaults_for_absent_inputs as (C & S & _ & _).
  split.
  - destruct (C (mkParams (mkData None None) (mkConfig None None) host true) [] V)
      as (w & H1 & H2 & H3 & H4 & _ & _ & H7 & H8).
    exists w. split; [exact H1|]. split; [exact H2|]. split; [exact H3|].
    split; [exact H4|]. split; [now apply H7 | now apply H8].
  - destruct (S sample None Hm) as (w' & H1 & H2 & H3).
    exists w'. split; [exact H1|]. split; [exact H2 | exact H3].
Defined.

(** C5, as stated, fails: validation of a record without text raises a
    [TypeError] where the claim has it take the empty string. *)
Lemma validate_raises_without_text :
  text (mkData None (Some ["y"])) = None
  /\ validate (mkData None (Some ["y"])) sample = Throw TypeError.
Proof. split; reflexivity. Qed.

(** Merge without tags, and merge without text. *)
Example merge_raises_without_tags :
  merge (mkData (Some "B") None) sample = Throw TypeError.
Proof. reflexivity. Qed.

Example merge_without_text :
  observe (after (merge (mkData None (Some []))) (Ok sample))
  = Ok ("Aundefined", ["y"]).
Proof. reflexivity. Qed.

(* ================================================================== *)
(** ** What a call changes *)
(* ================================================================== *)

Section Frame.

Lemma same_block_refl (w : World) : same_block w w.
Proof. unfold same_block. repeat split; reflexivity. Qed.

Lemma same_block_trans (w1 w2 w3 : World) :
  same_block w1 w2 -> same_block w2 w3 -> same_block w1 w3.
Proof.
  intros (A1 & A2 & A3 & A4 & A5 & A6 & A7) (B1 & B2 & B3 & B4 & B5 & B6 & B7).
  unfold same_block. repeat split; try congruence.
  intros h H1 H2. rewrite B7, A7; congruence.
Qed.

Lemma same_block_mounted (w w' : World) :
  same_block w w' -> mounted w -> mounted w'.
Proof.
  intros (A1 & A2 & A3 & A4 & A5 & A6 & A7) (H1 & H2 & H3 & H4).
  unfold mounted. rewrite A1, A2, A5, A6. repeat split; assumption.
Qed.

Lemma same_block_set__data (w : World) (d : ParagraphData) :
  same_block w (set__data d w).
Proof. unfold same_block. repeat split; reflexivity. Qed.

(** An update of the text region that keeps the kind of the element. *)
Lemma same_block_on_text (w : World) f :
  mounted w -> (forall e, tagName (f e) = tagName e) ->
  same_block w (on_element (_textElement (this w)) f w).
Proof.
  intros (H1 & H2 & H3 & H4) Hf. unfold same_block.
  rewrite (on_element_text_of w f H1), Hf.
  unfold on_element. cbn [document this]. rewrite update_length.
  repeat split. intros h N1 N2. now apply lookup_update_other.
Qed.

Lemma same_block_written (w : World) (d : ParagraphData) :
  mounted w -> same_block w (written w d).
Proof.
  intros Hm. unfold same_block.
  rewrite (written_text_of w d Hm), (written_length w d).
  repeat split. intros h N1 N2.
  unfold written, on_element. cbn [document this set__data].
  rewrite !lookup_update_other by congruence. reflexivity.
Qed.

Lemma toggle_runs (w : World) (t : string) :
  _toggleTag t w
  = Ok (tt, written w
              (mkData (Some (read_text w))
                 (Some (if includes (read_tags w) t
                        then splice1 (read_tags w) (indexOf (read_tags w) t)
                        else push (read_tags w) t)))).
Proof.
  unfold _toggleTag, bind. rewrite get_data_reads. cbn [tags the ret].
  destruct (includes (read_tags w) t); reflexivity.
Qed.

(** Every call that returns leaves a state of the same block. *)
Lemma perform_same_block (c : call) (w w' : World) :
  mounted w -> perform c w = Ok (tt, w') -> same_block w w'.
Proof.
  intros Hm H. destruct c as [d| | |d|d|e|t|e|ns]; cbn [perform] in H.
  - rewrite set_data_runs in H. inversion H. now apply same_block_written.
  - unfold bind in H. rewrite get_data_reads in H. inversion H.
    apply same_block_set__data.
  - inversion H. apply same_block_refl.
  - destruct d as [tx [tg|]]; [|discriminate H].
    rewrite merge_runs in H. inversion H. now apply same_block_written.
  - unfold bind in H. destruct (validate d w) as [[b w1]|x] eqn:E; [|discriminate H].
    inversion H. subst w1. destruct d as [[t|] tg]; [|discriminate E].
    rewrite validate_runs in E. inversion E. apply same_block_refl.
  - rewrite onPaste_runs in H. inversion H. now apply same_block_written.
  - rewrite toggle_runs in H. inversion H. now apply same_block_written.
  - unfold onKeyUp in H.
    destruct (negb (String.eqb (code e) "Backspace")
              && negb (String.eqb (code e) "Delete"));
      [inversion H; apply same_block_refl|].
    destruct (String.eqb
                (get_textContent (lookup (document w) (_textElement (this w)))) "");
      inversion H; [|apply same_block_refl].
    now apply same_block_on_text.
  - inversion H. now apply same_block_on_text.
Qed.

Lemma perform_all_same_block (cs : list call) (w w' : World) :
  mounted w -> perform_all cs w = Ok (tt, w') -> same_block w w'.
Proof.
  revert w. induction cs as [|c cs IH]; intros w Hm H; cbn [perform_all] in H.
  - inversion H. apply same_block_refl.
  - unfold bind in H. destruct (perform c w) as [[[] w1]|x] eqn:E; [|discriminate H].
    pose proof (perform_same_block c w w1 Hm E) as S1.
    apply (same_block_trans w w1 w'); [exact S1|].
    apply IH; [now apply (same_block_mounted w w1) | exact H].
Qed.

Lemma render_times_runs (n : nat) (w : World) :
  render_times n w = Ok (repeat (_containerElement (this w)) n, w).
Proof.
  induction n as [|n IH]; [reflexivity|].
  cbn [render_times repeat]. unfold bind, render, gets.
  unfold render, gets in IH. now rewrite IH.
Qed.

(** The flag that validation consults is the configured one, for the
    life of the block. *)
Lemma preserveBlank_is_configured (ps : Params) (doc : Document) (w : World)
    (cs : list call) (w' : World) :
  constructor ps doc = Ok w -> perform_all cs w = Ok (tt, w') ->
  _preserveBlank (this w') = flag_or_default (preserveBlank (config ps)).
Proof.
  intros Hc Hp. apply constructor_inv in Hc. subst w.
  pose proof (perform_all_same_block cs _ w' (built_mounted ps doc) Hp)
    as (_ & _ & _ & S4 & _).
  now rewrite S4.
Qed.

End Frame.

(** C9.  [render] returns the wrapping container that the constructor
    built: the element made last by [drawView], whose children are the
    text region and the tag strip.  Whatever calls the block has served,
    any number of calls of [render] in a row return this same element
    every time and leave the block and the document as they are, the
    container and its children included. *)
Theorem render_returns_same_container (ps : Params) (doc : Document)
    (w : World) (cs : list call) (w' : World) (n : nat) :
  constructor ps doc = Ok w ->
  perform_all cs w = Ok (tt, w') ->
  let c := length doc + 2 in
  length doc <= c
  /\ lookup (document w) c = container_div (length doc)
  /\ childElements (lookup (document w) c)
     = [_textElement (this w); _tagsElement (this w)]
  /\ render w = Ok (c, w)
  /\ render_times n w' = Ok (repeat c n, w')
  /\ lookup (document w') c = lookup (document w) c.
Proof.
  intros Hc Hp c. apply constructor_inv in Hc. subst w.
  pose proof (built_mounted ps doc) as Hm.
  pose proof (same_block_written _ (saved ps) (fresh_mounted ps doc))
    as (_ & _ & _ & _ & _ & _ & F).
  assert (L : lookup (document (written (fresh ps doc) (saved ps))) c
              = container_div (length doc)).
  { rewrite F by (cbn; lia). unfold fresh, lookup. cbn [document].
    unfold c. now rewrite app_nth2_plus. }
  pose proof (perform_all_same_block cs _ w' Hm Hp)
    as (_ & _ & S3 & _ & _ & _ & S7).
  split; [unfold c; lia|]. split; [exact L|].
  split; [rewrite L; cbn; now rewrite Nat.add_1_r|].
  split; [reflexivity|].
  split; [rewrite render_times_runs, S3; reflexivity|].
  apply S7; cbn; lia.
Qed.

Lemma render_returns_same_container_witness :
  constructor (mkParams (mkData (Some "A") (Some ["y"])) (mkConfig None None) host false) []
  = Ok sample
  /\ (exists w',
        perform_all [Toggle "x"; Merge (mkData (Some "B") (Some ["z"])); KeyUp (mkKey "Delete")]
                    sample = Ok (tt, w')
        /\ render sample = Ok (2, sample)
        /\ render_times 3 w' = Ok ([2; 2; 2], w')).
Proof.
  assert (Hc : constructor (mkParams (mkData (Some "A") (Some ["y"]))
                              (mkConfig None None) host false) [] = Ok sample)
    by reflexivity.
  split; [exact Hc|].
  eexists. split; [vm_compute; reflexivity|].
  match goal with
  | |- _ /\ render_times 3 ?w' = _ =>
      destruct (render_returns_same_container _ [] sample
                  [Toggle "x"; Merge (mkData (Some "B") (Some ["z"]));
                   KeyUp (mkKey "Delete")] w' 3 Hc)
        as (_ & _ & _ & H4 & H5 & _); [vm_compute; reflexivity|]
  end.
  split; [exact H4 | exact H5].
Defined.

(* ================================================================== *)
(** ** Tag toggling and the tags invariant *)
(* ================================================================== *)

Section Toggling.

Lemma remove_first_identifiers (ts : list string) (t : string) :
  Forall identifier ts -> Forall identifier (remove_first t ts).
Proof.
  intros H. apply Forall_forall. intros x Hx.
  apply remove_first_In in Hx. apply (proj1 (Forall_forall _ _) H x Hx).
Qed.

Lemma remove_first_pushed (ts : list string) (t : string) :
  ~ In t ts -> remove_first t (ts ++ [t]) = ts.
Proof.
  induction ts as [|y ts IH]; intros H; cbn.
  - now rewrite String.eqb_refl.
  - destruct (String.eqb y t) eqn:E.
    + apply String.eqb_eq in E. subst. exfalso. apply H. now left.
    + rewrite IH; [reflexivity|]. intros Hin. apply H. now right.
Qed.

Lemma count_pushed (ts : list string) (t : string) :
  ~ In t ts -> count_occ string_dec (ts ++ [t]) t = 1.
Proof.
  intros H. rewrite count_occ_app.
  rewrite (proj1 (count_occ_not_In string_dec ts t) H). cbn.
  destruct (string_dec t t); [reflexivity | congruence].
Qed.

Lemma toggled_identifiers (ts : list string) (t : string) :
  Forall identifier ts -> identifier t -> Forall identifier (toggled ts t).
Proof.
  intros H Ht. unfold toggled. destruct (includes ts t).
  - now apply remove_first_identifiers.
  - apply Forall_app. split; [exact H | now constructor].
Qed.

Lemma toggled_NoDup (ts : list string) (t : string) :
  NoDup ts -> NoDup (toggled ts t).
Proof.
  intros H. unfold toggled. destruct (includes ts t) eqn:E.
  - now apply remove_first_NoDup.
  - apply NoDup_push; [exact H | now apply includes_false].
Qed.

Lemma toggled_member (ts : list string) (t : string) :
  NoDup ts -> includes (toggled ts t) t = negb (includes ts t).
Proof.
  intros H. unfold toggled. destruct (includes ts t) eqn:E; cbn [negb].
  - apply includes_false. now apply remove_first_NoDup.
  - apply includes_In, in_app_iff. right. now left.
Qed.

Lemma toggled_others (ts : list string) (t x : string) :
  x <> t -> (In x (toggled ts t) <-> In x ts).
Proof.
  intros N. unfold toggled. destruct (includes ts t).
  - split; [apply remove_first_In | now apply remove_first_other].
  - rewrite in_app_iff. cbn. split; [intros [H|[H|[]]]; congruence | tauto].
Qed.

Lemma toggle_shown (w : World) (ts : list string) (t : string) :
  mounted w -> shows w ts -> Forall identifier ts -> identifier t ->
  exists w1,
    _toggleTag t w = Ok (tt, w1)
    /\ mounted w1 /\ shows w1 (toggled ts t) /\ read_tags w1 = toggled ts t.
Proof.
  intros Hm Hsh Hi Ht. eexists. split; [apply toggle_runs|].
  rewrite (shows_read_tags w ts Hsh Hi).
  assert (E : (if includes ts t then splice1 ts (indexOf ts t) else push ts t)
              = toggled ts t).
  { unfold toggled. destruct (includes ts t) eqn:I;
      [now apply splice1_indexOf | reflexivity]. }
  rewrite E.
  set (d := mkData (Some (read_text w)) (Some (toggled ts t))).
  pose proof (toggled_identifiers ts t Hi Ht) as Hi'.
  split; [now apply written_mounted|].
  split; [now apply (written_shows w d Hm)|].
  now apply (read_identifiers w d Hm).
Qed.

(** The same for a block whose tags are read as identifiers, whatever
    the markup of its tag strip. *)
Lemma toggle_reads (w : World) (t : string) :
  mounted w -> Forall identifier (read_tags w) -> identifier t ->
  exists w1,
    _toggleTag t w = Ok (tt, w1)
    /\ mounted w1 /\ shows w1 (toggled (read_tags w) t)
    /\ read_tags w1 = toggled (read_tags w) t.
Proof.
  intros Hm Hi Ht. eexists. split; [apply toggle_runs|].
  assert (E : forall ts,
             (if includes ts t then splice1 ts (indexOf ts t) else push ts t)
             = toggled ts t).
  { intros ts. unfold toggled. destruct (includes ts t) eqn:I;
      [now apply splice1_indexOf | reflexivity]. }
  rewrite E.
  set (d := mkData (Some (read_text w)) (Some (toggled (read_tags w) t))).
  pose proof (toggled_identifiers _ t Hi Ht) as Hi'.
  assert (R : read_tags (written w d) = toggled (read_tags w) t)
    by exact (read_identifiers w d Hm Hi').
  split; [now apply written_mounted|].
  split; [exact (written_shows w d Hm Hi')|].
  exact R.
Qed.

End Toggling.

(** C7, as amended.  For every identifier and every block whose tags,
    as the getter reads them, are identifiers without duplicates, toggling
    the tag twice in succession returns its membership, and the
    membership of every other tag, to what it was; toggling an absent tag
    adds it exactly once, at the end, and the second toggle then gives
    back the tags as they were; toggling a present tag removes it.  No
    toggle leaves a duplicate. *)
Theorem toggle_twice_restores_membership (w : World) (t : string) :
  mounted w -> NoDup (read_tags w) -> Forall identifier (read_tags w) ->
  identifier t ->
  let ts := read_tags w in
  exists w1 w2,
    _toggleTag t w = Ok (tt, w1)
    /\ _toggleTag t w1 = Ok (tt, w2)
    /\ includes (read_tags w2) t = includes ts t
    /\ (forall x, In x (read_tags w2) <-> In x ts)
    /\ NoDup (read_tags w1) /\ NoDup (read_tags w2)
    /\ (includes ts t = false ->
        read_tags w1 = ts ++ [t]
        /\ count_occ string_dec (read_tags w1) t = 1
        /\ read_tags w2 = ts)
    /\ (includes ts t = true ->
        read_tags w1 = remove_first t ts
        /\ includes (read_tags w1) t = false
        /\ read_tags w2 = remove_first t ts ++ [t]).
Proof.
  intros Hm Hnd Hi Ht ts.
  destruct (toggle_reads w t Hm Hi Ht) as (w1 & R1 & Hm1 & Hsh1 & T1).
  fold ts in Hsh1, T1.
  pose proof (toggled_identifiers ts t Hi Ht) as Hi1.
  pose proof (toggled_NoDup ts t Hnd) as Hnd1.
  destruct (toggle_shown w1 _ t Hm1 Hsh1 Hi1 Ht) as (w2 & R2 & Hm2 & Hsh2 & T2).
  pose proof (toggled_NoDup _ t Hnd1) as Hnd2.
  exists w1, w2. rewrite T1, T2.
  split; [exact R1|]. split; [exact R2|].
  split.
  { rewrite (toggled_member _ t Hnd1), (toggled_member ts t Hnd).
    apply negb_involutive. }
  split.
  { intros x. destruct (string_dec x t) as [->|N].
    - rewrite <- !includes_In.
      rewrite (toggled_member _ t Hnd1), (toggled_member ts t Hnd), negb_involutive.
      tauto.
    - now rewrite !(toggled_others _ t x N). }
  split; [exact Hnd1|]. split; [exact Hnd2|].
  split; intros E.
  - assert (A : toggled ts t = ts ++ [t]) by (unfold toggled; now rewrite E).
    apply includes_false in E.
    rewrite A. split; [reflexivity|]. split; [now apply count_pushed|].
    unfold toggled.
    replace (includes (ts ++ [t]) t) with true
      by (symmetry; apply includes_In, in_app_iff; right; now left).
    now apply remove_first_pushed.
  - assert (A : toggled ts t = remove_first t ts) by (unfold toggled; now rewrite E).
    rewrite A. split; [reflexivity|].
    assert (B : includes (remove_first t ts) t = false)
      by (apply includes_false; now apply remove_first_NoDup).
    split; [exact B|]. unfold toggled. now rewrite B.
Qed.

Lemma toggle_twice_restores_membership_witness :
  mounted sample /\ NoDup (read_tags sample)
  /\ Forall identifier (read_tags sample) /\ identifier "feature"
  /\ exists w1 w2,
       _toggleTag "feature" sample = Ok (tt, w1)
       /\ _toggleTag "feature" w1 = Ok (tt, w2)
       /\ read_tags w1 = ["y"; "feature"]
       /\ read_tags w2 = ["y"].
Proof.
  assert (Hm : mounted sample)
    by (unfold mounted; cbn; repeat split; [repeat constructor.. | discriminate]).
  assert (Hnd : NoDup (read_tags sample)) by (constructor; [intros [] | constructor]).
  assert (Hi : Forall identifier (read_tags sample)) by (repeat constructor).
  assert (Ht : identifier "feature") by reflexivity.
  split; [exact Hm|]. split; [exact Hnd|].
  split; [exact Hi|]. split; [exact Ht|].
  destruct (toggle_twice_restores_membership sample "feature" Hm Hnd Hi Ht)
    as (w1 & w2 & H1 & H2 & _ & _ & _ & _ & H8 & _).
  destruct (H8 eq_refl) as (A & _ & B).
  exists w1, w2. repeat split; assumption.
Defined.

(** A tag that is not an identifier is not found again: toggled twice
    it is there twice. *)
Example toggle_of_markup_tag :
  observe (after (_toggleTag "Q&A") (after (_toggleTag "Q&A") (Ok sample)))
  = Ok ("A", ["y"; "Q&amp;A"; "Q&amp;A"]).
Proof. reflexivity. Qed.

(** C7, as stated, fails: in a block made from the tags [a], [a], the
    tag [a] is present; toggled twice it is absent. *)
Lemma toggle_twice_loses_membership :
  observe (block "A" ["a"; "a"]) = Ok ("A", ["a"; "a"])
  /\ observe (after (_toggleTag "a") (block "A" ["a"; "a"])) = Ok ("A", ["a"])
  /\ observe (after (_toggleTag "a") (after (_toggleTag "a") (block "A" ["a"; "a"])))
     = Ok ("A", [])
  /\ includes ["a"; "a"] "a" = true
  /\ includes [] "a" = false.
Proof. repeat split. Qed.

Section Invariant.

Lemma tidy_written (w : World) (d : ParagraphData) :
  mounted w -> NoDup (or_nil (tags d)) -> Forall identifier (or_nil (tags d)) ->
  tidy (written w d).
Proof.
  intros Hm Hnd Hi. split; [now apply written_mounted|].
  exists (or_nil (tags d)). split; [now apply written_shows | now split].
Qed.

Lemma tidy_same_strip (w w' : World) :
  same_block w w' -> strip_of w' = strip_of w -> tidy w -> tidy w'.
Proof.
  intros S E (Hm & ts & Hsh & Hnd & Hi). split.
  - now apply (same_block_mounted w w').
  - exists ts. unfold shows in *. now rewrite E.
Qed.

(** The constructor leaves a tidy block when the saved tags are
    identifiers without duplicates. *)
Lemma constructor_tidy (ps : Params) (doc : Document) (w : World) :
  NoDup (or_nil (tags (data ps))) ->
  Forall identifier (or_nil (tags (data ps))) ->
  constructor ps doc = Ok w -> tidy w.
Proof.
  intros Hnd Hi Hc. apply constructor_inv in Hc. subst w.
  apply tidy_written; [apply fresh_mounted | exact Hnd | exact Hi].
Qed.

(** Every admissible call keeps the block tidy. *)
Lemma perform_tidy (c : call) (w w' : World) :
  tidy w -> admissible c -> perform c w = Ok (tt, w') -> tidy w'.
Proof.
  intros T A H.
  pose proof T as (Hm & ts & Hsh & Hnd & Hi).
  pose proof (shows_read_tags w ts Hsh Hi) as R.
  destruct c as [d| | |d|d|e|t|e|ns]; cbn [perform] in H.
  - rewrite set_data_runs in H. inversion H.
    destruct d as [d|]; cbn [admissible record_or_default] in *.
    + destruct A as (A1 & A2). now apply tidy_written.
    + apply tidy_written; [exact Hm | constructor | constructor].
  - apply (tidy_same_strip w w'); [now apply (perform_same_block GetData)| |exact T].
    unfold bind in H. rewrite get_data_reads in H. now inversion H.
  - inversion H. subst w'. exact T.
  - destruct d as [tx [tg|]]; [|discriminate H].
    rewrite merge_runs in H. inversion H. cbn [admissible tags or_nil] in A.
    rewrite R, new_Set_keep_first.
    apply tidy_written; [exact Hm | apply keep_first_NoDup|].
    apply keep_first_identifiers, Forall_app. now split.
  - apply (tidy_same_strip w w'); [now apply (perform_same_block (Validate d))| |exact T].
    unfold bind in H. destruct (validate d w) as [[b w1]|x] eqn:E; [|discriminate H].
    inversion H. subst w1. destruct d as [[t|] tg]; [|discriminate E].
    rewrite validate_runs in E. now inversion E.
  - rewrite onPaste_runs in H. inversion H. rewrite R.
    now apply tidy_written.
  - cbn [admissible] in A.
    destruct (toggle_shown w ts t Hm Hsh Hi A) as (w1 & R1 & Hm1 & Hsh1 & _).
    rewrite R1 in H. inversion H. subst w1.
    split; [exact Hm1|]. exists (toggled ts t).
    split; [exact Hsh1|].
    split; [now apply toggled_NoDup | now apply toggled_identifiers].
  - apply (tidy_same_strip w w'); [now apply (perform_same_block (KeyUp e))| |exact T].
    destruct Hm as (H1 & H2 & H3 & H4). unfold onKeyUp in H.
    destruct (negb (String.eqb (code e) "Backspace")
              && negb (String.eqb (code e) "Delete"));
      [now inversion H|].
    destruct (String.eqb
                (get_textContent (lookup (document w) (_textElement (this w)))) "");
      inversion H; [|reflexivity].
    now apply on_element_strip_of.
  - apply (tidy_same_strip w w'); [now apply (perform_same_block (Edit ns))| |exact T].
    destruct Hm as (H1 & H2 & H3 & H4). inversion H.
    now apply on_element_strip_of.
Qed.

Lemma reachable_tidy (w : World) : reachable w -> tidy w.
Proof.
  induction 1 as [ps doc w Hnd Hi Hc | w c w' _ IH A H].
  - now apply (constructor_tidy ps doc).
  - now apply (perform_tidy c w w').
Qed.

(** A reachable block answers every admissible call that carries its
    fields. *)
Lemma tidy_reads (w : World) :
  tidy w -> exists ts, read_tags w = ts /\ NoDup ts /\ Forall identifier ts.
Proof.
  intros (Hm & ts & Hsh & Hnd & Hi). exists ts.
  split; [now apply shows_read_tags | now split].
Qed.

End Invariant.

(** C2, as amended.  In a block made from tags that are identifiers
    without duplicates, the tags that the data getter reads have no
    duplicates after construction and after every call that follows,
    provided that the tags of every data setter write are identifiers
    without duplicates and the tags of every merge and the tag of every
    toggle are identifiers; a paste, a key-up, an edit of the text by the
    user, a read, a render or a validation may be any.  Neither the
    constructor nor the data setter removes a duplicate: tags that are
    identifiers are read as they were given, duplicates included. *)
Theorem tags_have_no_duplicates :
  (forall w,
      reachable w ->
      exists d w' ts,
        get_data w = Ok (d, w')
        /\ tags d = Some ts
        /\ NoDup ts
        /\ reachable w')
  /\ (forall ps doc w,
         Forall identifier (or_nil (tags (data ps))) ->
         constructor ps doc = Ok w ->
         read_tags w = or_nil (tags (data ps)))
  /\ (forall w d,
         mounted w -> Forall identifier (or_nil (tags d)) ->
         exists w',
           set_data (Some d) w = Ok (tt, w')
           /\ read_tags w' = or_nil (tags d)).
Proof.
  split; [|split].
  - intros w H. pose proof (reachable_tidy w H) as T.
    destruct (tidy_reads w T) as (ts & R & Hnd & _).
    exists (mkData (Some (read_text w)) (Some ts)).
    eexists. exists ts. rewrite get_data_reads, R.
    split; [reflexivity|]. split; [reflexivity|]. split; [exact Hnd|].
    apply (reach_call w GetData); [exact H | exact I|].
    cbn [perform]. unfold bind. now rewrite get_data_reads, R.
  - intros ps doc w Hi Hc. apply constructor_inv in Hc. subst w.
    rewrite (read_identifiers (fresh ps doc) (saved ps) (fresh_mounted ps doc));
      cbn [saved tags or_nil]; [reflexivity | exact Hi].
  - intros w d Hm Hi. eexists. split; [apply set_data_writes|].
    exact (read_identifiers w d Hm Hi).
Qed.

Lemma tags_have_no_duplicates_witness :
  reachable sample_merged
  /\ Forall identifier (or_nil (Some ["a"; "a"]))
  /\ mounted sample
  /\ (exists d w',
        get_data sample_merged = Ok (d, w')
        /\ tags d = Some ["y"; "x"; "z"]
        /\ NoDup ["y"; "x"; "z"])
  /\ (exists w',
        set_data (Some (mkData (Some "A") (Some ["a"; "a"]))) sample = Ok (tt, w')
        /\ read_tags w' = ["a"; "a"]).
Proof.
  assert (R : reachable sample_merged).
  { apply (reach_call sample_toggled
             (Merge (mkData (Some "B") (Some ["x"; "z"; "z"])))).
    - apply (reach_call sample (Toggle "x")).
      + apply (reach_new
                 (mkParams (mkData (Some "A") (Some ["y"])) (mkConfig None None)
                           host false) []).
        * constructor; [intros [] | constructor].
        * repeat constructor.
        * vm_compute. reflexivity.
      + reflexivity.
      + vm_compute. reflexivity.
    - repeat constructor.
    - vm_compute. reflexivity. }
  assert (Hi : Forall identifier (or_nil (Some ["a"; "a"]))) by (repeat constructor).
  assert (Hm : mounted sample)
    by (unfold mounted; cbn; repeat split; [repeat constructor.. | discriminate]).
  split; [exact R|]. split; [exact Hi|]. split; [exact Hm|].
  destruct tags_have_no_duplicates as (A & _ & C).
  split.
  - destruct (A _ R) as (d & w' & ts & H1 & H2 & H3 & _).
    exists d, w'. split; [exact H1|].
    assert (E : Some ts = Some ["y"; "x"; "z"]).
    { rewrite <- H2. vm_compute in H1. inversion H1. reflexivity. }
    inversion E. subst ts. split; [exact H2 | exact H3].
  - exact (C sample (mkData (Some "A") (Some ["a"; "a"])) Hm Hi).
Defined.

(** C2, as stated, fails: a block made from the tags [a], [a] reads the
    tags [a], [a], and so does a block whose data setter was given them. *)
Lemma duplicates_from_constructor_and_setter :
  observe (block "A" ["a"; "a"]) = Ok ("A", ["a"; "a"])
  /\ observe (after (set_data (Some (mkData (Some "A") (Some ["a"; "a"]))))
                    (block "" []))
     = Ok ("A", ["a"; "a"])
  /\ ~ NoDup ["a"; "a"].
Proof.
  repeat split. intros H. inversion H as [|x l Hin _]. apply Hin. now left.
Qed.

(* ================================================================== *)
(** ** Further properties of the class *)
(* ================================================================== *)

Import Cover.

Section Updates.

Lemma update_update (doc : Document) (h : handle) f g :
  update (update doc h f) h g = update doc h (fun e => g (f e)).
Proof.
  revert h. induction doc as [|e doc IH]; intros [|h]; simpl; auto.
  now rewrite IH.
Qed.

Lemma update_comm (doc : Document) (h h' : handle) f g :
  h <> h' ->
  update (update doc h f) h' g = update (update doc h' g) h f.
Proof.
  revert h h'.
  induction doc as [|e doc IH]; intros [|h] [|h'] N; simpl; auto; try congruence.
  rewrite IH; [reflexivity | congruence].
Qed.

Lemma update_ext (doc : Document) (h : handle) f g :
  (forall e, f e = g e) -> update doc h f = update doc h g.
Proof.
  intros E. revert h. induction doc as [|e doc IH]; intros [|h]; simpl; auto.
  - now rewrite E.
  - now rewrite IH.
Qed.

Lemma written_twice (w : World) (d1 d2 : ParagraphData) :
  written (written w d1) d2 = written w d2.
Proof.
  destruct w as [doc p]. unfold written, on_element.
  cbn [document this set__data _textElement _tagsElement].
  f_equal.
  set (F1 := set_innerHTML (or_empty (text d1))).
  set (G1 := set_innerHTML (join (map tag_markup (or_nil (tags d1))))).
  set (F2 := set_innerHTML (or_empty (text d2))).
  set (G2 := set_innerHTML (join (map tag_markup (or_nil (tags d2))))).
  destruct (Nat.eq_dec (_textElement p) (_tagsElement p)) as [E|N].
  - rewrite <- E. rewrite !update_update. apply update_ext. reflexivity.
  - rewrite (update_comm (update doc (_textElement p) F1) (_tagsElement p)
               (_textElement p) G1 F2) by congruence.
    rewrite !update_update.
    rewrite (update_ext (update doc (_textElement p) (fun e => F2 (F1 e)))
               (_tagsElement p) (fun e => G2 (G1 e)) G2) by reflexivity.
    reflexivity.
Qed.

End Updates.

(** X1.  The data setter is a full replace: a write after another write
    leaves the state that it leaves alone, whatever the earlier record,
    nullish records included. *)
Theorem setter_last_write_wins (w : World) (d1 d2 : option ParagraphData) :
  bind (set_data d1) (fun _ => set_data d2) w = set_data d2 w.
Proof.
  unfold bind. rewrite !set_data_runs. now rewrite written_twice.
Qed.

Section FlatContent.

Lemma kept_tests (c : ascii) :
  kept c = true -> is_chr c "000" = false /\ is_chr c "013" = false.
Proof.
  unfold kept. intros H. apply andb_true_iff in H as [A B].
  apply negb_true_iff in A, B. now split.
Qed.

Lemma escape_kept_sanitized (d r : string) :
  all_chars kept d = true -> sanitized r = true ->
  sanitized (escape false d ++ r) = true.
Proof.
  intros Hd Hr. induction d as [|c d IH]; [exact Hr|].
  cbn [all_chars] in Hd. apply andb_true_iff in Hd as [Hc Hd].
  specialize (IH Hd). apply kept_tests in Hc as [K0 K1].
  cbn [escape]. rewrite append_assoc.
  destruct (is_chr c "&") eqn:E1.
  { apply sanitized_piece; [cbn; tauto | exact IH]. }
  destruct (charCode c =? 160)%nat eqn:E2.
  { apply sanitized_piece; [cbn; tauto | exact IH]. }
  destruct (is_chr c "<") eqn:E3.
  { apply sanitized_piece; [cbn; tauto | exact IH]. }
  destruct (is_chr c ">") eqn:E4.
  { apply sanitized_piece; [cbn; tauto | exact IH]. }
  cbn [andb append].
  assert (L : literal c = true).
  { unfold literal. now rewrite E1, E2, E3, E4, K0, K1. }
  cbn [sanitized]. now rewrite L.
Qed.

Lemma serialize_flat_sanitized (n : node) (r : string) :
  flat n = true -> sanitized r = true ->
  sanitized (serialize false n ++ r) = true.
Proof.
  intros Hn Hr. destruct n as [d|d|name attrs children]; cbn [flat] in Hn.
  - cbn [serialize]. now apply escape_kept_sanitized.
  - discriminate Hn.
  - destruct attrs; [|discriminate Hn]. destruct children; [|discriminate Hn].
    apply String.eqb_eq in Hn. subst name.
    change (serialize false (Element "br" [] [])) with "<br>".
    apply sanitized_piece; [cbn; tauto | exact Hr].
Qed.

Lemma flat_sanitized (ns : list node) :
  forallb flat ns = true ->
  sanitized (join (map (serialize false) ns)) = true.
Proof.
  induction ns as [|n ns IH]; intros H; [reflexivity|].
  cbn [forallb] in H. apply andb_true_iff in H as [Hn Hs].
  cbn [map join]. 
  apply serialize_flat_sanitized; auto.
Qed.

End FlatContent.

Section ReadBack.

Lemma read_text_mounted (w : World) :
  mounted w -> read_text w = join (map (serialize false) (childNodes (text_of w))).
Proof.
  intros (_ & _ & _ & H). unfold read_text, get_innerHTML. now rewrite H.
Qed.

Lemma read_flat (w : World) :
  mounted w -> forallb flat (childNodes (text_of w)) = true ->
  sanitized (read_text w) = true.
Proof.
  intros Hm Hf. rewrite (read_text_mounted w Hm). now apply flat_sanitized.
Qed.

(** The state after a write of what the block shows. *)
Lemma rewritten_reads (w : World) (tg : list string) :
  mounted w -> forallb flat (childNodes (text_of w)) = true ->
  Forall identifier tg ->
  let w' := written w (mkData (Some (read_text w)) (Some tg)) in
  mounted w' /\ read_text w' = read_text w /\ read_tags w' = tg /\ shows w' tg.
Proof.
  intros Hm Hf Hg w'. subst w'.
  set (d := mkData (Some (read_text w)) (Some tg)).
  split; [now apply written_mounted|].
  split.
  { rewrite (read_sanitized w d Hm); unfold d; cbn [text]; rewrite or_empty_some;
      [reflexivity | now apply read_flat]. }
  split; [exact (read_identifiers w d Hm Hg)|].
  exact (written_shows w d Hm Hg).
Qed.

End ReadBack.

(** X2.  Read, then written back: when the children of the text region
    are text nodes without the characters U+0000 and CR and [br] elements
    without attributes, and the tags that the getter reads are
    identifiers, the setter given the record that the getter returned
    leaves a block that reads the same text and the same tags, and whose
    tag strip holds one element for each tag. *)
Theorem write_back_of_a_read (w : World) :
  mounted w -> forallb flat (childNodes (text_of w)) = true ->
  Forall identifier (read_tags w) ->
  exists w',
    bind get_data (fun d => bind (set_data (Some d)) (fun _ => ret d)) w
    = Ok (mkData (Some (read_text w)) (Some (read_tags w)), w')
    /\ read_text w' = read_text w
    /\ read_tags w' = read_tags w
    /\ shows w' (read_tags w).
Proof.
  intros Hm Hf Hi.
  unfold bind. rewrite get_data_reads.
  set (d := mkData (Some (read_text w)) (Some (read_tags w))).
  rewrite set_data_writes. cbn [ret].
  exists (written (set__data d w) d). split; [reflexivity|].
  assert (E : written (set__data d w) d = written w d) by reflexivity.
  rewrite E.
  destruct (rewritten_reads w (read_tags w) Hm Hf Hi) as (_ & A & B & C).
  repeat split; assumption.
Qed.

Ltac mounted_by_evaluation :=
  unfold mounted; cbn; repeat split; [repeat constructor.. | discriminate].

Lemma write_back_of_a_read_witness :
  mounted sample /\ forallb flat (childNodes (text_of sample)) = true
  /\ Forall identifier (read_tags sample)
  /\ exists w',
       bind get_data (fun d => bind (set_data (Some d)) (fun _ => ret d)) sample
       = Ok (mkData (Some (read_text sample)) (Some (read_tags sample)), w')
       /\ read_text w' = read_text sample
       /\ read_tags w' = read_tags sample
       /\ shows w' (read_tags sample).
Proof.
  assert (Hm : mounted sample) by mounted_by_evaluation.
  assert (Hf : forallb flat (childNodes (text_of sample)) = true) by reflexivity.
  assert (Hi : Forall identifier (read_tags sample)) by (repeat constructor).
  split; [exact Hm|]. split; [exact Hf|]. split; [exact Hi|].
  exact (write_back_of_a_read sample Hm Hf Hi).
Defined.

(** X3.  The getter reads the view, not the cache: whatever [_data]
    holds, after the user has edited the text region the getter returns
    the serialised content of the region and the tags of the strip,
    stores that record as [_data], leaves the document as it is, and
    returns the same on a second read. *)
Theorem getter_reads_the_view (w : World) (cache : ParagraphData) (ns : list node) :
  mounted w ->
  exists w1 w2,
    perform (Edit ns) (set__data cache w) = Ok (tt, w1)
    /\ get_data w1
       = Ok (mkData (Some (serializeChildren "div" ns)) (Some (read_tags w)), w2)
    /\ _data (this w2)
       = mkData (Some (serializeChildren "div" ns)) (Some (read_tags w))
    /\ document w2 = document w1
    /\ get_data w2
       = Ok (mkData (Some (serializeChildren "div" ns)) (Some (read_tags w)), w2).
Proof.
  intros Hm. pose proof Hm as (H1 & H2 & H3 & H4).
  eexists. eexists. split; [reflexivity|].
  set (w1 := on_element _ _ _).
  assert (Em : mounted (set__data cache w)) by now apply set__data_mounted.
  assert (T : text_of w1 = set_childNodes ns (text_of w)).
  { unfold w1. cbn [this set__data _textElement].
    exact (on_element_text_of (set__data cache w) (set_childNodes ns) H1). }
  assert (S : strip_of w1 = strip_of w).
  { unfold w1. cbn [this set__data _textElement].
    exact (on_element_strip_of (set__data cache w) (set_childNodes ns) H3). }
  assert (R1 : read_text w1 = serializeChildren "div" ns).
  { unfold read_text, get_innerHTML. rewrite T. cbn [set_childNodes tagName childNodes].
    now rewrite H4. }
  assert (R2 : read_tags w1 = read_tags w).
  { unfold read_tags. now rewrite S. }
  assert (G : forall d, get_data (set__data d w1)
             = Ok (mkData (Some (serializeChildren "div" ns)) (Some (read_tags w)),
                   set__data (mkData (Some (serializeChildren "div" ns))
                                     (Some (read_tags w))) w1)).
  { intros d. rewrite get_data_reads.
    change (read_text (set__data d w1)) with (read_text w1).
    change (read_tags (set__data d w1)) with (read_tags w1).
    now rewrite R1, R2. }
  split; [exact (G (_data (this w1)))|].
  repeat split. apply G.
Qed.

Lemma getter_reads_the_view_witness :
  mounted sample
  /\ exists w1 w2,
       perform (Edit [Text "a<b"; Element "br" [] []])
               (set__data (mkData (Some "stale") None) sample) = Ok (tt, w1)
       /\ get_data w1 = Ok (mkData (Some "a&lt;b<br>") (Some ["y"]), w2).
Proof.
  assert (Hm : mounted sample) by mounted_by_evaluation.
  split; [exact Hm|].
  destruct (getter_reads_the_view sample (mkData (Some "stale") None)
              [Text "a<b"; Element "br" [] []] Hm)
    as (w1 & w2 & A & B & _).
  exists w1, w2. split; [exact A | exact B].
Defined.

(** X4.  The key-up handler changes markup only: it never touches
    [this], the tag strip or the text content of the text region; a
    region with text content is left as it is; and the handler run a
    second time changes nothing more. *)
Theorem keyup_changes_markup_only (w : World) (e : KeyboardEvent) :
  mounted w ->
  exists w',
    onKeyUp e w = Ok (tt, w')
    /\ this w' = this w
    /\ strip_of w' = strip_of w
    /\ get_textContent (text_of w') = get_textContent (text_of w)
    /\ (get_textContent (text_of w) <> "" -> w' = w)
    /\ onKeyUp e w' = Ok (tt, w').
Proof.
  intros (H1 & H2 & H3 & H4). unfold onKeyUp.
  destruct (negb (String.eqb (code e) "Backspace")
            && negb (String.eqb (code e) "Delete")) eqn:Ek.
  - exists w. cbn [ret]. repeat split.
  - fold (text_of w).
    destruct (String.eqb (get_textContent (text_of w)) "") eqn:Et.
    + apply String.eqb_eq in Et.
      set (w' := on_element (_textElement (this w)) (set_innerHTML "") w).
      assert (T : text_of w' = set_innerHTML "" (text_of w))
        by exact (on_element_text_of w (set_innerHTML "") H1).
      exists w'. split; [reflexivity|]. split; [reflexivity|].
      split; [exact (on_element_strip_of w (set_innerHTML "") H3)|].
      split; [rewrite T, Et; reflexivity|].
      split; [intros N; now elim N|].
      change (lookup (document w') (_textElement (this w'))) with (text_of w').
      rewrite T.
      change (get_textContent (set_innerHTML "" (text_of w))) with "".
      cbn [String.eqb]. f_equal. f_equal.
      unfold w', on_element. cbn [document this]. f_equal.
      rewrite update_update. apply update_ext. reflexivity.
    + exists w. repeat split.
      change (lookup (document w) (_textElement (this w))) with (text_of w).
      now rewrite Et.
Qed.

Lemma keyup_changes_markup_only_witness :
  mounted (world_of (block "<br>" ["y"]))
  /\ exists w',
       onKeyUp (mkKey "Delete") (world_of (block "<br>" ["y"])) = Ok (tt, w')
       /\ strip_of w' = strip_of (world_of (block "<br>" ["y"]))
       /\ onKeyUp (mkKey "Delete") w' = Ok (tt, w').
Proof.
  assert (Hm : mounted (world_of (block "<br>" ["y"]))) by mounted_by_evaluation.
  split; [exact Hm|].
  destruct (keyup_changes_markup_only (world_of (block "<br>" ["y"]))
              (mkKey "Delete") Hm) as (w' & A & _ & B & _ & _ & C).
  exists w'. repeat split; assumption.
Defined.

(** X5.  Validation of a concatenation: the text [a ++ b], which is
    what a merge stores, is accepted exactly when [a] or [b] is, whatever
    the tags of the three records. *)
Theorem validate_of_concatenation (w : World) (a b : string)
    (tg1 tg2 tg3 : option (list string)) :
  exists x y,
    validate (mkData (Some a) tg1) w = Ok (x, w)
    /\ validate (mkData (Some b) tg2) w = Ok (y, w)
    /\ validate (mkData (Some (a ++ b)%string) tg3) w = Ok (x || y, w).
Proof.
  rewrite !validate_runs. eexists. eexists.
  split; [reflexivity|]. split; [reflexivity|]. f_equal. f_equal.
  destruct (_preserveBlank (this w)); cbn [negb]; rewrite ?andb_false_r; [reflexivity|].
  rewrite !andb_true_r.
  assert (E : forall s, String.eqb (trim s) "" = all_chars isWhiteSpace s).
  { intros s. destruct (String.eqb (trim s) "") eqn:E1.
    - apply String.eqb_eq in E1. symmetry. now apply trim_empty.
    - destruct (all_chars isWhiteSpace s) eqn:E2; [|reflexivity].
      apply trim_empty in E2. apply String.eqb_neq in E1. contradiction. }
  rewrite !E, all_chars_app. now rewrite negb_andb.
Qed.

(** X6.  Key-up and validation together: after Backspace or Delete in
    a text region without text content, the record that the getter
    returns has the empty text, and [validate] accepts it only when
    blank blocks are preserved. *)
Theorem cleared_block_is_rejected (w : World) (e : KeyboardEvent) :
  mounted w ->
  code e = "Backspace" \/ code e = "Delete" ->
  get_textContent (text_of w) = "" ->
  exists w1 d w2,
    onKeyUp e w = Ok (tt, w1)
    /\ get_data w1 = Ok (d, w2)
    /\ text d = Some ""
    /\ validate d w2 = Ok (_preserveBlank (this w), w2).
Proof.
  intros Hm Hc Ht. pose proof Hm as (H1 & H2 & H3 & H4).
  set (w1 := on_element (_textElement (this w)) (set_innerHTML "") w).
  assert (R : onKeyUp e w = Ok (tt, w1)).
  { assert (K : negb (String.eqb (code e) "Backspace")
                 && negb (String.eqb (code e) "Delete") = false)
      by (destruct Hc as [Hc|Hc]; rewrite Hc; reflexivity).
    unfold onKeyUp. rewrite K. cbv beta. fold (text_of w). now rewrite Ht. }
  assert (T : read_text w1 = "").
  { unfold read_text. unfold w1. rewrite (on_element_text_of w (set_innerHTML "") H1).
    unfold get_innerHTML. cbn [set_innerHTML tagName childNodes]. now rewrite H4. }
  exists w1. eexists. eexists. split; [exact R|].
  rewrite get_data_reads, T. split; [reflexivity|]. split; [reflexivity|].
  rewrite validate_runs. cbn [trim trimStart trimEnd String.eqb andb].
  now rewrite negb_involutive.
Qed.

Lemma cleared_block_is_rejected_witness :
  mounted (world_of (block "<br>" ["y"]))
  /\ (code (mkKey "Backspace") = "Backspace" \/ code (mkKey "Backspace") = "Delete")
  /\ get_textContent (text_of (world_of (block "<br>" ["y"]))) = ""
  /\ exists w1 d w2,
       onKeyUp (mkKey "Backspace") (world_of (block "<br>" ["y"])) = Ok (tt, w1)
       /\ get_data w1 = Ok (d, w2)
       /\ validate d w2 = Ok (false, w2).
Proof.
  assert (Hm : mounted (world_of (block "<br>" ["y"]))) by mounted_by_evaluation.
  assert (Hc : code (mkKey "Backspace") = "Backspace" \/ code (mkKey "Backspace") = "Delete")
    by (left; reflexivity).
  assert (Ht : get_textContent (text_of (world_of (block "<br>" ["y"]))) = "")
    by reflexivity.
  split; [exact Hm|]. split; [exact Hc|]. split; [exact Ht|].
  destruct (cleared_block_is_rejected (world_of (block "<br>" ["y"]))
              (mkKey "Backspace") Hm Hc Ht) as (w1 & d & w2 & A & B & _ & C).
  exists w1, d, w2. repeat split; assumption.
Defined.

Section MergeTwice.

Lemma keep_first_absorbs (x c : list string) :
  keep_first (keep_first x ++ c) = keep_first (x ++ c).
Proof.
  unfold keep_first. rewrite !keep_first_after_app. cbn [app].
  fold (keep_first x). fold (keep_first (keep_first x)).
  rewrite (keep_first_id (keep_first x)) by apply keep_first_NoDup.
  f_equal. apply keep_first_after_ext. intros y.
  destruct (includes x y) eqn:E.
  - apply (proj2 (includes_In _ _)). apply (proj2 (keep_first_In _ _)).
    now apply (proj1 (includes_In _ _)).
  - apply includes_false. intros H. apply (proj1 (keep_first_In _ _)) in H.
    apply (proj1 (includes_false _ _)) in E. contradiction.
Qed.

End MergeTwice.

(** X7.  Two merges in a row are one merge of the concatenated record:
    the same state results, element for element, when the block shows
    sanitized text and identifiers and the first record brings such. *)
Theorem merge_twice_is_one_merge (w : World) (ts : list string)
    (t1 t2 : string) (g1 g2 : list string) :
  mounted w ->
  sanitized (read_text w) = true -> sanitized t1 = true ->
  shows w ts -> Forall identifier ts -> Forall identifier g1 ->
  bind (merge (mkData (Some t1) (Some g1)))
       (fun _ => merge (mkData (Some t2) (Some g2))) w
  = merge (mkData (Some (t1 ++ t2)%string) (Some (g1 ++ g2))) w.
Proof.
  intros Hm Hr H1 Hs Hi Hg.
  pose proof (shows_read_tags w ts Hs Hi) as Rt.
  unfold bind. rewrite (merge_runs w (Some t1) g1). cbv beta iota.
  rewrite !merge_runs. cbn [plus].
  set (d1 := mkData (Some (read_text w ++ t1)%string)
                    (Some (new_Set (read_tags w ++ g1)))).
  rewrite written_twice.
  assert (A : read_text (written w d1) = (read_text w ++ t1)%string).
  { rewrite (read_sanitized w d1 Hm); unfold d1; cbn [text]; rewrite or_empty_some;
      [reflexivity | now apply sanitized_app]. }
  assert (I : Forall identifier (new_Set (read_tags w ++ g1))).
  { rewrite new_Set_keep_first. apply keep_first_identifiers.
    rewrite Rt. apply Forall_app. now split. }
  assert (B : read_tags (written w d1) = new_Set (read_tags w ++ g1)).
  { exact (read_identifiers w d1 Hm I). }
  rewrite A, B, append_assoc.
  rewrite !new_Set_keep_first, keep_first_absorbs, <- app_assoc.
  reflexivity.
Qed.

Lemma merge_twice_is_one_merge_witness :
  mounted sample /\ sanitized (read_text sample) = true /\ sanitized "B<br>" = true
  /\ shows sample ["y"] /\ Forall identifier ["y"] /\ Forall identifier ["x"; "y"]
  /\ bind (merge (mkData (Some "B<br>") (Some ["x"; "y"])))
          (fun _ => merge (mkData (Some "<i>C</i>") (Some ["x"; "Q&A"]))) sample
     = merge (mkData (Some "B<br><i>C</i>") (Some ["x"; "y"; "x"; "Q&A"])) sample.
Proof.
  assert (Hm : mounted sample) by mounted_by_evaluation.
  assert (Hr : sanitized (read_text sample) = true) by reflexivity.
  assert (H1 : sanitized "B<br>" = true) by reflexivity.
  assert (Hs : shows sample ["y"]) by reflexivity.
  assert (Hi : Forall identifier ["y"]) by (repeat constructor).
  assert (Hg : Forall identifier ["x"; "y"]) by (repeat constructor).
  split; [exact Hm|]. split; [exact Hr|]. split; [exact H1|].
  split; [exact Hs|]. split; [exact Hi|]. split; [exact Hg|].
  exact (merge_twice_is_one_merge sample ["y"] "B<br>" "<i>C</i>" ["x"; "y"]
           ["x"; "Q&A"] Hm Hr H1 Hs Hi Hg).
Defined.




Section ToggleOrder.

Lemma remove_token_remove_first (t : string) (ts : list string) :
  remove_token t (remove_first t ts) = remove_token t ts.
Proof.
  induction ts as [|y ts IH]; [reflexivity|].
  cbn [remove_first remove_token filter].
  destruct (String.eqb y t) eqn:E; cbn [negb].
  - reflexivity.
  - cbn [filter]. rewrite E. cbn [negb]. f_equal. exact IH.
Qed.

Lemma remove_token_pushed (t : string) (ts : list string) :
  remove_token t (ts ++ [t]) = remove_token t ts.
Proof.
  unfold remove_token. rewrite filter_app. cbn [filter].
  rewrite String.eqb_refl. cbn [negb]. apply app_nil_r.
Qed.

Lemma remove_token_toggled (t : string) (ts : list string) :
  remove_token t (toggled ts t) = remove_token t ts.
Proof.
  unfold toggled. destruct (includes ts t);
    [apply remove_token_remove_first | apply remove_token_pushed].
Qed.

End ToggleOrder.

(** X10.  A toggle leaves the rest alone: when the children of the text
    region are text nodes without the characters U+0000 and CR and [br]
    elements without attributes, the tags that the getter reads are
    identifiers and the toggled tag is an identifier, then after the
    toggle the text read is the same, the other tags are read in the same
    order, and the number of tags has gone down by one when the tag was
    present and up by one when it was not. *)
Theorem toggle_keeps_text_and_order (w : World) (t : string) :
  mounted w -> forallb flat (childNodes (text_of w)) = true ->
  Forall identifier (read_tags w) -> identifier t ->
  exists w',
    _toggleTag t w = Ok (tt, w')
    /\ read_text w' = read_text w
    /\ remove_token t (read_tags w') = remove_token t (read_tags w)
    /\ length (read_tags w')
       = if includes (read_tags w) t then length (read_tags w) - 1
         else length (read_tags w) + 1.
Proof.
  intros Hm Hf Hi Ht.
  destruct (toggle_reads w t Hm Hi Ht) as (w1 & R & _ & _ & Tg).
  exists w1. split; [exact R|].
  rewrite toggle_runs in R. inversion R as [E]. clear R.
  split.
  { set (d := mkData _ _).
    rewrite (read_sanitized w d Hm); unfold d; cbn [text]; rewrite or_empty_some;
      [reflexivity | now apply read_flat]. }
  rewrite E, Tg. split; [apply remove_token_toggled|].
  unfold toggled. generalize (read_tags w) as ts. intros ts.
  destruct (includes ts t) eqn:Ei.
  - clear - Ei. induction ts as [|y ts IH]; [discriminate Ei|].
    cbn [includes remove_first] in *. destruct (String.eqb y t).
    + cbn [length]. lia.
    + specialize (IH Ei). cbn [length]. rewrite IH.
      destruct ts; [discriminate Ei | cbn [length]; lia].
  - now rewrite length_app.
Qed.


Lemma toggle_keeps_text_and_order_witness :
  mounted sample /\ forallb flat (childNodes (text_of sample)) = true
  /\ Forall identifier (read_tags sample) /\ identifier "persona"
  /\ exists w',
       _toggleTag "persona" sample = Ok (tt, w')
       /\ read_text w' = read_text sample
       /\ remove_token "persona" (read_tags w') = remove_token "persona" (read_tags sample).
Proof.
  assert (Hm : mounted sample) by mounted_by_evaluation.
  assert (Hf : forallb flat (childNodes (text_of sample)) = true) by reflexivity.
  assert (Hi : Forall identifier (read_tags sample)) by (repeat constructor).
  assert (Ht : identifier "persona") by reflexivity.
  split; [exact Hm|]. split; [exact Hf|].
  split; [exact Hi|]. split; [exact Ht|].
  destruct (toggle_keeps_text_and_order sample "persona" Hm Hf Hi Ht)
    as (w' & A & B & C & _).
  exists w'. repeat split; assumption.
Defined.

Section ViewKept.

Lemma same_attributes_refl (e : HTMLElement) : same_attributes e e.
Proof. unfold same_attributes. repeat split. Qed.

Lemma same_attributes_trans (e1 e2 e3 : HTMLElement) :
  same_attributes e1 e2 -> same_attributes e2 e3 -> same_attributes e1 e3.
Proof.
  intros (A1 & A2 & A3 & A4 & A5) (B1 & B2 & B3 & B4 & B5).
  unfold same_attributes. repeat split; congruence.
Qed.

Lemma content_only_set_innerHTML (s : string) : content_only (set_innerHTML s).
Proof. intros e. split; [unfold same_attributes; repeat split | reflexivity]. Qed.

Lemma content_only_set_childNodes (ns : list node) : content_only (set_childNodes ns).
Proof.
  intros e. split; [unfold same_attributes; repeat split | intros H; exact H].
Qed.

Lemma kept_view_refl (w : World) : kept_view w w.
Proof.
  unfold kept_view. split; [exists (_data (this w)); now destruct w as [doc []]|].
  split; [apply same_attributes_refl|]. split; [apply same_attributes_refl|]. tauto.
Qed.

Lemma kept_view_trans (w1 w2 w3 : World) :
  kept_view w1 w2 -> kept_view w2 w3 -> kept_view w1 w3.
Proof.
  intros ((d1 & A1) & A2 & A3 & A4 & A5) ((d2 & B1) & B2 & B3 & B4 & B5).
  unfold kept_view.
  split; [exists d2; rewrite B1; cbn [set__data this]; rewrite A1; reflexivity|].
  split; [now apply (same_attributes_trans _ (text_of w2))|].
  split; [now apply (same_attributes_trans _ (strip_of w2))|].
  split; auto.
Qed.

Lemma kept_view_set__data (w : World) (d : ParagraphData) :
  kept_view w (set__data d w).
Proof.
  unfold kept_view. split; [now exists d|].
  split; [apply same_attributes_refl|]. split; [apply same_attributes_refl|]. tauto.
Qed.

Lemma kept_view_on_text (w : World) f :
  mounted w -> content_only f ->
  kept_view w (on_element (_textElement (this w)) f w).
Proof.
  intros (H1 & H2 & H3 & H4) Hf. unfold kept_view.
  rewrite (on_element_text_of w f H1), (on_element_strip_of w f H3).
  split; [exists (_data (this w)); now destruct w as [doc []]|].
  split; [apply Hf|]. split; [apply same_attributes_refl|].
  split; [apply Hf | tauto].
Qed.

Lemma kept_view_written (w : World) (d : ParagraphData) :
  mounted w -> kept_view w (written w d).
Proof.
  intros Hm. unfold kept_view.
  rewrite (written_text_of w d Hm), (written_strip_of w d Hm).
  split; [now exists d|].
  split; [apply content_only_set_innerHTML|].
  split; [apply content_only_set_innerHTML|].
  split; reflexivity.
Qed.

Lemma perform_kept_view (c : call) (w w' : World) :
  mounted w -> perform c w = Ok (tt, w') -> kept_view w w'.
Proof.
  intros Hm H. destruct c as [d| | |d|d|e|t|e|ns]; cbn [perform] in H.
  - rewrite set_data_runs in H. inversion H. now apply kept_view_written.
  - unfold bind in H. rewrite get_data_reads in H. inversion H.
    apply kept_view_set__data.
  - inversion H. apply kept_view_refl.
  - destruct d as [tx [tg|]]; [|discriminate H].
    rewrite merge_runs in H. inversion H. now apply kept_view_written.
  - unfold bind in H. destruct (validate d w) as [[b w1]|x] eqn:E; [|discriminate H].
    inversion H. subst w1. destruct d as [[t|] tg]; [|discriminate E].
    rewrite validate_runs in E. inversion E. apply kept_view_refl.
  - rewrite onPaste_runs in H. inversion H. now apply kept_view_written.
  - rewrite toggle_runs in H. inversion H. now apply kept_view_written.
  - unfold onKeyUp in H.
    destruct (negb (String.eqb (code e) "Backspace")
              && negb (String.eqb (code e) "Delete"));
      [inversion H; apply kept_view_refl|].
    destruct (String.eqb
                (get_textContent (lookup (document w) (_textElement (this w)))) "");
      inversion H; [|apply kept_view_refl].
    apply kept_view_on_text; [exact Hm | apply content_only_set_innerHTML].
  - inversion H.
    apply kept_view_on_text; [exact Hm | apply content_only_set_childNodes].
Qed.

Lemma perform_all_kept_view (cs : list call) (w w' : World) :
  mounted w -> perform_all cs w = Ok (tt, w') -> kept_view w w'.
Proof.
  revert w. induction cs as [|c cs IH]; intros w Hm H; cbn [perform_all] in H.
  - inversion H. apply kept_view_refl.
  - unfold bind in H. destruct (perform c w) as [[[] w1]|x] eqn:E; [|discriminate H].
    apply (kept_view_trans w w1 w'); [now apply (perform_kept_view c)|].
    apply IH; [|exact H].
    apply (same_block_mounted w w1); [now apply (perform_same_block c) | exact Hm].
Qed.

Lemma fresh_text_of (ps : Params) (doc : Document) :
  text_of (fresh ps doc)
  = text_div (api ps) "ce-paragraph" (styles_block (api ps)) (readOnly ps)
      (or_empty (placeholder (config ps))).
Proof. unfold text_of, fresh. cbn [document this _textElement]. apply lookup_new. Qed.

Lemma fresh_strip_of (ps : Params) (doc : Document) :
  strip_of (fresh ps doc) = tags_div.
Proof.
  unfold strip_of, fresh. cbn [document this _tagsElement].
  set (e := text_div _ _ _ _ _).
  change (doc ++ [e; tags_div; container_div (length doc)])
    with (doc ++ [e] ++ [tags_div; container_div (length doc)]).
  rewrite app_assoc.
  replace (length doc + 1) with (length (doc ++ [e]))
    by (rewrite length_app; reflexivity).
  apply lookup_new.
Qed.

End ViewKept.

(** X11.  The attributes of the view are those of construction for the
    life of the block: the text region is editable and listens to key-up
    exactly when the block is not read-only, its placeholder is the
    translation of the configured one (of the empty string when none is
    configured), it carries the wrapper class and the host's block class,
    and the tag strip carries [ce-tags] only; no call changes any of
    these. *)
Theorem view_attributes_are_for_life (ps : Params) (doc : Document) (w : World)
    (cs : list call) (w' : World) :
  constructor ps doc = Ok w -> perform_all cs w = Ok (tt, w') ->
  contentEditable (text_of w') = Some (negb (readOnly ps))
  /\ listeners (text_of w') = (if readOnly ps then [] else ["keyup"])
  /\ onKeyUp_bound (this w') = negb (readOnly ps)
  /\ dataset_placeholder (text_of w')
     = Some (i18n_t (api ps) (text_or_default (placeholder (config ps))))
  /\ classList (text_of w') = Set_add ["ce-paragraph"] (styles_block (api ps))
  /\ classList (strip_of w') = ["ce-tags"]
  /\ contentEditable (strip_of w') = None
  /\ listeners (strip_of w') = [].
Proof.
  intros Hc Hp. apply constructor_inv in Hc. subst w.
  pose proof (perform_all_kept_view cs _ w' (built_mounted ps doc) Hp) as K.
  pose proof (kept_view_written (fresh ps doc) (saved ps) (fresh_mounted ps doc)) as K0.
  destruct (kept_view_trans _ _ _ K0 K)
    as ((d & T) & (_ & A2 & A3 & A4 & A5) & (_ & B2 & B3 & _ & B5) & _).
  rewrite fresh_text_of in A2, A3, A4, A5. rewrite fresh_strip_of in B2, B3, B5.
  rewrite A2, A3, A4, A5, B2, B3, B5, T, <- or_empty_default.
  repeat split.
Qed.

Lemma view_attributes_are_for_life_witness :
  constructor reader [] = Ok sample_reader
  /\ perform_all calls sample_reader = Ok (tt, sample_reader_later)
  /\ contentEditable (text_of sample_reader_later) = Some false
  /\ listeners (text_of sample_reader_later) = []
  /\ dataset_placeholder (text_of sample_reader_later) = Some "Write"
  /\ classList (text_of sample_reader_later) = ["ce-paragraph"; "cdx-block"].
Proof.
  assert (Hc : constructor reader [] = Ok sample_reader) by (vm_compute; reflexivity).
  assert (Hp : perform_all calls sample_reader = Ok (tt, sample_reader_later))
    by (vm_compute; reflexivity).
  split; [exact Hc|]. split; [exact Hp|].
  destruct (view_attributes_are_for_life reader [] sample_reader calls
              sample_reader_later Hc Hp) as (A & B & _ & C & D & _).
  repeat split; assumption.
Defined.

(** X12.  A block keeps to its own three elements: the constructor adds
    the text region, the tag strip and the container at the end of the
    document, and neither it nor any setter write, read, render, merge,
    validation, paste, tag toggle, key-up or edit of the text that follows
    changes the number of elements, the block's references or any element
    that was there before.  ([renderSettings] is the method that adds
    elements: see X14.) *)
Theorem block_keeps_to_its_elements (ps : Params) (doc : Document) (w : World)
    (cs : list call) (w' : World) :
  constructor ps doc = Ok w -> perform_all cs w = Ok (tt, w') ->
  _textElement (this w') = length doc
  /\ _tagsElement (this w') = length doc + 1
  /\ _containerElement (this w') = length doc + 2
  /\ length (document w') = length doc + 3
  /\ (forall h, h < length doc -> lookup (document w') h = lookup doc h).
Proof.
  intros Hc Hp. apply constructor_inv in Hc. subst w.
  pose proof (same_block_written (fresh ps doc) (saved ps) (fresh_mounted ps doc)) as S0.
  pose proof (perform_all_same_block cs _ w' (built_mounted ps doc) Hp) as S1.
  destruct (same_block_trans _ _ _ S0 S1) as (A1 & A2 & A3 & _ & A5 & _ & A7).
  cbn [fresh this document _textElement _tagsElement _containerElement] in A1, A2, A3, A5, A7.
  rewrite A1, A2, A3, A5, length_app.
  repeat split; try reflexivity.
  intros h Hh. rewrite A7 by lia. unfold lookup. now apply app_nth1.
Qed.

Lemma block_keeps_to_its_elements_witness :
  constructor reader [tags_div] = Ok (world_of (constructor reader [tags_div]))
  /\ perform_all calls (world_of (constructor reader [tags_div]))
     = Ok (tt, world_of (after (perform_all calls) (constructor reader [tags_div])))
  /\ _textElement (this (world_of (after (perform_all calls) (constructor reader [tags_div])))) = 1
  /\ lookup (document (world_of (after (perform_all calls) (constructor reader [tags_div])))) 0
     = tags_div.
Proof.
  assert (Hc : constructor reader [tags_div] = Ok (world_of (constructor reader [tags_div])))
    by (vm_compute; reflexivity).
  assert (Hp : perform_all calls (world_of (constructor reader [tags_div]))
     = Ok (tt, world_of (after (perform_all calls) (constructor reader [tags_div]))))
    by (vm_compute; reflexivity).
  split; [exact Hc|]. split; [exact Hp|].
  destruct (block_keeps_to_its_elements reader [tags_div] _ calls _ Hc Hp)
    as (A & _ & _ & _ & B).
  split; [exact A|]. apply (B 0). repeat constructor.
Defined.

(** X13.  What the constructor does with the host's block class: an
    empty class makes [classList.add] throw a [SyntaxError], a class with
    white space an [InvalidCharacterError], and with any other class the
    block is built and the saved data written. *)
Theorem constructor_outcome (ps : Params) (doc : Document) :
  constructor ps doc
  = match styles_block (api ps) with
    | EmptyString => Throw SyntaxError
    | String _ _ =>
        if has_whitespace (styles_block (api ps)) then Throw InvalidCharacterError
        else Ok (written (fresh ps doc) (saved ps))
    end.
Proof.
  pose proof (check_wrapper (styles_block (api ps))) as C.
  destruct (styles_block (api ps)) as [|c b] eqn:E.
  - unfold constructor. rewrite E.
    now rewrite (drawView_throws _ _ _ _ _ SyntaxError C).
  - destruct (has_whitespace (String c b)) eqn:W.
    + unfold constructor. rewrite E.
      now rewrite (drawView_throws _ _ _ _ _ InvalidCharacterError C).
    + apply constructor_runs. unfold valid_token. rewrite E, W. reflexivity.
Qed.

Section Panel.

Lemma lookup_app_l (doc r : Document) (h : handle) :
  h < length doc -> lookup (doc ++ r) h = lookup doc h.
Proof. intros H. unfold lookup. now apply app_nth1. Qed.

Lemma update_app_l (doc r : Document) (h : handle) f :
  h < length doc -> update (doc ++ r) h f = update doc h f ++ r.
Proof.
  revert h. induction doc as [|e doc IH]; intros h H; cbn [length] in H; [lia|].
  destruct h as [|h]; cbn [app update]; [reflexivity|].
  rewrite IH by lia. reflexivity.
Qed.

Lemma update_at_end (doc : Document) (n : nat) (e : HTMLElement)
    (rest : list HTMLElement) f :
  length doc = n -> update (doc ++ e :: rest) n f = doc ++ f e :: rest.
Proof. intros <-. apply update_new. Qed.

Lemma update_id (doc : Document) (h : handle) f :
  (forall e, f e = e) -> update doc h f = doc.
Proof.
  intros E. revert h. induction doc as [|e doc IH]; intros [|h]; cbn [update];
    try reflexivity; [now rewrite E | now rewrite IH].
Qed.

Lemma update_lookup (doc : Document) (h : handle) f :
  update doc h (fun _ => f (lookup doc h)) = update doc h f.
Proof.
  revert h. induction doc as [|e doc IH]; intros [|h]; cbn [update]; try reflexivity.
  f_equal. exact (IH h).
Qed.

(** A change of another element and more elements at the end leave what
    the block shows. *)
Lemma elsewhere_reads (w : World) (h : handle) f (r : Document) (p : Paragraph) :
  mounted w ->
  h <> _textElement (this w) -> h <> _tagsElement (this w) ->
  _textElement p = _textElement (this w) ->
  _tagsElement p = _tagsElement (this w) ->
  let w' := mkWorld (update (document w) h f ++ r) p in
  text_of w' = text_of w /\ strip_of w' = strip_of w /\ mounted w'.
Proof.
  intros (H1 & H2 & H3 & H4) N1 N2 E1 E2 w'.
  assert (T : text_of w' = text_of w).
  { unfold text_of, w'. cbn [document this]. rewrite E1.
    rewrite lookup_app_l by (now rewrite update_length).
    now apply lookup_update_other. }
  assert (St : strip_of w' = strip_of w).
  { unfold strip_of, w'. cbn [document this]. rewrite E2.
    rewrite lookup_app_l by (now rewrite update_length).
    now apply lookup_update_other. }
  split; [exact T|]. split; [exact St|].
  unfold mounted. rewrite T. unfold w'. cbn [document this].
  rewrite E1, E2, length_app, update_length. repeat split; try lia; assumption.
Qed.

Lemma shown_elsewhere (w : World) (h : handle) f (r : Document) (p : Paragraph) :
  mounted w ->
  h <> _textElement (this w) -> h <> _tagsElement (this w) ->
  _textElement p = _textElement (this w) ->
  _tagsElement p = _tagsElement (this w) ->
  let w' := mkWorld (update (document w) h f ++ r) p in
  read_text w' = read_text w /\ read_tags w' = read_tags w /\ mounted w'.
Proof.
  intros Hm N1 N2 E1 E2 w'.
  destruct (elsewhere_reads w h f r p Hm N1 N2 E1 E2) as (T & St & M).
  fold w' in T, St, M. unfold read_text, read_tags. rewrite T, St.
  split; [reflexivity|]. split; [reflexivity | exact M].
Qed.

Lemma settings_button_runs (w : World) (wrapper : handle) (name : string) :
  mounted w -> wrapper < length (document w) ->
  settings_button wrapper name w
  = Ok (tt, mkWorld
              (update (document w) wrapper (appendChild (length (document w)))
               ++ [button_div name (includes (read_tags w) name)])
              (this (set__data (shown w) w))).
Proof.
  intros Hm Hw. pose proof Hm as (H1 & H2 & H3 & H4).
  destruct w as [doc p]. cbn [document this] in *.
  unfold settings_button, bind, in_document, create, createElement.
  cbn [document this].
  set (blank := mkElement "div" [] None None [] [] []).
  rewrite get_data_reads.
  set (w0 := mkWorld (doc ++ [blank]) p).
  assert (R1 : read_text w0 = read_text (mkWorld doc p)).
  { unfold read_text, text_of, w0. cbn [document this]. now rewrite lookup_app_l. }
  assert (R2 : read_tags w0 = read_tags (mkWorld doc p)).
  { unfold read_tags, strip_of, w0. cbn [document this]. now rewrite lookup_app_l. }
  rewrite R1, R2. cbn [tags the document this set__data].
  set (rt := read_tags _) in *. set (rx := read_text _) in *.
  cbn [ret]. unfold w0. cbn [document this set__data].
  unfold toggle_class_force. rewrite (lookup_new doc blank []).
  unfold classList_toggle_force.
  change (check_tokens [active]) with (@None exn). cbv iota beta.
  rewrite (update_new doc blank []). cbn [document this].
  unfold on_doc, modify. cbn [document this].
  rewrite (update_new doc _ []). cbn [document this].
  rewrite update_app_l by exact Hw.
  rewrite (update_at_end _ (length doc)) by apply update_length.
  unfold button_div. destruct (includes rt name); reflexivity.
Qed.

Lemma panel_buttons (names : list string) (w : World) (wrapper : handle) :
  mounted w -> wrapper < length (document w) ->
  wrapper <> _textElement (this w) -> wrapper <> _tagsElement (this w) ->
  forEach names (settings_button wrapper) w
  = Ok (tt, mkWorld
              (update (document w) wrapper
                 (appendChildren (seq (length (document w)) (length names)))
               ++ map (fun name => button_div name (includes (read_tags w) name)) names)
              (match names with
               | [] => this w
               | _ => this (set__data (shown w) w)
               end)).
Proof.
  revert w. induction names as [|name names IH]; intros w Hm Hw N1 N2.
  - cbn [forEach ret length seq map]. rewrite app_nil_r.
    rewrite update_id by reflexivity. now destruct w.
  - cbn [forEach]. unfold bind. rewrite (settings_button_runs w wrapper name Hm Hw).
    set (b := button_div name (includes (read_tags w) name)).
    set (w1 := mkWorld _ _).
    destruct (shown_elsewhere w wrapper (appendChild (length (document w))) [b]
                (this (set__data (shown w) w)) Hm N1 N2 eq_refl eq_refl)
      as (R1 & R2 & M1).
    fold w1 in R1, R2, M1.
    assert (L1 : length (document w1) = S (length (document w))).
    { unfold w1. cbn [document]. rewrite length_app, update_length. cbn [length]. lia. }
    rewrite (IH w1 M1); [| rewrite L1; lia | exact N1 | exact N2].
    rewrite L1, R2. f_equal. f_equal.
    assert (S1 : shown w1 = shown w) by (unfold shown; now rewrite R1, R2).
    f_equal.
    + unfold w1. cbn [document].
      rewrite update_app_l by (now rewrite update_length).
      rewrite update_update. cbn [length seq map appendChildren fold_left].
      rewrite <- app_assoc. reflexivity.
    + destruct names; [reflexivity|]. rewrite S1. reflexivity.
Qed.

End Panel.

Lemma renderSettings_runs (w : World) :
  mounted w ->
  renderSettings w
  = Ok (length (document w),
        mkWorld
          (document w
           ++ panel_div (length (document w))
              :: map (fun name => button_div name (includes (read_tags w) name))
                     settings)
          (this (set__data (shown w) w))).
Proof.
  intros Hm. pose proof Hm as (H1 & H2 & H3 & H4).
  unfold renderSettings, bind, in_document, create, createElement.
  set (blank := mkElement "div" [] None None [] [] []).
  set (w0 := mkWorld (document w ++ [blank]) (this w)).
  assert (M0 : mounted w0).
  { unfold mounted, text_of, w0. cbn [document this]. rewrite length_app.
    rewrite lookup_app_l by exact H1. repeat split; try lia; assumption. }
  assert (R0 : read_tags w0 = read_tags w).
  { unfold read_tags, strip_of, w0. cbn [document this]. now rewrite lookup_app_l. }
  assert (R1 : read_text w0 = read_text w).
  { unfold read_text, text_of, w0. cbn [document this]. now rewrite lookup_app_l. }
  assert (L0 : length (document w0) = length (document w) + 1).
  { unfold w0. cbn [document]. now rewrite length_app. }
  change (forEach settings (settings_button (length (document w)))
            (mkWorld (document w ++ [blank]) (this w)))
    with (forEach settings (settings_button (length (document w))) w0).
  rewrite (panel_buttons settings w0 (length (document w)) M0);
    [| rewrite L0; lia | cbn [w0 this]; lia | cbn [w0 this]; lia].
  rewrite R0, L0. unfold shown. rewrite R0, R1. fold (shown w).
  unfold settings at 3. cbn match.
  unfold w0 at 1. cbn [document].
  rewrite update_new. cbn [length settings seq appendChildren fold_left].
  rewrite <- app_assoc. cbn [app].
  unfold panel_div, appendChild, blank, ret. cbn.
  replace (S (length (document w) + 1)) with (length (document w) + 2) by lia.
  replace (S (length (document w) + 2)) with (length (document w) + 3) by lia.
  reflexivity.
Qed.

(** X14.  The settings panel: in a document of [n] elements
    [renderSettings] returns the new element [n], a wrapper whose
    children are three new buttons, one for each of the settings
    [feature], [persona] and [irrelevant] in this order; a button shows
    the name of its setting, listens to clicks, and is highlighted
    exactly when the block has the tag of that name.  The elements that
    were there are left as they are, the block's own included, and the
    block reads the text and the tags that it read before. *)
Theorem settings_panel (w : World) :
  mounted w ->
  exists w',
    renderSettings w = Ok (length (document w), w')
    /\ document w'
       = document w
         ++ panel_div (length (document w))
            :: map (fun name => button_div name (includes (read_tags w) name))
                   settings
    /\ this w' = this (set__data (shown w) w)
    /\ read_text w' = read_text w
    /\ read_tags w' = read_tags w.
Proof.
  intros Hm. pose proof Hm as (H1 & H2 & _).
  rewrite (renderSettings_runs w Hm). eexists. split; [reflexivity|].
  split; [reflexivity|]. split; [reflexivity|].
  unfold read_text, read_tags, text_of, strip_of.
  cbn [document this set__data _textElement _tagsElement].
  rewrite !lookup_app_l by assumption. split; reflexivity.
Qed.

Lemma settings_panel_witness :
  mounted (world_of (after (_toggleTag "persona") (Ok sample)))
  /\ exists w',
       renderSettings (world_of (after (_toggleTag "persona") (Ok sample)))
       = Ok (3, w')
       /\ document w'
          = document (world_of (after (_toggleTag "persona") (Ok sample)))
            ++ [panel_div 3; button_div "feature" false;
                button_div "persona" true; button_div "irrelevant" false]
       /\ read_tags w' = ["y"; "persona"].
Proof.
  assert (Hm : mounted (world_of (after (_toggleTag "persona") (Ok sample))))
    by mounted_by_evaluation.
  split; [exact Hm|].
  destruct (settings_panel _ Hm) as (w' & A & B & _ & _ & C).
  exists w'. split; [exact A|]. split; [exact B | exact C].
Defined.

Section Clicks.

Lemma includes_remove_token (l : list string) (t : string) :
  includes (remove_token t l) t = false.
Proof.
  induction l as [|y l IH]; [reflexivity|].
  cbn [remove_token filter]. destruct (String.eqb y t) eqn:E; cbn [negb].
  - exact IH.
  - cbn [includes]. now rewrite E.
Qed.

Lemma includes_pushed (l : list string) (t : string) :
  includes (l ++ [t]) t = true.
Proof.
  rewrite includes_app. cbn [includes]. rewrite String.eqb_refl. apply orb_true_r.
Qed.

Lemma includes_toggled_other (ts : list string) (t x : string) :
  x <> t -> includes (toggled ts t) x = includes ts x.
Proof.
  intros N. destruct (includes ts x) eqn:E.
  - apply (proj2 (includes_In _ _)). apply (proj2 (toggled_others ts t x N)).
    now apply (proj1 (includes_In _ _)).
  - apply (proj2 (includes_false _ _)). intros H.
    apply (proj1 (toggled_others ts t x N)) in H.
    apply (proj1 (includes_false _ _)) in E. contradiction.
Qed.

Lemma click_runs (w : World) (b : handle) (name : string) :
  mounted w -> outside w b ->
  exists w1,
    _toggleTag name w = Ok (tt, w1)
    /\ settings_click b name w
       = Ok (tt, mkWorld
                   (update (document w1) b
                      (set_classList
                         (if includes (classList (lookup (document w) b)) active
                          then remove_token active (classList (lookup (document w) b))
                          else classList (lookup (document w) b) ++ [active])))
                   (this w1)).
Proof.
  intros Hm (B1 & B2 & B3).
  unfold settings_click, bind. rewrite toggle_runs.
  set (w1 := written w _).
  exists w1. split; [reflexivity|].
  pose proof (same_block_written w _ Hm : same_block w w1) as (_ & _ & _ & _ & _ & _ & S7).
  unfold in_document, toggle_class, classList_toggle.
  change (check_tokens [active]) with (@None exn). cbv iota beta.
  cbn [document this].
  rewrite <- (S7 b B2 B3).
  set (L := if includes _ active then _ else _).
  now rewrite (update_lookup (document w1) b (set_classList L)).
Qed.

(** One click: the tag is toggled, the button is toggled, and nothing
    else changes. *)
Lemma click_step (w : World) (ts : list string) (b : handle) (name : string) :
  mounted w -> shows w ts -> Forall identifier ts -> identifier name ->
  outside w b ->
  exists w',
    settings_click b name w = Ok (tt, w')
    /\ mounted w' /\ shows w' (toggled ts name)
    /\ read_tags w' = toggled ts name
    /\ length (document w') = length (document w)
    /\ _textElement (this w') = _textElement (this w)
    /\ _tagsElement (this w') = _tagsElement (this w)
    /\ includes (classList (lookup (document w') b)) active
       = negb (includes (classList (lookup (document w) b)) active)
    /\ (forall b', b' <> b -> outside w b' ->
        lookup (document w') b' = lookup (document w) b').
Proof.
  intros Hm Hs Hi Hn Ho.
  destruct (click_runs w b name Hm Ho) as (w1 & T & C).
  destruct (toggle_shown w ts name Hm Hs Hi Hn) as (w1' & T' & M1 & S1 & R1).
  rewrite T in T'. inversion T'. subst w1'. clear T'.
  pose proof (perform_same_block (Toggle name) w w1 Hm T)
    as (E1 & E2 & _ & _ & E5 & _ & E7).
  destruct Ho as (B1 & B2 & B3).
  set (f := set_classList _) in C.
  destruct (elsewhere_reads w1 b f [] (this w1) M1) as (X1 & X2 & X3);
    try congruence.
  rewrite app_nil_r in X1, X2, X3.
  eexists. split; [exact C|].
  split; [exact X3|].
  split; [unfold shows; rewrite X2; exact S1|].
  split; [unfold read_tags; rewrite X2; exact R1|].
  cbn [document this]. rewrite update_length.
  split; [exact E5|]. split; [exact E1|]. split; [exact E2|].
  split.
  - rewrite lookup_update_same by (rewrite E5; exact B1).
    rewrite (E7 b B2 B3). unfold f. cbn [set_classList classList].
    destruct (includes (classList (lookup (document w) b)) active) eqn:E.
    + apply includes_remove_token.
    + apply includes_pushed.
  - intros b' N (C1 & C2 & C3).
    rewrite lookup_update_other by congruence. now apply E7.
Qed.

Lemma NoDup_fst_unique {A B : Type} (l : list (A * B)) (a : A) (x y : B) :
  NoDup (map fst l) -> In (a, x) l -> In (a, y) l -> x = y.
Proof.
  induction l as [|[a' b'] l IH]; intros Hn Hx Hy; [destruct Hx|].
  cbn [map fst] in Hn. inversion Hn as [|? ? N1 N2]. subst.
  destruct Hx as [Hx|Hx], Hy as [Hy|Hy].
  - congruence.
  - inversion Hx. subst. elim N1. apply (in_map fst) in Hy. exact Hy.
  - inversion Hy. subst. elim N1. apply (in_map fst) in Hx. exact Hx.
  - now apply IH.
Qed.

Lemma NoDup_snd_unique {A B : Type} (l : list (A * B)) (a b : A) (x : B) :
  NoDup (map snd l) -> In (a, x) l -> In (b, x) l -> a = b.
Proof.
  induction l as [|[a' b'] l IH]; intros Hn Hx Hy; [destruct Hx|].
  cbn [map snd] in Hn. inversion Hn as [|? ? N1 N2]. subst.
  destruct Hx as [Hx|Hx], Hy as [Hy|Hy].
  - congruence.
  - inversion Hx. subst. elim N1. apply (in_map snd) in Hy. exact Hy.
  - inversion Hy. subst. elim N1. apply (in_map snd) in Hx. exact Hx.
  - now apply IH.
Qed.

(** Clicks on the buttons of a panel in sync, whose buttons and settings
    are pairwise distinct. *)
Lemma clicks_keep_sync (bs : list (handle * string)) (cs : list (handle * string)) :
  NoDup (map fst bs) -> NoDup (map snd bs) -> Forall identifier (map snd bs) ->
  incl cs bs ->
  forall (w : World) (ts : list string),
  mounted w -> shows w ts -> NoDup ts -> Forall identifier ts ->
  panel_in_sync w bs ->
  exists w' ts',
    clicks cs w = Ok (tt, w')
    /\ mounted w' /\ shows w' ts' /\ NoDup ts' /\ Forall identifier ts'
    /\ panel_in_sync w' bs.
Proof.
  intros Nb Nn Hid. induction cs as [|[b name] cs IH]; intros Hin w ts Hm Hs Hd Hi Hp.
  - exists w, ts. split; [reflexivity|]. split; [exact Hm|]. split; [exact Hs|].
    split; [exact Hd|]. split; [exact Hi | exact Hp].
  - assert (Hc : In (b, name) bs) by (apply Hin; now left).
    assert (Hin' : incl cs bs) by (intros x Hx; apply Hin; now right).
    pose proof (proj1 (Forall_forall _ _) Hp (b, name) Hc) as (Ho & Hy).
    cbn [fst snd] in Ho, Hy.
    assert (Hn : identifier name).
    { apply (proj1 (Forall_forall _ _) Hid). now apply (in_map snd) in Hc. }
    pose proof (shows_read_tags w ts Hs Hi) as Rt.
    destruct (click_step w ts b name Hm Hs Hi Hn Ho)
      as (w1 & C & M1 & S1 & R1 & L1 & T1 & G1 & A1 & O1).
    assert (P1 : panel_in_sync w1 bs).
    { apply Forall_forall. intros [b' name'] Hc'. cbn [fst snd].
      pose proof (proj1 (Forall_forall _ _) Hp (b', name') Hc') as (Ho' & Hy').
      cbn [fst snd] in Ho', Hy'.
      split.
      { destruct Ho' as (X1 & X2 & X3). unfold outside. rewrite L1, T1, G1.
        now repeat split. }
      unfold in_sync in *. rewrite R1.
      destruct (Nat.eq_dec b' b) as [Eb|Nb'].
      - subst b'. assert (name' = name) by (eapply NoDup_fst_unique; eauto).
        subst name'. rewrite A1, Hy, Rt. symmetry. now apply toggled_member.
      - assert (Nn' : name' <> name).
        { intros E. subst name'. apply Nb'. eapply NoDup_snd_unique; eauto. }
        rewrite (O1 b' Nb' Ho'), Hy', Rt. symmetry.
        now apply includes_toggled_other. }
    destruct (IH Hin' w1 (toggled ts name) M1 S1 (toggled_NoDup ts name Hd)
                (toggled_identifiers ts name Hi Hn) P1)
      as (w' & ts' & C' & X).
    exists w', ts'. split; [|exact X].
    unfold clicks. cbn [forEach fst snd]. unfold bind. rewrite C. exact C'.
Qed.

Lemma panel_made_in_sync (w : World) :
  mounted w ->
  let n := length (document w) in
  let w0 := mkWorld
              (document w
               ++ panel_div n
                  :: map (fun name => button_div name (includes (read_tags w) name))
                         settings)
              (this (set__data (shown w) w)) in
  mounted w0 /\ strip_of w0 = strip_of w /\ text_of w0 = text_of w
  /\ panel_in_sync w0 (panel_buttons_of n).
Proof.
  intros Hm n w0. pose proof Hm as (H1 & H2 & H3 & H4).
  assert (T : text_of w0 = text_of w).
  { unfold text_of, w0. cbn [document this set__data _textElement].
    now apply lookup_app_l. }
  assert (Hst : strip_of w0 = strip_of w).
  { unfold strip_of, w0. cbn [document this set__data _tagsElement].
    now apply lookup_app_l. }
  assert (L : length (document w0) = n + 4).
  { unfold w0. cbn [document]. rewrite length_app. reflexivity. }
  assert (M : mounted w0).
  { unfold mounted. rewrite T, L. cbn [w0 this set__data _textElement _tagsElement].
    fold n in H1, H2. repeat split; try lia; assumption. }
  split; [exact M|]. split; [exact Hst|]. split; [exact T|].
  assert (R : read_tags w0 = read_tags w) by (unfold read_tags; now rewrite Hst).
  assert (B : forall k name,
             nth_error settings k = Some name ->
             outside w0 (n + 1 + k) /\ in_sync w0 (n + 1 + k) name).
  { intros k name Hk.
    assert (Hk3 : k < 3).
    { apply (proj1 (nth_error_Some settings k)). rewrite Hk. discriminate. }
    split.
    - unfold outside. rewrite L.
      cbn [w0 this set__data _textElement _tagsElement]. fold n in H1, H2. lia.
    - unfold in_sync. rewrite R. unfold lookup, w0. cbn [document].
      replace (n + 1 + k) with (length (document w) + S k) by (unfold n; lia).
      rewrite app_nth2_plus.
      destruct k as [|[|[|k]]]; [| | |lia]; inversion Hk; subst name;
        cbn [nth map settings button_div classList];
        destruct (includes (read_tags w) _); reflexivity. }
  unfold panel_in_sync, panel_buttons_of.
  cbn [settings length seq combine].
  apply Forall_cons; [cbn [fst snd]|].
  { replace (n + 1) with (n + 1 + 0) by lia. exact (B 0 "feature" eq_refl). }
  apply Forall_cons; [cbn [fst snd]|].
  { replace (S (n + 1)) with (n + 1 + 1) by lia. exact (B 1 "persona" eq_refl). }
  apply Forall_cons; [cbn [fst snd]|].
  { replace (S (S (n + 1))) with (n + 1 + 2) by lia.
    exact (B 2 "irrelevant" eq_refl). }
  apply Forall_nil.
Qed.

End Clicks.

(** X15.  The panel stays in sync: when the tag strip shows identifiers
    without duplicates, then after [renderSettings] and any sequence of
    clicks on the three buttons, every button is highlighted exactly when
    the block has the tag of its setting, and the tags have no
    duplicates. *)
Theorem settings_panel_stays_in_sync (w : World) (ts : list string)
    (cs : list (handle * string)) :
  mounted w -> shows w ts -> NoDup ts -> Forall identifier ts ->
  incl cs (panel_buttons_of (length (document w))) ->
  exists w',
    bind renderSettings (fun _ => clicks cs) w = Ok (tt, w')
    /\ panel_in_sync w' (panel_buttons_of (length (document w)))
    /\ NoDup (read_tags w').
Proof.
  intros Hm Hs Hd Hi Hc. unfold bind. rewrite (renderSettings_runs w Hm).
  destruct (panel_made_in_sync w Hm) as (M0 & S0 & _ & P0).
  set (n := length (document w)) in *. set (w0 := mkWorld _ _) in *.
  assert (Sh : shows w0 ts) by (unfold shows; now rewrite S0).
  assert (Nb : NoDup (map fst (panel_buttons_of n))).
  { unfold panel_buttons_of. cbn [settings length seq combine map fst].
    repeat constructor; cbn [In]; lia. }
  assert (Nn : NoDup (map snd (panel_buttons_of n))).
  { unfold panel_buttons_of. cbn [settings length seq combine map snd].
    repeat constructor; cbn [In]; intuition discriminate. }
  assert (Hid : Forall identifier (map snd (panel_buttons_of n))).
  { unfold panel_buttons_of. cbn [settings length seq combine map snd].
    repeat constructor. }
  destruct (clicks_keep_sync _ cs Nb Nn Hid Hc w0 ts M0 Sh Hd Hi P0)
    as (w' & ts' & C & M' & S' & D' & I' & P').
  exists w'. split; [exact C|]. split; [exact P'|].
  now rewrite (shows_read_tags w' ts' S' I').
Qed.

Lemma settings_panel_stays_in_sync_witness :
  mounted sample /\ shows sample ["y"] /\ NoDup ["y"] /\ Forall identifier ["y"]
  /\ incl [(4, "feature"); (5, "persona"); (4, "feature")]
          (panel_buttons_of (length (document sample)))
  /\ exists w',
       bind renderSettings
            (fun _ => clicks [(4, "feature"); (5, "persona"); (4, "feature")]) sample
       = Ok (tt, w')
       /\ panel_in_sync w' (panel_buttons_of (length (document sample)))
       /\ NoDup (read_tags w').
Proof.
  assert (Hm : mounted sample) by mounted_by_evaluation.
  assert (Hs : shows sample ["y"]) by reflexivity.
  assert (Hd : NoDup ["y"]) by (constructor; [intros [] | constructor]).
  assert (Hi : Forall identifier ["y"]) by (repeat constructor).
  assert (Hc : incl [(4, "feature"); (5, "persona"); (4, "feature")]
                    (panel_buttons_of (length (document sample)))).
  { intros x [<-|[<-|[<-|[]]]]; cbn; tauto. }
  split; [exact Hm|]. split; [exact Hs|]. split; [exact Hd|].
  split; [exact Hi|]. split; [exact Hc|].
  exact (settings_panel_stays_in_sync sample ["y"] _ Hm Hs Hd Hi Hc).
Defined.

Section Drift.

Lemma count_includes (l : list string) (x : string) :
  1 <= count_occ string_dec l x -> includes l x = true.
Proof.
  intros H. apply (proj2 (includes_In _ _)).
  apply (proj2 (count_occ_In string_dec l x)). lia.
Qed.

Lemma count_remove_first (l : list string) (x : string) :
  count_occ string_dec (remove_first x l) x = count_occ string_dec l x - 1.
Proof.
  induction l as [|y l IH]; [reflexivity|].
  cbn [remove_first count_occ].
  destruct (String.eqb y x) eqn:E.
  - apply String.eqb_eq in E. subst y.
    destruct (string_dec x x) as [_|N]; [lia | now elim N].
  - apply String.eqb_neq in E.
    cbn [count_occ]. destruct (string_dec y x) as [E'|_]; [contradiction | exact IH].
Qed.

End Drift.

(** X16.  A click on a tag that the block has twice: when the tag strip
    shows the identifier of a setting at least twice (saved data may
    bring duplicates) and the button of that setting is highlighted as it
    should, then after one click the button is not highlighted and the
    block still has the tag. *)
Theorem click_on_a_doubled_tag (w : World) (ts : list string) (b : handle)
    (name : string) :
  mounted w -> shows w ts -> Forall identifier ts -> identifier name ->
  outside w b -> in_sync w b name ->
  2 <= count_occ string_dec ts name ->
  exists w',
    settings_click b name w = Ok (tt, w')
    /\ includes (classList (lookup (document w') b)) active = false
    /\ includes (read_tags w') name = true
    /\ ~ in_sync w' b name.
Proof.
  intros Hm Hs Hi Hn Ho Hy Hc.
  pose proof (shows_read_tags w ts Hs Hi) as Rt.
  assert (Hin : includes ts name = true) by (apply count_includes; lia).
  destruct (click_step w ts b name Hm Hs Hi Hn Ho)
    as (w' & C & _ & _ & R1 & _ & _ & _ & A1 & _).
  unfold in_sync in Hy. rewrite Rt, Hin in Hy. rewrite Hy in A1. cbn [negb] in A1.
  assert (T : includes (read_tags w') name = true).
  { rewrite R1. unfold toggled. rewrite Hin. apply count_includes.
    rewrite count_remove_first. lia. }
  exists w'. split; [exact C|]. split; [exact A1|]. split; [exact T|].
  unfold in_sync. rewrite A1, T. discriminate.
Qed.

Lemma click_on_a_doubled_tag_witness :
  mounted sample_doubled /\ shows sample_doubled ["feature"; "feature"]
  /\ Forall identifier ["feature"; "feature"] /\ identifier "feature"
  /\ outside sample_doubled 4 /\ in_sync sample_doubled 4 "feature"
  /\ 2 <= count_occ string_dec ["feature"; "feature"] "feature"
  /\ exists w',
       settings_click 4 "feature" sample_doubled = Ok (tt, w')
       /\ includes (classList (lookup (document w') 4)) active = false
       /\ includes (read_tags w') "feature" = true.
Proof.
  assert (Hm : mounted sample_doubled) by mounted_by_evaluation.
  assert (Hs : shows sample_doubled ["feature"; "feature"]) by reflexivity.
  assert (Hi : Forall identifier ["feature"; "feature"]) by (repeat constructor).
  assert (Hn : identifier "feature") by reflexivity.
  assert (Ho : outside sample_doubled 4)
    by (unfold outside; cbn; repeat split; [repeat constructor | discriminate..]).
  assert (Hy : in_sync sample_doubled 4 "feature") by reflexivity.
  assert (Hc : 2 <= count_occ string_dec ["feature"; "feature"] "feature")
    by (vm_compute; repeat constructor).
  split; [exact Hm|]. split; [exact Hs|]. split; [exact Hi|]. split; [exact Hn|].
  split; [exact Ho|]. split; [exact Hy|]. split; [exact Hc|].
  destruct (click_on_a_doubled_tag sample_doubled ["feature"; "feature"] 4 "feature"
              Hm Hs Hi Hn Ho Hy Hc) as (w' & A & B & C & _).
  exists w'. repeat split; assumption.
Defined.

Section Saving.

Lemma fresh_container (ps : Params) (doc : Document) :
  lookup (document (fresh ps doc)) (length doc + 2) = container_div (length doc).
Proof.
  unfold fresh, lookup. cbn [document]. now rewrite app_nth2_plus.
Qed.

Lemma includes_Set_add (l : list string) (x y : string) :
  includes (Set_add l x) y = includes l y || String.eqb x y.
Proof.
  unfold Set_add. destruct (includes l x) eqn:E.
  - destruct (String.eqb x y) eqn:E'; [|now rewrite orb_false_r].
    apply String.eqb_eq in E'. subst y. now rewrite E.
  - rewrite includes_app. cbn [includes].
    now destruct (String.eqb x y).
Qed.

Lemma constructor_assembled (ps : Params) (doc : Document) (w : World) :
  constructor ps doc = Ok w -> assembled w.
Proof.
  intros Hc. apply constructor_inv in Hc. subst w.
  pose proof (fresh_mounted ps doc) as M0.
  pose proof (same_block_written (fresh ps doc) (saved ps) M0)
    as (A1 & A2 & A3 & _ & A5 & _ & A7).
  destruct (kept_view_written (fresh ps doc) (saved ps) M0)
    as (_ & (_ & B2 & _) & (_ & C2 & _) & D1 & D2).
  rewrite fresh_text_of in B2, D1. rewrite fresh_strip_of in C2, D2.
  unfold assembled, container_of. rewrite A1, A2, A3, A5, B2, C2.
  change (_textElement (this (fresh ps doc))) with (length doc) in *.
  change (_tagsElement (this (fresh ps doc))) with (length doc + 1) in *.
  change (_containerElement (this (fresh ps doc))) with (length doc + 2) in *.
  rewrite A7 by lia. rewrite (fresh_container ps doc).
  change (length (document (fresh ps doc)))
    with (length (doc ++ [text_div (api ps) "ce-paragraph" (styles_block (api ps))
                            (readOnly ps) (or_empty (placeholder (config ps)));
                          tags_div; container_div (length doc)])).
  split; [apply built_mounted|].
  rewrite length_app. cbn [length container_div childNodes childElements].
  split; [lia|]. split; [lia|]. split; [lia|]. split; [reflexivity|].
  split; [reflexivity|].
  split.
  { cbn [text_div classList fold_left]. rewrite includes_Set_add. reflexivity. }
  split; [reflexivity|].
  split; [now apply D1 | now apply D2].
Qed.

Lemma assembled_kept (w w' : World) :
  same_block w w' -> kept_view w w' -> assembled w -> assembled w'.
Proof.
  intros Sb (_ & (_ & B2 & _) & (_ & C2 & _) & D1 & D2)
         (M & E1 & E2 & E3 & E4 & E5 & E6 & E7 & E8 & E9).
  pose proof (same_block_mounted w w' Sb M) as M'.
  destruct Sb as (A1 & A2 & A3 & _ & A5 & _ & A7).
  unfold assembled, container_of. rewrite A1, A2, A3, A5, B2, C2.
  rewrite (A7 _ E2 E3). fold (container_of w).
  split; [exact M'|]. split; [exact E1|]. split; [exact E2|]. split; [exact E3|].
  split; [exact E4|]. split; [exact E5|]. split; [exact E6|]. split; [exact E7|].
  split; [now apply D1 | now apply D2].
Qed.

Lemma served_assembled (ps : Params) (doc : Document) (w0 : World)
    (cs : list call) (w : World) :
  constructor ps doc = Ok w0 -> perform_all cs w0 = Ok (tt, w) -> assembled w.
Proof.
  intros Hc Hp. pose proof (constructor_assembled ps doc w0 Hc) as A0.
  pose proof A0 as (M0 & _).
  apply (assembled_kept w0 w); [| |exact A0].
  - now apply (perform_all_same_block cs).
  - now apply (perform_all_kept_view cs).
Qed.

(** What a class selector finds under the container of an assembled
    view. *)
Lemma select_under_container (w : World) (cls : string) :
  assembled w ->
  select_cells (length (document w)) (document w) cls (_containerElement (this w))
  = (if includes (classList (text_of w)) cls
     then [FoundCell (_textElement (this w))] else [])
    ++ map FoundNode (querySelectorAll cls (childNodes (text_of w)))
    ++ (if includes (classList (strip_of w)) cls
        then [FoundCell (_tagsElement (this w))] else [])
    ++ map FoundNode (querySelectorAll cls (childNodes (strip_of w))).
Proof.
  intros ((H1 & H2 & H3 & H4) & E1 & E2 & E3 & E4 & E5 & E6 & E7 & E8 & E9).
  destruct (length (document w)) as [|[|n]] eqn:L; [lia | lia |].
  cbn [select_cells]. fold (container_of w). rewrite E4, E5.
  cbn [querySelectorAll flat_map map app select_cells].
  fold (text_of w) (strip_of w). rewrite E8, E9.
  cbn [flat_map]. rewrite !app_nil_r.
  rewrite <- !app_assoc. reflexivity.
Qed.

Lemma select_under_strip (w : World) (cls : string) :
  assembled w ->
  select_cells (length (document w)) (document w) cls (_tagsElement (this w))
  = map FoundNode (querySelectorAll cls (childNodes (strip_of w))).
Proof.
  intros ((H1 & H2 & H3 & H4) & E1 & E2 & E3 & E4 & E5 & E6 & E7 & E8 & E9).
  destruct (length (document w)) as [|n] eqn:L; [lia|].
  cbn [select_cells]. fold (strip_of w). rewrite E9.
  cbn [flat_map]. apply app_nil_r.
Qed.

Lemma save_text (w : World) :
  assembled w ->
  querySelector (document w) "ce-paragraph" (_containerElement (this w))
  = Some (FoundCell (_textElement (this w))).
Proof.
  intros A. unfold querySelector. rewrite (select_under_container w _ A).
  destruct A as (_ & _ & _ & _ & _ & _ & E6 & _). now rewrite E6.
Qed.

Lemma save_strip (w : World) :
  assembled w ->
  includes (classList (text_of w)) "ce-tags" = false ->
  querySelectorAll "ce-tags" (childNodes (text_of w)) = [] ->
  querySelector (document w) "ce-tags" (_containerElement (this w))
  = Some (FoundCell (_tagsElement (this w))).
Proof.
  intros A Hc Hq. unfold querySelector. rewrite (select_under_container w _ A).
  destruct A as (_ & _ & _ & _ & _ & _ & _ & E7 & _). now rewrite Hc, Hq, E7.
Qed.

Lemma save_nested (w : World) (n : element) (rest : list element) :
  assembled w ->
  includes (classList (text_of w)) "ce-tags" = false ->
  querySelectorAll "ce-tags" (childNodes (text_of w)) = n :: rest ->
  querySelector (document w) "ce-tags" (_containerElement (this w))
  = Some (FoundNode n).
Proof.
  intros A Hc Hq. unfold querySelector. rewrite (select_under_container w _ A).
  now rewrite Hc, Hq.
Qed.

Lemma served_text_classes (ps : Params) (doc : Document) (w0 : World)
    (cs : list call) (w : World) :
  constructor ps doc = Ok w0 -> perform_all cs w0 = Ok (tt, w) ->
  styles_block (api ps) <> "ce-tags" ->
  includes (classList (text_of w)) "ce-tags" = false.
Proof.
  intros Hc Hp Hb. apply constructor_inv in Hc. subst w0.
  pose proof (perform_all_kept_view cs _ w (built_mounted ps doc) Hp) as K.
  pose proof (kept_view_written (fresh ps doc) (saved ps) (fresh_mounted ps doc)) as K0.
  destruct (kept_view_trans _ _ _ K0 K) as (_ & (_ & A2 & _) & _).
  rewrite A2, fresh_text_of. cbn [text_div classList fold_left].
  rewrite includes_Set_add. apply String.eqb_neq in Hb. now rewrite Hb.
Qed.

End Saving.

(** X17.  What [save] extracts from the rendered view is what the block
    shows: for a block built by the constructor, after any calls,
    [save(render())] returns the text and the tags that the getter reads
    and changes nothing, provided the host's block class is not [ce-tags]
    and the text holds no element of class [ce-tags]. *)
Theorem save_returns_what_the_block_shows (ps : Params) (doc : Document)
    (w0 : World) (cs : list call) (w : World) :
  constructor ps doc = Ok w0 -> perform_all cs w0 = Ok (tt, w) ->
  styles_block (api ps) <> "ce-tags" ->
  querySelectorAll "ce-tags" (childNodes (text_of w)) = [] ->
  bind render save w = Ok (shown w, w)
  /\ exists w', get_data w = Ok (shown w, w').
Proof.
  intros Hc Hp Hb Hq.
  pose proof (served_assembled ps doc w0 cs w Hc Hp) as A.
  pose proof (served_text_classes ps doc w0 cs w Hc Hp Hb) as Hn.
  split; [|rewrite get_data_reads; eexists; reflexivity].
  unfold bind, render, gets, save.
  rewrite (save_text w A), (save_strip w A Hn Hq).
  cbn [found_innerHTML found_querySelectorAll].
  rewrite (select_under_strip w _ A), map_map.
  reflexivity.
Qed.

(** X18.  Where [save] and the getter part: when the text of such a
    block holds an element of class [ce-tags], [save(render())] takes the
    tags from the first such element of the text, not from the tag
    strip. *)
Theorem save_reads_tags_inside_the_text (ps : Params) (doc : Document)
    (w0 : World) (cs : list call) (w : World) (n : element)
    (rest : list element) :
  constructor ps doc = Ok w0 -> perform_all cs w0 = Ok (tt, w) ->
  styles_block (api ps) <> "ce-tags" ->
  querySelectorAll "ce-tags" (childNodes (text_of w)) = n :: rest ->
  bind render save w
  = Ok (mkData (Some (read_text w))
               (Some (map innerHTML (querySelectorAll "ce-tag" (el_children n)))),
        w).
Proof.
  intros Hc Hp Hb Hq.
  pose proof (served_assembled ps doc w0 cs w Hc Hp) as A.
  pose proof (served_text_classes ps doc w0 cs w Hc Hp Hb) as Hn.
  unfold bind, render, gets, save.
  rewrite (save_text w A), (save_nested w n rest A Hn Hq).
  cbn [found_innerHTML]. fold (text_of w). fold (read_text w).
  cbn [found_querySelectorAll]. now rewrite map_map.
Qed.

Lemma save_returns_what_the_block_shows_witness :
  constructor reader [] = Ok sample_reader
  /\ perform_all calls sample_reader = Ok (tt, sample_reader_later)
  /\ styles_block (api reader) <> "ce-tags"
  /\ querySelectorAll "ce-tags" (childNodes (text_of sample_reader_later)) = []
  /\ bind render save sample_reader_later
     = Ok (mkData (Some "C") (Some ["y"; "x"; "z"]), sample_reader_later).
Proof.
  assert (Hc : constructor reader [] = Ok sample_reader) by (vm_compute; reflexivity).
  assert (Hp : perform_all calls sample_reader = Ok (tt, sample_reader_later))
    by (vm_compute; reflexivity).
  assert (Hb : styles_block (api reader) <> "ce-tags") by discriminate.
  assert (Hq : querySelectorAll "ce-tags" (childNodes (text_of sample_reader_later)) = [])
    by reflexivity.
  split; [exact Hc|]. split; [exact Hp|]. split; [exact Hb|]. split; [exact Hq|].
  exact (proj1 (save_returns_what_the_block_shows reader [] sample_reader calls
                  sample_reader_later Hc Hp Hb Hq)).
Defined.

Lemma save_reads_tags_inside_the_text_witness :
  constructor (mkParams (mkData (Some "<b class='ce-tags'><i class='ce-tag'>z</i></b>")
                                (Some ["y"]))
                        (mkConfig None None) host false) []
  = Ok sample_nested
  /\ perform_all [] sample_nested = Ok (tt, sample_nested)
  /\ styles_block host <> "ce-tags"
  /\ querySelectorAll "ce-tags" (childNodes (text_of sample_nested))
     = [mkEl "b" [("class", "ce-tags")]
          [Element "i" [("class", "ce-tag")] [Text "z"]]]
  /\ read_tags sample_nested = ["y"]
  /\ exists t, bind render save sample_nested = Ok (mkData (Some t) (Some ["z"]), sample_nested).
Proof.
  assert (Hc : constructor
                 (mkParams (mkData (Some "<b class='ce-tags'><i class='ce-tag'>z</i></b>")
                                   (Some ["y"]))
                           (mkConfig None None) host false) []
               = Ok sample_nested) by (vm_compute; reflexivity).
  assert (Hp : perform_all [] sample_nested = Ok (tt, sample_nested)) by reflexivity.
  assert (Hb : styles_block host <> "ce-tags") by discriminate.
  assert (Hq : querySelectorAll "ce-tags" (childNodes (text_of sample_nested))
               = [mkEl "b" [("class", "ce-tags")]
                    [Element "i" [("class", "ce-tag")] [Text "z"]]])
    by reflexivity.
  split; [exact Hc|]. split; [exact Hp|]. split; [exact Hb|]. split; [exact Hq|].
  split; [reflexivity|].
  eexists.
  exact (save_reads_tags_inside_the_text _ [] sample_nested [] sample_nested _ []
           Hc Hp Hb Hq).
Defined.

Section Page.

Context {Output : Type} (stringify : Output -> string).

Lemma dispatch_inv (s : Index.Page) (c : nat) (e : Index.event Output) :
  page_inv s c ->
  page_inv (Index.dispatch stringify s e)
           (c + (if is_fulfilled e then 1 else 0)).
Proof.
  unfold page_inv. destruct s as [sv pd n tx]. simpl.
  intros H. destruct e as [|p o|p]; simpl.
  - unfold Index.onChange. simpl. destruct sv as [q|]; simpl.
    + destruct H as [H1 H2]. split; [exact H1 | lia].
    + destruct H as [H1 H2]. subst pd. split; [now right | simpl; lia].
  - destruct (Index.is_pending p pd) eqn:E; simpl.
    + destruct sv as [q|].
      * destruct H as [[H1|H1] H2]; subst pd; [discriminate E|].
        simpl in E. rewrite orb_false_r in E.
        apply Nat.eqb_eq in E. subst q.
        simpl. rewrite Nat.eqb_refl. simpl.
        split; [reflexivity | lia].
      * destruct H as [H1 H2]. subst pd. discriminate E.
    + destruct sv as [q|]; destruct H as [H1 H2]; split; try assumption; lia.
  - destruct (Index.is_pending p pd) eqn:E; simpl.
    + destruct sv as [q|].
      * destruct H as [[H1|H1] H2]; subst pd; [discriminate E|].
        simpl in E. rewrite orb_false_r in E.
        apply Nat.eqb_eq in E. subst q.
        simpl. rewrite Nat.eqb_refl. simpl.
        split; [now left | lia].
      * destruct H as [H1 H2]. subst pd. discriminate E.
    + destruct sv as [q|]; destruct H as [H1 H2]; split; try assumption; lia.
Qed.

Lemma run_inv (es : list (Index.event Output)) (s : Index.Page) (c : nat) :
  page_inv s c -> page_inv (Index.run stringify es s) (c + fulfilled es).
Proof.
  revert s c. induction es as [|e es IH]; intros s c H.
  - cbn. now rewrite Nat.add_0_r.
  - unfold Index.run. cbn [fold_left]. fold (Index.run stringify es).
    pose proof (IH _ _ (dispatch_inv s c e H)) as H'.
    unfold fulfilled in *. cbn [filter].
    destruct (is_fulfilled e); cbn [length]; [|now rewrite Nat.add_0_r in H'].
    now replace (c + S (length (filter is_fulfilled es)))
      with (c + 1 + length (filter is_fulfilled es)) by lia.
Qed.

Lemma start_inv : page_inv Index.start 0.
Proof. cbn. split; [reflexivity | lia]. Qed.

(** With the flag up and nothing pending, no event changes the page. *)
Lemma stuck (s : Index.Page) (es : list (Index.event Output)) :
  Index.saving s <> None -> Index.pending s = [] ->
  Index.run stringify es s = s.
Proof.
  intros Hs Hp. induction es as [|e es IH]; [reflexivity|].
  unfold Index.run. cbn [fold_left]. fold (Index.run stringify es).
  assert (E : Index.dispatch stringify s e = s).
  { destruct e as [|p o|p]; cbn [Index.dispatch].
    - unfold Index.onChange. destruct (Index.saving s); [reflexivity | now elim Hs].
    - now rewrite Hp.
    - now rewrite Hp. }
  now rewrite E.
Qed.

End Page.

(** X19.  One save at a time: after any events from the start of the
    page at most one call of [editor.save()] is pending, it is the one
    that the [saving] flag names, and the number of saves started is at
    most one more than the number of fulfilments. *)
Theorem one_save_at_a_time {Output : Type} (stringify : Output -> string)
    (es : list (Index.event Output)) :
  let s := Index.run stringify es Index.start in
  length (Index.pending s) <= 1
  /\ (forall p, In p (Index.pending s) -> Index.saving s = Some p)
  /\ Index.saves s <= S (fulfilled es).
Proof.
  intros s. pose proof (run_inv stringify es Index.start 0 start_inv) as H.
  fold s in H. unfold page_inv in H. cbn [Nat.add] in H.
  destruct (Index.saving s) as [q|].
  - destruct H as [[H1|H1] H2]; rewrite H1; cbn [length In].
    + split; [lia|]. split; [intros p []|exact H2].
    + split; [lia|]. split; [intros p [<-|[]]; reflexivity | exact H2].
  - destruct H as [H1 H2]. rewrite H1. cbn [length In].
    split; [lia|]. split; [intros p [] | lia].
Qed.

(** X20.  A rejected save blocks saving: once a pending save is
    rejected, the [saving] flag stays up, and whatever events follow, no
    save is started and the output is never written again. *)
Theorem rejected_save_blocks_saving {Output : Type} (stringify : Output -> string)
    (es es' : list (Index.event Output)) (p : nat) :
  let s := Index.run stringify es Index.start in
  Index.is_pending p (Index.pending s) = true ->
  let s' := Index.run stringify (Index.Rejected p :: es') s in
  Index.saving s' = Some p
  /\ Index.pending s' = []
  /\ Index.saves s' = Index.saves s
  /\ Index.innerText s' = Index.innerText s.
Proof.
  intros s Hp s'.
  pose proof (run_inv stringify es Index.start 0 start_inv) as H.
  fold s in H. unfold page_inv in H.
  assert (E : Index.dispatch stringify s (Index.Rejected p)
              = Index.mkPage (Some p) [] (Index.saves s) (Index.innerText s)).
  { simpl. rewrite Hp. destruct (Index.saving s) as [q|].
    - destruct H as [[H1|H1] _]; rewrite H1 in *; [discriminate Hp|].
      simpl in Hp. rewrite orb_false_r in Hp. apply Nat.eqb_eq in Hp. subst q.
      simpl. now rewrite Nat.eqb_refl.
    - destruct H as [H1 _]. rewrite H1 in Hp. discriminate Hp. }
  subst s'.
  change (Index.run stringify (Index.Rejected p :: es') s)
    with (Index.run stringify es' (Index.dispatch stringify s (Index.Rejected p))).
  rewrite E. rewrite stuck; [now repeat split | discriminate | reflexivity].
Qed.

Lemma rejected_save_blocks_saving_witness :
  Index.is_pending 0
    (Index.pending (Index.run (fun o : string => o) [Index.Change] Index.start)) = true
  /\ Index.saves
       (Index.run (fun o : string => o)
          [Index.Change; Index.Rejected 0; Index.Change; Index.Fulfilled 0 "{}";
           Index.Change] Index.start) = 1
  /\ Index.innerText
       (Index.run (fun o : string => o)
          [Index.Change; Index.Rejected 0; Index.Change; Index.Fulfilled 0 "{}";
           Index.Change] Index.start) = None.
Proof.
  assert (Hp : Index.is_pending 0
                 (Index.pending
                    (Index.run (fun o : string => o) [Index.Change] Index.start)) = true)
    by reflexivity.
  split; [exact Hp|].
  destruct (rejected_save_blocks_saving (fun o : string => o) [Index.Change]
              [Index.Change; Index.Fulfilled 0 "{}"; Index.Change] 0 Hp)
    as (_ & _ & A & B).
  split; [exact A | exact B].
Defined.

(** X21.  Changes during a save are dropped, not queued: from a page
    without a save in flight, any number of changes in a row start one
    save, and when it is fulfilled the output shows its result and the
    flag is down again. *)
Theorem changes_during_a_save_are_dropped {Output : Type}
    (stringify : Output -> string) (es : list (Index.event Output))
    (n : nat) (output : Output) :
  let s := Index.run stringify es Index.start in
  Index.saving s = None ->
  Index.run stringify
    (repeat Index.Change (S n) ++ [Index.Fulfilled (Index.saves s) output]) s
  = Index.mkPage None [] (S (Index.saves s)) (Some (stringify output)).
Proof.
  intros s Hs.
  pose proof (run_inv stringify es Index.start 0 start_inv) as H.
  fold s in H. unfold page_inv in H. rewrite Hs in H. destruct H as [Hp _].
  unfold Index.run. rewrite fold_left_app. cbn [repeat fold_left].
  set (s1 := Index.dispatch stringify s Index.Change).
  assert (E1 : s1 = Index.mkPage (Some (Index.saves s)) [Index.saves s]
                      (S (Index.saves s)) (Index.innerText s)).
  { unfold s1. simpl. unfold Index.onChange. now rewrite Hs, Hp. }
  assert (E2 : forall k, fold_left (Index.dispatch stringify) (repeat Index.Change k) s1 = s1).
  { induction k as [|k IH]; [reflexivity|]. cbn [repeat fold_left].
    replace (Index.dispatch stringify s1 Index.Change) with s1; [exact IH|].
    rewrite E1. reflexivity. }
  rewrite E2, E1. simpl. now rewrite Nat.eqb_refl.
Qed.

Lemma changes_during_a_save_are_dropped_witness :
  Index.saving
    (Index.run (fun o : string => o) [Index.Change; Index.Fulfilled 0 "{}"] Index.start)
  = None
  /\ Index.run (fun o : string => o)
       ([Index.Change; Index.Fulfilled 0 "{}"]
        ++ repeat Index.Change 3 ++ [Index.Fulfilled 1 "{blocks}"]) Index.start
     = Index.mkPage None [] 2 (Some "{blocks}").
Proof.
  assert (Hs : Index.saving
                 (Index.run (fun o : string => o)
                    [Index.Change; Index.Fulfilled 0 "{}"] Index.start) = None)
    by reflexivity.
  split; [exact Hs|].
  unfold Index.run at 1. rewrite fold_left_app.
  exact (changes_during_a_save_are_dropped (fun o : string => o)
           [Index.Change; Index.Fulfilled 0 "{}"] 2 "{blocks}" Hs).
Defined.

(** X22.  The calls that throw: of the calls that the host and the user
    make on a block, in any state, the only ones that throw are a merge
    of a record without tags and a validation of a record without text,
    and what they throw is a [TypeError]. *)
Theorem calls_that_throw (c : call) (w : World) (x : exn) :
  perform c w = Throw x
  <-> x = TypeError
      /\ ((exists tx, c = Merge (mkData tx None))
          \/ (exists tg, c = Validate (mkData None tg))).
Proof.
  split.
  - intros H. destruct c as [d| | |d|d|e|t|e|ns]; cbn [perform] in H.
    + rewrite set_data_runs in H. discriminate H.
    + unfold bind in H. rewrite get_data_reads in H. discriminate H.
    + discriminate H.
    + destruct d as [tx [tg|]].
      * rewrite merge_runs in H. discriminate H.
      * rewrite merge_without_tags in H. inversion H.
        split; [reflexivity|]. left. now exists tx.
    + destruct d as [[t|] tg].
      * unfold bind in H. rewrite validate_runs in H. discriminate H.
      * unfold bind in H. rewrite validate_without_text in H. inversion H.
        split; [reflexivity|]. right. now exists tg.
    + rewrite onPaste_runs in H. discriminate H.
    + rewrite toggle_runs in H. discriminate H.
    + unfold onKeyUp in H.
      destruct (negb (String.eqb (code e) "Backspace")
                && negb (String.eqb (code e) "Delete")); [discriminate H|].
      destruct (String.eqb
                  (get_textContent (lookup (document w) (_textElement (this w)))) "");
        discriminate H.
    + discriminate H.
  - intros (-> & [(tx & ->)|(tg & ->)]); cbn [perform].
    + apply merge_without_tags.
    + unfold bind. now rewrite validate_without_text.
Qed.

Lemma calls_that_throw_witness :
  perform (Merge (mkData (Some "B") None)) sample = Throw TypeError
  /\ perform (Validate (mkData None (Some ["y"]))) sample = Throw TypeError.
Proof.
  split.
  - apply (proj2 (calls_that_throw _ sample TypeError)).
    split; [reflexivity|]. left. now exists (Some "B").
  - apply (proj2 (calls_that_throw _ sample TypeError)).
    split; [reflexivity|]. right. now exists (Some ["y"]).
Defined.
